(** * Resource-governance core of the inference service

    A shallow embedding of the object pool, the priority scheduler, the
    memory sampler, the collector inspector, the alert router and the
    orchestrator of [ai_system], followed by the properties established
    about them.

    Conventions of the embedding.
    - Python [int] is [Z]; Python [float] (timestamps, percentages, growth
      rates) is [Q]: the code only compares, subtracts and divides them.
    - A call that may raise returns a [result]; state is passed explicitly.
    - Every method body that runs under the object's lock is one atomic
      transition; a concurrent execution is an interleaving of transitions,
      i.e. a list of operations folded over the state.
    - Caller-supplied callables (factory, reset hook, task payload, custom
      alert callback) are represented by what they do when called. *)

From Stdlib Require Import ZArith QArith Lia Lqa Sorted.
From stdpp Require Import gmap strings list.

(** ** Part I: the embedding *)

(** Exceptions raised by the modelled code. [UserError] stands for an
    exception of a caller-supplied callable. *)
Inductive exn : Type :=
  | ValueError
  | TypeError
  | AttributeError
  | RuntimeError
  | TimeoutError
  | KeyError
  | UserError
  | SystemExit.

(** [SystemExit] derives from [BaseException] only: [except Exception] does
    not catch it. *)
Definition is_Exception (e : exn) : bool :=
  match e with SystemExit => false | _ => true end.

Inductive result (A : Type) : Type :=
  | Return (a : A)
  | Raise (e : exn).
Arguments Return {A} a.
Arguments Raise {A} e.

(** *** object_pool.py *)
Module ObjectPool.
Section WithObjects.
Context {T : Type}.

(** Constructor arguments. [reset_object] is [None] or a hook; the hook is
    represented by its outcome on an object ([true]: returns, [false]:
    raises). [timeout] only bounds how long [Waiting] lasts. *)
Record config : Type := Config {
  _max_size : Z;
  _reset_object : option (T -> bool);
  _block : bool
}.

(** [self._pool] (a Python list: [append] and [pop] work at its end) and
    [self._in_use_count]. *)
Record state : Type := State {
  _pool : list T;
  _in_use_count : Z
}.

Definition init : state := State [] 0.

(** Which [return]/[raise]/[wait] of [acquire] was reached. *)
Inductive acquired : Type :=
  | Tracked (obj : T)   (* lines 64 and 87: counted in [in_use_count] *)
  | Burst (obj : T)     (* line 73: temporary object, not counted *)
  | Failed (e : exn)    (* the factory raised *)
  | Waiting.            (* line 78: blocked in [self._cond.wait] *)

(** [list.pop()]: the last element and the list without it. *)
Definition pop (l : list T) : option (T * list T) :=
  match last l with
  | Some x => Some (x, removelast l)
  | None => None
  end.

(** One pass of [acquire] under the lock; [create] is what
    [self._create_object()] does on this call. From [Waiting] the caller
    either gets [TimeoutError] (no notification within [timeout]) or is
    woken up and runs the pass again on the state it then finds. *)
Definition acquire (cfg : config) (create : result T) (s : state)
  : acquired * state :=
  match pop (_pool s) with
  | None =>
      if (_in_use_count s <? _max_size cfg)%Z then
        match create with
        | Return obj => (Tracked obj, State (_pool s) (_in_use_count s + 1))
        | Raise e => (Failed e, s)
        end
      else if negb (_block cfg) then
        match create with
        | Return obj => (Burst obj, s)
        | Raise e => (Failed e, s)
        end
      else (Waiting, s)
  | Some (obj, rest) => (Tracked obj, State rest (_in_use_count s + 1))
  end.

(** What [release] logged or signalled. *)
Inductive released : Type :=
  | Returned      (* decremented, appended to the pool, one waiter notified *)
  | ResetFailed   (* hook raised: object dropped, one waiter notified *)
  | Discarded.    (* counter was 0: warning, object dropped *)

Definition reset_raises (cfg : config) (obj : T) : bool :=
  match _reset_object cfg with
  | Some hook => negb (hook obj)
  | None => false
  end.

Definition release (cfg : config) (obj : T) (s : state) : released * state :=
  if reset_raises cfg obj then
    (ResetFailed,
     if (0 <? _in_use_count s)%Z then State (_pool s) (_in_use_count s - 1) else s)
  else if (0 <? _in_use_count s)%Z then
    (Returned, State (_pool s ++ [obj]) (_in_use_count s - 1))
  else (Discarded, s).

Definition size (s : state) : Z := Z.of_nat (length (_pool s)).

Definition clear (s : state) : state := State [] 0.

(** Operations of the callers of one pool, in the order in which they take
    the lock. *)
Inductive op : Type :=
  | Acquire (create : result T)
  | Release (obj : T)
  | Clear.

Definition step (cfg : config) (s : state) (o : op) : state :=
  match o with
  | Acquire create => snd (acquire cfg create s)
  | Release obj => snd (release cfg obj s)
  | Clear => clear s
  end.

Definition run (cfg : config) (ops : list op) (s : state) : state :=
  fold_left (step cfg) ops s.

Definition is_clear (o : op) : bool :=
  match o with Clear => true | _ => false end.
End WithObjects.
Arguments config : clear implicits.
Arguments state : clear implicits.
Arguments op : clear implicits.
Arguments acquired : clear implicits.
End ObjectPool.

(** *** frame_processor.py: the use of the model pool *)
Module FrameProcessor.
Section WithModels.
Context {T R : Type}.

(** [process_frame] from [self._model_pool.acquire()] on, for a caller that
    has the pool to itself: a wait that nobody ends runs into the timeout.
    [predict] stands for inference and postprocessing on the acquired model
    and returns or raises; the [finally] clause releases the model either
    way. *)
Definition process_frame (cfg : ObjectPool.config T) (create : result T)
    (predict : T -> result R) (s : ObjectPool.state T)
  : result R * ObjectPool.state T :=
  match ObjectPool.acquire cfg create s with
  | (ObjectPool.Tracked model, s1) | (ObjectPool.Burst model, s1) =>
      (predict model, snd (ObjectPool.release cfg model s1))
  | (ObjectPool.Failed e, s1) => (Raise e, s1)
  | (ObjectPool.Waiting, s1) => (Raise TimeoutError, s1)
  end.

(** Frames processed one after the other; each call comes with what the
    factory would do and what inference does. *)
Fixpoint process_frames (cfg : ObjectPool.config T)
    (calls : list (result T * (T -> result R))) (s : ObjectPool.state T)
  : list (result R) * ObjectPool.state T :=
  match calls with
  | [] => ([], s)
  | (create, predict) :: rest =>
      let '(r, s1) := process_frame cfg create predict s in
      let '(rs, s2) := process_frames cfg rest s1 in
      (r :: rs, s2)
  end.
End WithModels.
End FrameProcessor.

(** Comparisons of floats. *)
Definition Qgeb (x y : Q) : bool := Qle_bool y x.
Definition Qltb (x y : Q) : bool := negb (Qle_bool y x).
Definition Qgtb (x y : Q) : bool := negb (Qle_bool x y).

(** *** memory_monitor.py *)
Module MemoryMonitor.
Inductive MemoryAlertLevel : Type := NORMAL | WARNING | CRITICAL.

Definition value (l : MemoryAlertLevel) : Z :=
  match l with NORMAL => 0 | WARNING => 1 | CRITICAL => 2 end.

Record MemoryStats : Type := {
  timestamp : Q;
  rss : Z;
  vms : Z;
  percent : Q;
  available : Z;
  gc_count0 : Z;
  gc_count1 : Z;
  gc_count2 : Z;
  gc_objects : Z
}.

(** A [threading.Thread] as far as [is_alive] and [join] see it. *)
Inductive thread : Type := Thread (alive : bool).

Definition is_alive (t : option thread) : bool :=
  match t with Some (Thread a) => a | None => false end.

(** The attributes of a monitor that the modelled methods read or write. *)
Record state : Type := State {
  _warning_threshold : Q;
  _critical_threshold : Q;
  _monitor_thread : option thread;
  _stop_monitoring : bool
}.

Definition __init__ (warning critical : Q) : state :=
  State warning critical None false.

Definition start (self : state) : list string * state :=
  if is_alive (_monitor_thread self) then
    (["Memory monitoring thread is already running"], self)
  else
    (["Memory monitoring thread started"],
     State (_warning_threshold self) (_critical_threshold self)
           (Some (Thread true)) false).

(** [join(timeout=2.0)] returns when the thread has ended or after two
    seconds, whichever comes first; the loop looks at the flag once per
    [check_interval]. [joined] says whether the thread ended within the
    timeout. The message is logged either way. *)
Definition stop (joined : bool) (self : state) : list string * state :=
  if negb (is_alive (_monitor_thread self)) then
    (["Memory monitoring thread is not running"], self)
  else
    (["Memory monitoring thread stopped"],
     State (_warning_threshold self) (_critical_threshold self)
           (Some (Thread (negb joined))) true).

(** The monitoring thread finds [self._stop_monitoring] set at the head of
    the [while] of [_monitor_loop] and ends. *)
Definition loop_ends (self : state) : state :=
  if is_alive (_monitor_thread self) && _stop_monitoring self then
    State (_warning_threshold self) (_critical_threshold self)
          (Some (Thread false)) (_stop_monitoring self)
  else self.

Definition _check_alert_level (self : state) (stats : MemoryStats)
  : MemoryAlertLevel :=
  if Qgeb (percent stats) (_critical_threshold self) then CRITICAL
  else if Qgeb (percent stats) (_warning_threshold self) then WARNING
  else NORMAL.

Definition in_range (x : Q) : bool := Qle_bool 0 x && Qle_bool x 100.

Definition with_warning (self : state) (w : Q) : state :=
  State w (_critical_threshold self) (_monitor_thread self) (_stop_monitoring self).

Definition with_critical (self : state) (c : Q) : state :=
  State (_warning_threshold self) c (_monitor_thread self) (_stop_monitoring self).

(** The three statements of [set_thresholds] in order: each assignment is
    made as soon as its own range check passes, the comparison of the two
    thresholds comes last and reads the attributes. *)
Definition set_thresholds (warning critical : option Q) (self : state)
  : result unit * state :=
  let step1 : result unit * state :=
    match warning with
    | None => (Return tt, self)
    | Some w =>
        if in_range w then (Return tt, with_warning self w)
        else (Raise ValueError, self)
    end in
  match step1 with
  | (Raise e, s1) => (Raise e, s1)
  | (Return _, s1) =>
      let step2 : result unit * state :=
        match critical with
        | None => (Return tt, s1)
        | Some c =>
            if in_range c then (Return tt, with_critical s1 c)
            else (Raise ValueError, s1)
        end in
      match step2 with
      | (Raise e, s2) => (Raise e, s2)
      | (Return _, s2) =>
          if Qle_bool (_critical_threshold s2) (_warning_threshold s2)
          then (Raise ValueError, s2)
          else (Return tt, s2)
      end
  end.

(** **** The sampling loop *)

(** [self._stats] *)
Record counters : Type := Counters {
  max_memory_percent : Q;
  max_memory_rss : Z;
  gc_count : Z;
  alert_count : Z
}.

(** The attributes of the loop besides the thresholds. An alert callback is
    given by what a call of it does. *)
Record sampler : Type := Sampler {
  _enable_auto_gc : bool;
  _gc_threshold : Z;
  _max_history_size : Z;
  _history : list MemoryStats;
  _alert_callbacks : list (MemoryStats -> MemoryAlertLevel -> result unit);
  _stats : counters
}.

(** The values set by the constructor. *)
Definition new_sampler (enable_auto_gc : bool) (gc_threshold : Z) : sampler :=
  Sampler enable_auto_gc gc_threshold 100 [] [] (Counters 0 0 0 0).

Definition add_alert_callback
    (callback : MemoryStats -> MemoryAlertLevel -> result unit) (m : sampler)
  : sampler :=
  Sampler (_enable_auto_gc m) (_gc_threshold m) (_max_history_size m)
          (_history m) (_alert_callbacks m ++ [callback]) (_stats m).

(** [append], then [pop(0)] when the list has grown past the bound. *)
Definition _add_to_history (max_history_size : Z)
    (history : list MemoryStats) (stats : MemoryStats) : list MemoryStats :=
  let history := history ++ [stats] in
  if (max_history_size <? Z.of_nat (length history))%Z then tail history
  else history.

(** The [for callback in self._alert_callbacks] loop: the positions of the
    callbacks called so far, and the exception that left the loop, if any. *)
Fixpoint call_callbacks
    (callbacks : list (MemoryStats -> MemoryAlertLevel -> result unit))
    (i : nat) (stats : MemoryStats) (alert_level : MemoryAlertLevel)
    (called : list nat) : result unit * list nat :=
  match callbacks with
  | [] => (Return tt, called)
  | callback :: rest =>
      match callback stats alert_level with
      | Return _ =>
          call_callbacks rest (S i) stats alert_level (called ++ [i])
      | Raise e =>
          if is_Exception e then
            call_callbacks rest (S i) stats alert_level (called ++ [i])
          else (Raise e, called ++ [i])
      end
  end.

Definition with_stats (m : sampler) (c : counters) : sampler :=
  Sampler (_enable_auto_gc m) (_gc_threshold m) (_max_history_size m)
          (_history m) (_alert_callbacks m) c.

Definition _trigger_alert (stats : MemoryStats) (alert_level : MemoryAlertLevel)
    (m : sampler) : result unit * list nat * sampler :=
  let c := _stats m in
  let m1 := with_stats m (Counters (max_memory_percent c) (max_memory_rss c)
                                   (gc_count c) (alert_count c + 1)) in
  (call_callbacks (_alert_callbacks m) 0 stats alert_level [], m1).

Definition _update_stats (c : counters) (stats : MemoryStats) : counters :=
  Counters
    (if Qgtb (percent stats) (max_memory_percent c) then percent stats
     else max_memory_percent c)
    (if (max_memory_rss c <? rss stats)%Z then rss stats else max_memory_rss c)
    (gc_count c) (alert_count c).

Definition _should_trigger_gc (self : state) (m : sampler)
    (stats : MemoryStats) : bool :=
  Qgtb (percent stats) (_warning_threshold self)
  && (_gc_threshold m <? gc_objects stats)%Z.

Definition _trigger_gc (c : counters) : counters :=
  Counters (max_memory_percent c) (max_memory_rss c) (gc_count c + 1)
           (alert_count c).

Definition is_normal (l : MemoryAlertLevel) : bool :=
  match l with NORMAL => true | _ => false end.

(** One round of [_monitor_loop] on the sample [stats]: the callbacks
    called, and [Raise] when a callback raised past [except Exception],
    which ends the thread. *)
Definition tick (self : state) (stats : MemoryStats) (m : sampler)
  : result unit * list nat * sampler :=
  let m1 := Sampler (_enable_auto_gc m) (_gc_threshold m) (_max_history_size m)
                    (_add_to_history (_max_history_size m) (_history m) stats)
                    (_alert_callbacks m) (_stats m) in
  let alert_level := _check_alert_level self stats in
  let '(r, called, m2) :=
    if is_normal alert_level then (Return tt, [], m1)
    else _trigger_alert stats alert_level m1 in
  match r with
  | Raise e => (Raise e, called, m2)
  | Return _ =>
      let m3 := with_stats m2 (_update_stats (_stats m2) stats) in
      let m4 :=
        if _enable_auto_gc m3 && _should_trigger_gc self m3 stats
        then with_stats m3 (_trigger_gc (_stats m3)) else m3 in
      (Return tt, called, m4)
  end.

(** The loop over the samples that [_get_memory_stats] delivers, with the
    callbacks called in each round. *)
Fixpoint _monitor_loop (self : state) (samples : list MemoryStats)
    (m : sampler) : result unit * list (list nat) * sampler :=
  match samples with
  | [] => (Return tt, [], m)
  | stats :: rest =>
      match tick self stats m with
      | (Raise e, called, m1) => (Raise e, [called], m1)
      | (Return _, called, m1) =>
          let '(r, calls, m2) := _monitor_loop self rest m1 in
          (r, called :: calls, m2)
      end
  end.

End MemoryMonitor.

(** *** A state-and-exception monad for methods that call other methods *)
Definition M (W A : Type) : Type := W -> result A * W.

Global Instance M_ret {W} : MRet (M W) := fun A a w => (Return a, w).
Global Instance M_bind {W} : MBind (M W) := fun A B k c w =>
  match c w with
  | (Return a, w') => k a w'
  | (Raise e, w') => (Raise e, w')
  end.

Definition raise {W A} (e : exn) : M W A := fun w => (Raise e, w).
Definition gets {W A} (f : W -> A) : M W A := fun w => (Return (f w), w).
Definition modify {W} (f : W -> W) : M W unit := fun w => (Return tt, f w).
Definition when {W} (b : bool) (c : M W unit) : M W unit :=
  if b then c else mret tt.

(** *** gc_monitor.py *)
Module GarbageCollectionMonitor.
(** **** Snapshots and the leak heuristic *)

(** One entry of ['top_allocations']: keys ['file'], ['size'], ['count']. *)
Record allocation : Type := Allocation {
  a_file : string;
  a_size : Z;
  a_count : Z
}.

(** The dict built by [_take_snapshot]. *)
Record snapshot : Type := Snapshot {
  timestamp : Q;
  total_size : Z;
  total_count : Z;
  top_allocations : list allocation
}.

(** Entries of ['increased_allocations'] and ['decreased_allocations']. *)
Record change : Type := Change {
  c_file : string;
  c_size_diff : Z;
  c_old_size : Z;
  c_new_size : Z
}.

Record comparison : Type := Comparison {
  time_diff : Q;
  size_diff : Z;
  count_diff : Z;
  new_allocations : list allocation;
  increased_allocations : list change;
  decreased_allocations : list change
}.

(** A Python dict keyed by file name: insertion ordered, a repeated key
    keeps its place and takes the later value. *)
Fixpoint dict_set (k : string) (v : allocation)
    (d : list (string * allocation)) : list (string * allocation) :=
  match d with
  | [] => [(k, v)]
  | (k', v') :: d' =>
      if String.eqb k k' then (k, v) :: d' else (k', v') :: dict_set k v d'
  end.

Fixpoint dict_get (k : string) (d : list (string * allocation))
  : option allocation :=
  match d with
  | [] => None
  | (k', v') :: d' => if String.eqb k k' then Some v' else dict_get k d'
  end.

Definition by_file (allocs : list allocation) : list (string * allocation) :=
  fold_left (fun d a => dict_set (a_file a) a d) allocs [].

Definition compare_snapshots (snapshot1 snapshot2 : snapshot) : comparison :=
  let alloc1 := by_file (top_allocations snapshot1) in
  let alloc2 := by_file (top_allocations snapshot2) in
  {| time_diff := timestamp snapshot2 - timestamp snapshot1;
     size_diff := total_size snapshot2 - total_size snapshot1;
     count_diff := total_count snapshot2 - total_count snapshot1;
     new_allocations :=
       flat_map (fun '(file, alloc) =>
         match dict_get file alloc1 with
         | None => [alloc]
         | Some _ => []
         end) alloc2;
     increased_allocations :=
       flat_map (fun '(file, alloc) =>
         match dict_get file alloc1 with
         | Some old =>
             if (a_size old <? a_size alloc)%Z
             then [Change file (a_size alloc - a_size old)
                          (a_size old) (a_size alloc)]
             else []
         | None => []
         end) alloc2;
     decreased_allocations :=
       flat_map (fun '(file, alloc) =>
         match dict_get file alloc1 with
         | Some old =>
             if (a_size alloc <? a_size old)%Z
             then [Change file (a_size old - a_size alloc)
                          (a_size old) (a_size alloc)]
             else []
         | None => []
         end) alloc2 |}.

(** An entry of the list returned by [detect_memory_leaks]. *)
Record leak : Type := Leak {
  start_time : Q;
  end_time : Q;
  start_size : Z;
  end_size : Z;
  growth_rate : Q;
  l_size_diff : Z;
  l_new_allocations : list allocation;
  l_increased_allocations : list change
}.

(** [a / b] on two ints. *)
Definition true_div (a b : Z) : Q := inject_Z a / inject_Z b.

(** [self._snapshots[-min_snapshots:]]. *)
Definition recent (min_snapshots : Z) (snaps : list snapshot)
  : list snapshot :=
  if (0 <? min_snapshots)%Z
  then drop (length snaps - Z.to_nat min_snapshots) snaps
  else drop (Z.to_nat (- min_snapshots)) snaps.

(** The inner [for j in range(2, len(recent_snapshots))] loop: [true] when
    it ends without clearing [consistent_growth]. *)
Definition consistent_growth (recent_snapshots : list snapshot) (i : nat)
    (curr : snapshot) (growth_threshold : Q) : bool :=
  forallb (fun j =>
    if (j <=? i)%nat then
      match recent_snapshots !! (i - j)%nat with
      | Some earlier =>
          if (0 <? total_size earlier)%Z then
            negb (Qle_bool (true_div (total_size curr) (total_size earlier))
                           growth_threshold)
          else true
      | None => true
      end
    else true) (seq 2 (length recent_snapshots - 2)).

(** The body of the outer loop for one [i]. *)
Definition leak_at (recent_snapshots : list snapshot)
    (growth_threshold : Q) (i : nat) : list leak :=
  match recent_snapshots !! (i - 1)%nat, recent_snapshots !! i with
  | Some prev, Some curr =>
      if (0 <? total_size prev)%Z then
        let rate := true_div (total_size curr) (total_size prev) in
        if Qgtb rate growth_threshold
           && consistent_growth recent_snapshots i curr growth_threshold
        then
          let cmp := compare_snapshots prev curr in
          [Leak (timestamp prev) (timestamp curr)
                (total_size prev) (total_size curr) rate
                (size_diff cmp) (new_allocations cmp)
                (increased_allocations cmp)]
        else []
      else []
  | _, _ => []
  end.

Definition detect_memory_leaks (snaps : list snapshot)
    (min_snapshots : Z) (growth_threshold : Q) : list leak :=
  if (Z.of_nat (length snaps) <? min_snapshots)%Z then []
  else
    let recent_snapshots := recent min_snapshots snaps in
    flat_map (leak_at recent_snapshots growth_threshold)
             (seq 1 (length recent_snapshots - 1)).

(** **** The object and its shutdown *)

(** Values of the instance attributes that the modelled methods use. *)
Inductive value : Type :=
  | VNone
  | VBool (b : bool)
  | VThread (alive : bool).

(** Methods of the class that the modelled code looks up on [self]. *)
Inductive method : Type :=
  | start_snapshot_thread_m
  | stop_snapshot_thread_m
  | register_gc_callbacks_m
  | unregister_gc_callbacks_m.

(** The class namespace: the name under which each [def] is bound. *)
Definition class_namespace : gmap string method :=
  list_to_map [("_start_snapshot_thread", start_snapshot_thread_m);
               ("_stop_snapshot_thread", stop_snapshot_thread_m);
               ("_register_gc_callbacks", register_gc_callbacks_m);
               ("_unregister_gc_callbacks", unregister_gc_callbacks_m)].

(** The interpreter state the monitor touches: [gc.callbacks] and whether
    [tracemalloc] is tracing. *)
Record process : Type := Process {
  gc_callbacks : list string;
  tracing : bool
}.

(** The instance: its attribute dictionary for flags and the thread, and
    the two list attributes. *)
Record monitor : Type := Monitor {
  __dict__ : gmap string value;
  _original_gc_callbacks : list string;
  _snapshots : list snapshot
}.

Record world : Type := World {
  self : monitor;
  proc : process;
  log : list string
}.

Definition setattr (name : string) (v : value) : M world unit :=
  modify (fun w =>
    World (Monitor (<[name := v]> (__dict__ (self w)))
                   (_original_gc_callbacks (self w)) (_snapshots (self w)))
          (proc w) (log w)).

Definition logger (msg : string) : M world unit :=
  modify (fun w => World (self w) (proc w) (log w ++ [msg])).

(** What [self.name] evaluates to. A function of the class is found only
    when the instance dictionary has no entry of that name. *)
Inductive attribute : Type :=
  | Data (v : value)
  | BoundMethod (m : method).

Definition getattr (obj : monitor) (name : string) : option attribute :=
  match __dict__ obj !! name with
  | Some v => Some (Data v)
  | None => BoundMethod <$> (class_namespace !! name)
  end.

Definition truthy (a : option attribute) : bool :=
  match a with
  | Some (Data (VBool b)) => b
  | Some (Data (VThread _)) => true
  | Some (BoundMethod _) => true
  | _ => false
  end.

Definition thread_alive (a : option attribute) : bool :=
  match a with
  | Some (Data (VThread alive)) => alive
  | _ => false
  end.

Definition gc_callback : string := "GarbageCollectionMonitor._gc_callback".

Definition _start_snapshot_thread : M world unit :=
  t ← gets (fun w => getattr (self w) "_snapshot_thread");
  if truthy t && thread_alive t then
    logger "Snapshot thread is already running"
  else
    (setattr "_stop_snapshot_thread" (VBool false);;
     setattr "_snapshot_thread" (VThread true);;
     logger "Snapshot thread started").

Definition _stop_snapshot_thread : M world unit :=
  t ← gets (fun w => getattr (self w) "_snapshot_thread");
  if negb (truthy t) || negb (thread_alive t) then
    logger "Snapshot thread is not running"
  else
    (setattr "_stop_snapshot_thread" (VBool true);;
     setattr "_snapshot_thread" (VThread false);;
     logger "Snapshot thread stopped").

Definition _register_gc_callbacks : M world unit :=
  modify (fun w =>
    World (Monitor (__dict__ (self w)) (gc_callbacks (proc w))
                   (_snapshots (self w)))
          (Process (gc_callbacks (proc w) ++ [gc_callback])
                   (tracing (proc w)))
          (log w));;
  logger "GC callbacks registered".

Definition _unregister_gc_callbacks : M world unit :=
  modify (fun w =>
    World (self w)
          (Process (_original_gc_callbacks (self w)) (tracing (proc w)))
          (log w));;
  logger "GC callbacks unregistered".

Definition body (m : method) : M world unit :=
  match m with
  | start_snapshot_thread_m => _start_snapshot_thread
  | stop_snapshot_thread_m => _stop_snapshot_thread
  | register_gc_callbacks_m => _register_gc_callbacks
  | unregister_gc_callbacks_m => _unregister_gc_callbacks
  end.

(** [self.name()]: look the attribute up, then call what was found. *)
Definition call (name : string) : M world unit :=
  a ← gets (fun w => getattr (self w) name);
  match a with
  | Some (BoundMethod m) => body m
  | Some (Data _) => raise TypeError
  | None => raise AttributeError
  end.

Definition set_tracing (b : bool) : M world unit :=
  modify (fun w =>
    World (self w) (Process (gc_callbacks (proc w)) b) (log w)).

Definition __init__ (enable_tracemalloc enable_gc_callbacks : bool)
  : M world unit :=
  modify (fun w =>
    World (Monitor
             (list_to_map
                [("_enable_tracemalloc", VBool enable_tracemalloc);
                 ("_enable_gc_callbacks", VBool enable_gc_callbacks);
                 ("_snapshot_thread", VNone);
                 ("_stop_snapshot_thread", VBool false)])
             [] [])
          (proc w) (log w));;
  e ← gets (fun w => getattr (self w) "_enable_tracemalloc");
  when (truthy e) (set_tracing true);;
  c ← gets (fun w => getattr (self w) "_enable_gc_callbacks");
  when (truthy c) (call "_register_gc_callbacks");;
  call "_start_snapshot_thread";;
  logger "GarbageCollectionMonitor initialized".

Definition shutdown : M world unit :=
  call "_stop_snapshot_thread";;
  c ← gets (fun w => getattr (self w) "_enable_gc_callbacks");
  when (truthy c) (call "_unregister_gc_callbacks");;
  e ← gets (fun w => getattr (self w) "_enable_tracemalloc");
  when (truthy e) (set_tracing false);;
  logger "GarbageCollectionMonitor shutdown".

(** A fresh interpreter and a monitor constructed in it. *)
Definition blank : world := World (Monitor ∅ [] []) (Process [] false) [].

Definition constructed (enable_tracemalloc enable_gc_callbacks : bool)
  : result unit * world :=
  __init__ enable_tracemalloc enable_gc_callbacks blank.

(** **** The snapshot ring and the collector events *)

Definition sum_sizes (top_stats : list allocation) : Z :=
  fold_right (fun stat acc => (a_size stat + acc)%Z) 0%Z top_stats.

Definition sum_counts (top_stats : list allocation) : Z :=
  fold_right (fun stat acc => (a_count stat + acc)%Z) 0%Z top_stats.

(** [_take_snapshot]. [top_stats] is what
    [tracemalloc.take_snapshot().statistics('lineno')] delivers, or the
    exception it raises, which is logged; [now] is [time.time()]. *)
Definition _take_snapshot (enable_tracemalloc : bool) (max_snapshots : Z)
    (now : Q) (top_stats : result (list allocation)) (snaps : list snapshot)
  : list snapshot :=
  if negb enable_tracemalloc then snaps
  else
    match top_stats with
    | Raise _ => snaps
    | Return top_stats =>
        let snapshot_data :=
          Snapshot now (sum_sizes top_stats) (sum_counts top_stats)
                   (take 10 top_stats) in
        let snaps := snaps ++ [snapshot_data] in
        if (max_snapshots <? Z.of_nat (length snaps))%Z then tail snaps
        else snaps
    end.

(** The [info] dict handed to a GC callback: each key is present or not. *)
Record gc_info : Type := GcInfo {
  i_generation : option Z;
  i_collected : option Z;
  i_uncollectable : option Z;
  i_start_time : option Q;
  i_memory_before : option Z
}.

Record GCStats : Type := {
  g_timestamp : Q;
  g_generation : Z;
  collected_objects : Z;
  uncollectable_objects : Z;
  gc_duration : Q;
  memory_before : Z;
  memory_after : Z;
  memory_freed : Z;
  g_top_allocations : list allocation
}.

(** [self._stats] *)
Record gc_counters : Type := GcCounters {
  total_gc_calls : Z;
  total_objects_collected : Z;
  total_memory_freed : Z;
  avg_gc_duration : Q;
  last_gc_time : Q
}.

Record collector : Type := Collector {
  _gc_stats : list GCStats;
  _stats : gc_counters
}.

Definition new_collector : collector :=
  Collector [] (GcCounters 0 0 0 0 0).

(** [_gc_callback(phase, info)]. [memory] is the traced (or resident)
    memory read in the call, [now1] and [now2] are the first and the second
    reading of [time.time()] in the 'stop' branch, [top_stats] is the
    allocation statistics taken when tracemalloc is enabled ([None] when it
    is not, or when taking them raised). Returns the [info] dict as the
    call leaves it. *)
Definition _gc_callback (phase : string) (info : gc_info) (now1 now2 : Q)
    (memory : Z) (top_stats : option (list allocation)) (self : collector)
  : gc_info * collector :=
  if String.eqb phase "start" then
    (GcInfo (i_generation info) (i_collected info) (i_uncollectable info)
            (Some now1) (Some memory), self)
  else if String.eqb phase "stop" then
    let duration := (now1 - default 0 (i_start_time info))%Q in
    let memory_after := memory in
    let memory_before := default memory_after (i_memory_before info) in
    let memory_freed := Z.max 0 (memory_before - memory_after) in
    let generation := default 0%Z (i_generation info) in
    let gc_stats :=
      {| g_timestamp := now2;
         g_generation := generation;
         collected_objects := default 0%Z (i_collected info);
         uncollectable_objects := default 0%Z (i_uncollectable info);
         gc_duration := duration;
         memory_before := memory_before;
         memory_after := memory_after;
         memory_freed := memory_freed;
         g_top_allocations :=
           match top_stats with
           | Some top_stats => take 5 top_stats
           | None => []
           end |} in
    let stats_list := _gc_stats self ++ [gc_stats] in
    let stats_list :=
      if (100 <? Z.of_nat (length stats_list))%Z then tail stats_list
      else stats_list in
    let c := _stats self in
    let calls := (total_gc_calls c + 1)%Z in
    (info,
     Collector stats_list
       (GcCounters calls
          (total_objects_collected c + collected_objects gc_stats)
          (total_memory_freed c + memory_freed)
          (if (0 <? calls)%Z then
             ((avg_gc_duration c * inject_Z (calls - 1) + duration)
              / inject_Z calls)%Q
           else avg_gc_duration c)
          now2))
  else (info, self).

End GarbageCollectionMonitor.

(** *** memory_alert_manager.py *)
Module MemoryAlertManager.
Import MemoryMonitor.

Global Instance MemoryAlertLevel_eq_dec : EqDecision MemoryAlertLevel.
Proof. solve_decision. Defined.

Definition of_value (z : Z) : MemoryAlertLevel :=
  if (z =? 1)%Z then WARNING else if (z =? 2)%Z then CRITICAL else NORMAL.

Global Instance MemoryAlertLevel_countable : Countable MemoryAlertLevel :=
  inj_countable' value of_value (fun l => match l with
                                          | NORMAL | WARNING | CRITICAL => eq_refl
                                          end).

Inductive AlertAction : Type := LOG | EMAIL | WEBHOOK | CUSTOM.

(** [custom_callback] is [None] or a callable, given by what a call does. *)
Record AlertConfig : Type := {
  action : AlertAction;
  enabled : bool;
  cooldown_period : Q;
  recipients : option (list string);
  webhook_url : option string;
  custom_callback : option (MemoryStats -> MemoryAlertLevel -> result unit)
}.

Record state : Type := State {
  _alert_configs : gmap MemoryAlertLevel (list AlertConfig);
  _last_alert_times : gmap MemoryAlertLevel Q
}.

Definition __init__ : state :=
  State (<[WARNING := []]> (<[CRITICAL := []]> ∅))
        (<[WARNING := 0%Q]> (<[CRITICAL := 0%Q]> ∅)).

Definition add_alert_config (alert_level : MemoryAlertLevel)
    (alert_config : AlertConfig) (self : state) : result unit * state :=
  match _alert_configs self !! alert_level with
  | None => (Raise ValueError, self)
  | Some configs =>
      (Return tt,
       State (<[alert_level := configs ++ [alert_config]]> (_alert_configs self))
             (_last_alert_times self))
  end.

(** The [try] body of the loop up to the timestamp update. The e-mail and
    webhook senders catch their own exceptions; [LOG] does nothing. *)
Definition execute (stats : MemoryStats) (alert_level : MemoryAlertLevel)
    (config : AlertConfig) : result unit :=
  match action config with
  | LOG | EMAIL | WEBHOOK => Return tt
  | CUSTOM =>
      match custom_callback config with
      | Some callback => callback stats alert_level
      | None => Return tt
      end
  end.

Definition set_last (self : state) (alert_level : MemoryAlertLevel)
    (current_time : Q) : state :=
  State (_alert_configs self)
        (<[alert_level := current_time]> (_last_alert_times self)).

(** The [for config in alert_configs] loop. [i] is the position of the
    first remaining rule; the result lists the positions of the rules whose
    action was executed, in order. [last_alert_time] was read before the
    loop and is not read again. *)
Fixpoint rules_loop (current_time last_alert_time : Q) (stats : MemoryStats)
    (alert_level : MemoryAlertLevel) (configs : list AlertConfig) (i : nat)
    (dispatched : list nat) (self : state) : result (list nat) * state :=
  match configs with
  | [] => (Return dispatched, self)
  | config :: rest =>
      if negb (enabled config) then
        rules_loop current_time last_alert_time stats alert_level rest (S i)
                   dispatched self
      else if Qltb (current_time - last_alert_time) (cooldown_period config) then
        rules_loop current_time last_alert_time stats alert_level rest (S i)
                   dispatched self
      else
        match execute stats alert_level config with
        | Return _ =>
            rules_loop current_time last_alert_time stats alert_level rest (S i)
                       (dispatched ++ [i])
                       (set_last self alert_level current_time)
        | Raise e =>
            if is_Exception e then
              rules_loop current_time last_alert_time stats alert_level rest
                         (S i) (dispatched ++ [i]) self
            else (Raise e, self)
        end
  end.

(** [current_time] is what [time.time()] returns inside the call. *)
Definition _handle_alert (current_time : Q) (stats : MemoryStats)
    (alert_level : MemoryAlertLevel) (self : state)
  : result (list nat) * state :=
  match _last_alert_times self !! alert_level with
  | None => (Raise KeyError, self)
  | Some last_alert_time =>
      match _alert_configs self !! alert_level with
      | None => (Raise KeyError, self)
      | Some alert_configs =>
          rules_loop current_time last_alert_time stats alert_level
                     alert_configs 0 [] self
      end
  end.
End MemoryAlertManager.

(** *** config_manager.py *)
Module ConfigurationManager.

(** A configuration value that is not a dict. *)
Inductive atom : Type :=
  | ANone
  | ABool (b : bool)
  | ANum (q : Q)
  | AStr (s : string).

(** A configuration as the JSON or YAML loader builds it: a tree of dicts
    with string keys. *)
#[warnings="-register-all"]
Inductive config_value : Type :=
  | Atom (a : atom)
  | Dict (d : gmap string config_value).

(** [key.split('.')] *)
Fixpoint split (key : string) : list string :=
  match key with
  | EmptyString => [EmptyString]
  | String c rest =>
      if String.eqb (String c EmptyString) "." then EmptyString :: split rest
      else
        match split rest with
        | [] => [String c EmptyString]
        | k :: keys => String c k :: keys
        end
  end.

(** The loop of [get]: [None] stands for [return default]. *)
Fixpoint get_loop (keys : list string) (value : config_value)
  : option config_value :=
  match keys with
  | [] => Some value
  | k :: keys =>
      match value with
      | Dict d =>
          match d !! k with
          | Some v => get_loop keys v
          | None => None
          end
      | Atom _ => None
      end
  end.

Definition get (key : string) (default : config_value) (_config : config_value)
  : config_value :=
  match get_loop (split key) _config with
  | Some v => v
  | None => default
  end.

(** The loop of [set] over [keys[:-1]], then the two statements on
    [keys[-1]]. [config] is the object the loop variable is bound to; the
    second component is that object after the call. On a value that is not
    a dict, [k not in config], [config[k] = {}] or [config[k]] raises
    [TypeError], and [config.get] raises [AttributeError]. *)
Fixpoint set_loop (keys : list string) (last : string) (v : config_value)
    (config : config_value) : result (option config_value) * config_value :=
  match keys with
  | [] =>
      match config with
      | Dict d => (Return (d !! last), Dict (<[last := v]> d))
      | Atom _ => (Raise AttributeError, config)
      end
  | k :: keys =>
      match config with
      | Atom _ => (Raise TypeError, config)
      | Dict d =>
          let d1 := match d !! k with
                    | None => <[k := Dict ∅]> d
                    | Some _ => d
                    end in
          match d1 !! k with
          | Some child =>
              let '(r, child') := set_loop keys last v child in
              (r, Dict (<[k := child']> d1))
          | None => (Raise KeyError, Dict d1)
          end
      end
  end.

(** [_notify_config_change_callbacks]: a callback is given by what a call
    on the old and the new value of the key does. *)
Fixpoint _notify_config_change_callbacks
    (callbacks : list (string -> option config_value -> config_value ->
                       result unit))
    (key : string) (old_value : option config_value) (v : config_value)
  : result unit :=
  match callbacks with
  | [] => Return tt
  | callback :: rest =>
      match callback key old_value v with
      | Return _ => _notify_config_change_callbacks rest key old_value v
      | Raise e =>
          if is_Exception e
          then _notify_config_change_callbacks rest key old_value v
          else Raise e
      end
  end.

(** [set] with [persist=False]. *)
Definition set
    (_config_change_callbacks :
       list (string -> option config_value -> config_value -> result unit))
    (key : string) (v : config_value) (_config : config_value)
  : result unit * config_value :=
  let keys := split key in
  match set_loop (removelast keys) (List.last keys EmptyString) v _config with
  | (Return old_value, config') =>
      (_notify_config_change_callbacks _config_change_callbacks key old_value v,
       config')
  | (Raise e, config') => (Raise e, config')
  end.
End ConfigurationManager.

(** *** memory_manager.py *)
Module MemoryManager.

(** [MemoryLogger] as far as [start] and [stop] go. *)
Record logger_state : Type := LoggerState {
  _log_thread : option MemoryMonitor.thread;
  _stop_logging : bool
}.

Definition logger_start (l : logger_state) : list string * logger_state :=
  if MemoryMonitor.is_alive (_log_thread l) then
    (["Memory logging thread is already running"], l)
  else (["Memory logging thread started"],
        LoggerState (Some (MemoryMonitor.Thread true)) false).

(** [joined]: the logging thread ended within the two seconds of [join]. *)
Definition logger_stop (joined : bool) (l : logger_state)
  : list string * logger_state :=
  if negb (MemoryMonitor.is_alive (_log_thread l)) then
    (["Memory logging thread is not running"], l)
  else (["Memory logging thread stopped"],
        LoggerState (Some (MemoryMonitor.Thread (negb joined))) true).

(** The manager with the components it owns, the interpreter state and the
    messages logged so far. *)
Record world : Type := World {
  _memory_monitor : MemoryMonitor.state;
  _memory_logger : logger_state;
  _gc_monitor : GarbageCollectionMonitor.monitor;
  proc : GarbageCollectionMonitor.process;
  log : list string
}.

Definition logger (msg : string) : M world unit :=
  modify (fun w => World (_memory_monitor w) (_memory_logger w)
                         (_gc_monitor w) (proc w) (log w ++ [msg])).

Definition on_memory_monitor
    (f : MemoryMonitor.state -> list string * MemoryMonitor.state)
  : M world unit :=
  modify (fun w =>
    let '(msgs, m) := f (_memory_monitor w) in
    World m (_memory_logger w) (_gc_monitor w) (proc w) (log w ++ msgs)).

Definition on_memory_logger
    (f : logger_state -> list string * logger_state) : M world unit :=
  modify (fun w =>
    let '(msgs, l) := f (_memory_logger w) in
    World (_memory_monitor w) l (_gc_monitor w) (proc w) (log w ++ msgs)).

(** Run a method of the collector monitor on the manager's component. *)
Definition on_gc_monitor (c : M GarbageCollectionMonitor.world unit)
  : M world unit :=
  fun w =>
    let '(r, g) := c (GarbageCollectionMonitor.World
                        (_gc_monitor w) (proc w) (log w)) in
    (r, World (_memory_monitor w) (_memory_logger w)
              (GarbageCollectionMonitor.self g)
              (GarbageCollectionMonitor.proc g)
              (GarbageCollectionMonitor.log g)).

(** [__init__] with the configuration values it reads passed in. *)
Definition __init__ (warning_threshold critical_threshold : Q)
    (enable_tracemalloc : bool) : M world unit :=
  modify (fun w =>
    World (MemoryMonitor.__init__ warning_threshold critical_threshold)
          (LoggerState None false) (_gc_monitor w) (proc w) (log w));;
  on_gc_monitor (GarbageCollectionMonitor.__init__ enable_tracemalloc true);;
  on_memory_monitor MemoryMonitor.start;;
  on_memory_logger logger_start;;
  logger "MemoryManager initialized".

(** [monitor_joined] and [logger_joined]: the two threads ended within the
    timeouts of their [join]s. *)
Definition shutdown (monitor_joined logger_joined : bool) : M world unit :=
  logger "Shutting down MemoryManager...";;
  on_memory_monitor (MemoryMonitor.stop monitor_joined);;
  on_memory_logger (logger_stop logger_joined);;
  on_gc_monitor GarbageCollectionMonitor.shutdown;;
  logger "MemoryManager shutdown complete".

Definition blank : world :=
  World (MemoryMonitor.__init__ 0 0) (LoggerState None false)
        (GarbageCollectionMonitor.Monitor ∅ [] [])
        (GarbageCollectionMonitor.Process [] false) [].

(** [set_memory_thresholds] on the two objects it touches: the monitor and
    the [_config] of the configuration manager, whose change callbacks are
    [callbacks]. *)
Definition set_memory_thresholds
    (callbacks : list (string -> option ConfigurationManager.config_value ->
                       ConfigurationManager.config_value -> result unit))
    (warning_threshold critical_threshold : option Q)
    (monitor : MemoryMonitor.state)
    (config : ConfigurationManager.config_value)
  : result unit * (MemoryMonitor.state * ConfigurationManager.config_value) :=
  match MemoryMonitor.set_thresholds warning_threshold critical_threshold
                                     monitor with
  | (Raise e, monitor') => (Raise e, (monitor', config))
  | (Return _, monitor') =>
      let '(r1, config1) :=
        match warning_threshold with
        | Some w =>
            ConfigurationManager.set callbacks "memory.warning_threshold"
              (ConfigurationManager.Atom (ConfigurationManager.ANum w)) config
        | None => (Return tt, config)
        end in
      match r1 with
      | Raise e => (Raise e, (monitor', config1))
      | Return _ =>
          let '(r2, config2) :=
            match critical_threshold with
            | Some c =>
                ConfigurationManager.set callbacks "memory.critical_threshold"
                  (ConfigurationManager.Atom (ConfigurationManager.ANum c))
                  config1
            | None => (Return tt, config1)
            end in
          (r2, (monitor', config2))
      end
  end.
End MemoryManager.

(** *** heapq, the list algorithms behind [queue.PriorityQueue] *)
Module heapq.
Section WithOrder.
Context {A : Type} (lt : A -> A -> bool).

(** The [while pos > startpos] loop of [_siftdown]. Each round moves to the
    parent position, so [pos] rounds are enough. *)
Fixpoint siftdown_loop (fuel : nat) (heap : list A) (newitem : A)
    (startpos pos : nat) : list A :=
  match fuel with
  | O => <[pos := newitem]> heap
  | S fuel' =>
      if (startpos <? pos)%nat then
        let parentpos := ((pos - 1) / 2)%nat in
        match heap !! parentpos with
        | Some parent =>
            if lt newitem parent then
              siftdown_loop fuel' (<[pos := parent]> heap) newitem
                            startpos parentpos
            else <[pos := newitem]> heap
        | None => <[pos := newitem]> heap
        end
      else <[pos := newitem]> heap
  end.

Definition _siftdown (heap : list A) (startpos pos : nat) : list A :=
  match heap !! pos with
  | Some newitem => siftdown_loop pos heap newitem startpos pos
  | None => heap
  end.

(** The position of the smaller child, as chosen in [_siftup]. *)
Definition smaller_child (heap : list A) (childpos : nat) : nat :=
  let rightpos := (childpos + 1)%nat in
  match heap !! childpos, heap !! rightpos with
  | Some l, Some r => if negb (lt l r) then rightpos else childpos
  | _, _ => childpos
  end.

(** The [while childpos < endpos] loop of [_siftup]: the smaller child moves
    up until a leaf position is reached. Returns the list and that
    position. Each round moves to a child, so [len(heap)] rounds are
    enough. *)
Fixpoint siftup_loop (fuel : nat) (heap : list A) (pos : nat)
  : list A * nat :=
  match fuel with
  | O => (heap, pos)
  | S fuel' =>
      let childpos := (2 * pos + 1)%nat in
      if (childpos <? length heap)%nat then
        let childpos := smaller_child heap childpos in
        match heap !! childpos with
        | Some child => siftup_loop fuel' (<[pos := child]> heap) childpos
        | None => (heap, pos)
        end
      else (heap, pos)
  end.

Definition _siftup (heap : list A) (pos : nat) : list A :=
  match heap !! pos with
  | Some newitem =>
      let '(heap', pos') := siftup_loop (length heap) heap pos in
      _siftdown (<[pos' := newitem]> heap') pos pos'
  | None => heap
  end.

Definition heappush (heap : list A) (item : A) : list A :=
  _siftdown (heap ++ [item]) 0 (length heap).

(** [None] stands for the [IndexError] on an empty list. *)
Definition heappop (heap : list A) : option (A * list A) :=
  match last heap with
  | None => None
  | Some lastelt =>
      let heap := removelast heap in
      match heap with
      | [] => Some (lastelt, [])
      | returnitem :: _ =>
          Some (returnitem, _siftup (<[0%nat := lastelt]> heap) 0)
      end
  end.
End WithOrder.
End heapq.

(** *** thread_pool.py *)

(** The pool while it runs, with each call of [submit], each round of the
    dispatcher and each [_execute_task] as one step. The steps inside a
    call, one lock section at a time, and [shutdown] are in
    [ThreadPoolThreads] below. *)
Module ThreadPool.

Inductive TaskPriority : Type := LOW | MEDIUM | HIGH | CRITICAL.

Definition value (p : TaskPriority) : Z :=
  match p with LOW => 0 | MEDIUM => 1 | HIGH => 2 | CRITICAL => 3 end.

(** [func] is what calling [task.func] on the task's arguments does; the
    future plays no part in the counters. *)
Record Task : Type := {
  id : nat;
  func : result unit;
  priority : TaskPriority;
  created_at : Q
}.

(** [Task.__lt__] *)
Definition __lt__ (self other : Task) : bool :=
  if (value (priority self) =? value (priority other))%Z then
    Qltb (created_at self) (created_at other)
  else (value (priority other) <? value (priority self))%Z.

(** [self._stats] *)
Record stats : Type := Stats {
  total_tasks : Z;
  completed_tasks : Z;
  failed_tasks : Z;
  active_tasks : Z
}.

(** [_task_queue] is the heap list of the priority queue; [_executor] holds
    the work items handed to the executor and not yet finished. *)
Record state : Type := State {
  _shutdown : bool;
  _task_queue : list Task;
  _executor : list Task;
  _stats : stats
}.

Definition init : state := State false [] [] (Stats 0 0 0 0).

(** [PriorityQueue.put] and [PriorityQueue.get]. *)
Definition put (queue : list Task) (item : Task) : list Task :=
  heapq.heappush __lt__ queue item.

Definition get (queue : list Task) : option (Task * list Task) :=
  heapq.heappop __lt__ queue.

(** [submit]; [task_id] and [now] are what [uuid.uuid4()] and [time.time()]
    return. *)
Definition submit (func : result unit) (priority : TaskPriority)
    (task_id : nat) (now : Q) (s : state) : result unit * state :=
  if _shutdown s then (Raise RuntimeError, s)
  else
    let task := Build_Task task_id func priority now in
    let st := _stats s in
    (Return tt,
     State (_shutdown s) (put (_task_queue s) task) (_executor s)
           (Stats (total_tasks st + 1) (completed_tasks st)
                  (failed_tasks st) (active_tasks st))).

(** One round of the loop of [_dispatch_tasks]: returns the task handed to
    the executor, if any. On an empty queue [get] times out with
    [queue.Empty] and the round changes nothing. *)
Definition _dispatch_tasks (s : state) : option Task * state :=
  if _shutdown s then (None, s)
  else
    match get (_task_queue s) with
    | None => (None, s)
    | Some (task, queue) =>
        let st := _stats s in
        (Some task,
         State (_shutdown s) queue (_executor s ++ [task])
               (Stats (total_tasks st) (completed_tasks st)
                      (failed_tasks st) (active_tasks st + 1)))
    end.

(** The effect of [_execute_task] on the counters: the [try] body or the
    [except Exception] handler, then the [finally] block. *)
Definition _execute_task (task : Task) (st : stats) : stats :=
  let st1 :=
    match func task with
    | Return _ =>
        Stats (total_tasks st) (completed_tasks st + 1)
              (failed_tasks st) (active_tasks st)
    | Raise e =>
        if is_Exception e then
          Stats (total_tasks st) (completed_tasks st)
                (failed_tasks st + 1) (active_tasks st)
        else st
    end in
  Stats (total_tasks st1) (completed_tasks st1) (failed_tasks st1)
        (active_tasks st1 - 1).

(** A worker runs the [k]-th outstanding work item to its end. *)
Definition finish (k : nat) (s : state) : state :=
  match _executor s !! k with
  | None => s
  | Some task =>
      State (_shutdown s) (_task_queue s) (delete k (_executor s))
            (_execute_task task (_stats s))
  end.

(** Events of a running scheduler, in the order in which they happen. *)
Inductive op : Type :=
  | Submit (func : result unit) (priority : TaskPriority) (task_id : nat)
           (now : Q)
  | Dispatch
  | Finish (k : nat).

Definition step (s : state) (o : op) : state :=
  match o with
  | Submit func priority task_id now =>
      snd (submit func priority task_id now s)
  | Dispatch => snd (_dispatch_tasks s)
  | Finish k => finish k s
  end.

Definition run (ops : list op) (s : state) : state := fold_left step ops s.

(** The tasks handed over by [n] consecutive rounds of the dispatcher. *)
Fixpoint dispatched (n : nat) (s : state) : list Task :=
  match n with
  | O => []
  | S n' =>
      match _dispatch_tasks s with
      | (Some task, s') => task :: dispatched n' s'
      | (None, _) => []
      end
  end.

(** The order of the queue: [a] is drawn no later than [b]. *)
Definition before (a b : Task) : Prop :=
  (value (priority b) < value (priority a))%Z
  \/ (priority a = priority b /\ (created_at a <= created_at b)%Q).




(** Values of the dictionary that [get_stats] returns. *)
Inductive stat_value : Type :=
  | PInt (z : Z)
  | PBool (b : bool).

Definition get_stats (max_workers : Z) (s : state) : gmap string stat_value :=
  <["queue_size" := PInt (Z.of_nat (length (_task_queue s)))]>
  (<["max_workers" := PInt max_workers]>
  (<["is_shutdown" := PBool (_shutdown s)]>
  (<["total_tasks" := PInt (total_tasks (_stats s))]>
  (<["completed_tasks" := PInt (completed_tasks (_stats s))]>
  (<["failed_tasks" := PInt (failed_tasks (_stats s))]>
  (<["active_tasks" := PInt (active_tasks (_stats s))]> ∅)))))).
End ThreadPool.

(** *** thread_pool_monitor.py *)
Module ThreadPoolMonitor.
Import ThreadPool.

Inductive level : Type := INFO | WARNING | ERROR.

(** What a call of [_log_stats] leaves behind: the levels of the lines it
    logged and the dictionaries it passed to the custom callback. *)
Record output : Type := Output {
  lines : list level;
  passed : list (gmap string stat_value)
}.

(** [stats[key]] *)
Definition item (stats : gmap string stat_value) (key : string)
  : M output stat_value :=
  match stats !! key with
  | Some v => mret v
  | None => raise KeyError
  end.

(** The number a value stands for in a comparison; a bool is 0 or 1. *)
Definition number (v : stat_value) : Q :=
  match v with
  | PInt z => inject_Z z
  | PBool b => if b then 1 else 0
  end.

Definition logger (l : level) : M output unit :=
  modify (fun o => Output (lines o ++ [l]) (passed o)).

Definition call_callback
    (callback : gmap string stat_value -> result unit)
    (stats : gmap string stat_value) : M output unit :=
  fun o => (callback stats, Output (lines o) (passed o ++ [stats])).

(** [try: body except Exception: handler] *)
Definition try_except {A} (body : M output A) (handler : M output A)
  : M output A :=
  fun o =>
    match body o with
    | (Raise e, o') => if is_Exception e then handler o' else (Raise e, o')
    | r => r
    end.

(** The [try] body of [_log_stats], on the dictionary that [get_stats]
    returned. The f-string reads its keys from left to right. *)
Definition log_stats_body (stats : gmap string stat_value)
    (_custom_log_callback : option (gmap string stat_value -> result unit))
  : M output unit :=
  item stats "active_tasks";;
  item stats "queue_size";;
  item stats "max_queue_size";;
  item stats "completed_tasks";;
  item stats "failed_tasks";;
  item stats "max_workers";;
  item stats "is_shutdown";;
  logger INFO;;
  queue_size ← item stats "queue_size";
  max_queue_size ← item stats "max_queue_size";
  when (Qgtb (number queue_size) (number max_queue_size * (8 # 10)))
       (item stats "queue_size";; item stats "max_queue_size";;
        logger WARNING);;
  failed_tasks ← item stats "failed_tasks";
  (if Qgtb (number failed_tasks) 0 then
     total_tasks ← item stats "total_tasks";
     if Qgtb (number total_tasks) 0 then
       failed ← item stats "failed_tasks";
       total ← item stats "total_tasks";
       when (Qgtb (number failed / number total) (1 # 10))
            (item stats "failed_tasks";; item stats "total_tasks";;
             logger WARNING)
     else mret tt
   else mret tt);;
  match _custom_log_callback with
  | Some callback => call_callback callback stats
  | None => mret tt
  end.

Definition _log_stats (max_workers : Z) (thread_pool : ThreadPool.state)
    (_custom_log_callback : option (gmap string stat_value -> result unit))
  : M output unit :=
  try_except
    (log_stats_body (get_stats max_workers thread_pool) _custom_log_callback)
    (logger ERROR).
End ThreadPoolMonitor.

(** *** thread_pool.py, one lock section at a time *)

(** The threads of a pool that is neither resized nor purged, interleaved
    at the grain of the code: every step is one section under a lock or one
    call into the queue or the executor. The state holds, next to the
    attributes, where each thread is between two such sections. *)
Module ThreadPoolThreads.

(** Where the dispatcher thread is in [_dispatch_tasks]. *)
Inductive dispatcher : Type :=
  | AtWhile                            (* [while not self._is_shutdown()] *)
  | InGet                              (* [self._task_queue.get(timeout=0.1)] *)
  | Got (task : ThreadPool.Task)       (* next: [active_tasks += 1] *)
  | Counted (task : ThreadPool.Task)   (* next: [self._executor.submit] *)
  | Ended.

(** A call of [submit] that has passed its check of the flag. *)
Inductive submitting : Type :=
  | Checked (task : ThreadPool.Task)   (* next: [self._task_queue.put] *)
  | Queued (task : ThreadPool.Task).   (* next: [total_tasks += 1] *)

(** [executor_shutdown] is the executor's own flag; [work_items] are the
    tasks handed to the executor whose [_execute_task] has not yet counted
    them; [submits] are the calls of [submit] in progress; [finishing]
    counts the workers between the [try]/[except] and the [finally] of
    [_execute_task]; [passed] and [flagged] count the calls of [shutdown]
    that have passed the check and that have set the flag;
    [dispatch_errors] counts the errors logged by the dispatcher. *)
Record state : Type := State {
  _shutdown : bool;
  executor_shutdown : bool;
  _task_queue : list ThreadPool.Task;
  work_items : list ThreadPool.Task;
  _stats : ThreadPool.stats;
  _dispatcher_thread : dispatcher;
  submits : list submitting;
  finishing : nat;
  passed : nat;
  flagged : nat;
  dispatch_errors : nat
}.

(** [__init__]: the dispatcher thread is started. *)
Definition init : state :=
  State false false [] [] (ThreadPool.Stats 0 0 0 0) AtWhile [] 0 0 0 0.

(** [submit] up to the construction of the task. *)
Definition submit_check (func : result unit)
    (priority : ThreadPool.TaskPriority) (task_id : nat) (now : Q) (s : state)
  : result unit * state :=
  if _shutdown s then (Raise RuntimeError, s)
  else
    (Return tt,
     State (_shutdown s) (executor_shutdown s) (_task_queue s) (work_items s)
           (_stats s) (_dispatcher_thread s)
           (submits s ++ [Checked (ThreadPool.Build_Task task_id func priority now)])
           (finishing s) (passed s) (flagged s) (dispatch_errors s)).

(** [self._task_queue.put(task)] of the [k]-th call in progress. *)
Definition submit_put (k : nat) (s : state) : state :=
  match submits s !! k with
  | Some (Checked task) =>
      State (_shutdown s) (executor_shutdown s)
            (ThreadPool.put (_task_queue s) task) (work_items s)
            (_stats s) (_dispatcher_thread s)
            (<[k := Queued task]> (submits s))
            (finishing s) (passed s) (flagged s) (dispatch_errors s)
  | _ => s
  end.

(** [self._stats['total_tasks'] += 1] and the return of the [k]-th call. *)
Definition submit_count (k : nat) (s : state) : state :=
  match submits s !! k with
  | Some (Queued task) =>
      let st := _stats s in
      State (_shutdown s) (executor_shutdown s) (_task_queue s) (work_items s)
            (ThreadPool.Stats (ThreadPool.total_tasks st + 1)
               (ThreadPool.completed_tasks st) (ThreadPool.failed_tasks st)
               (ThreadPool.active_tasks st))
            (_dispatcher_thread s) (delete k (submits s))
            (finishing s) (passed s) (flagged s) (dispatch_errors s)
  | _ => s
  end.

Definition at_ (d : dispatcher) (s : state) : state :=
  State (_shutdown s) (executor_shutdown s) (_task_queue s) (work_items s)
        (_stats s) d (submits s) (finishing s) (passed s) (flagged s)
        (dispatch_errors s).

(** The next step of the dispatcher thread. In [get] it takes the first
    task of a non-empty queue; on an empty queue the step is the timeout,
    [queue.Empty] and [continue]. [self._executor.submit] raises
    [RuntimeError] once the executor is shut down; the handler logs it and
    the loop goes on. *)
Definition dispatch (s : state) : state :=
  match _dispatcher_thread s with
  | AtWhile => if _shutdown s then at_ Ended s else at_ InGet s
  | InGet =>
      match ThreadPool.get (_task_queue s) with
      | Some (task, queue) =>
          State (_shutdown s) (executor_shutdown s) queue (work_items s)
                (_stats s) (Got task) (submits s) (finishing s) (passed s)
                (flagged s) (dispatch_errors s)
      | None => at_ AtWhile s
      end
  | Got task =>
      let st := _stats s in
      State (_shutdown s) (executor_shutdown s) (_task_queue s) (work_items s)
            (ThreadPool.Stats (ThreadPool.total_tasks st)
               (ThreadPool.completed_tasks st) (ThreadPool.failed_tasks st)
               (ThreadPool.active_tasks st + 1))
            (Counted task) (submits s) (finishing s) (passed s) (flagged s)
            (dispatch_errors s)
  | Counted task =>
      if executor_shutdown s then
        State (_shutdown s) (executor_shutdown s) (_task_queue s)
              (work_items s) (_stats s) AtWhile (submits s) (finishing s)
              (passed s) (flagged s) (S (dispatch_errors s))
      else
        State (_shutdown s) (executor_shutdown s) (_task_queue s)
              (work_items s ++ [task]) (_stats s) AtWhile (submits s)
              (finishing s) (passed s) (flagged s) (dispatch_errors s)
  | Ended => s
  end.

(** A worker runs the [try] and [except] of [_execute_task] on the [k]-th
    work item: the function is called and [completed_tasks] or
    [failed_tasks] is counted, or neither when it raises past the handler. *)
Definition execute_try (k : nat) (s : state) : state :=
  match work_items s !! k with
  | Some task =>
      let st := _stats s in
      State (_shutdown s) (executor_shutdown s) (_task_queue s)
            (delete k (work_items s))
            (match ThreadPool.func task with
             | Return _ =>
                 ThreadPool.Stats (ThreadPool.total_tasks st)
                   (ThreadPool.completed_tasks st + 1)
                   (ThreadPool.failed_tasks st) (ThreadPool.active_tasks st)
             | Raise e =>
                 if is_Exception e then
                   ThreadPool.Stats (ThreadPool.total_tasks st)
                     (ThreadPool.completed_tasks st)
                     (ThreadPool.failed_tasks st + 1)
                     (ThreadPool.active_tasks st)
                 else st
             end)
            (_dispatcher_thread s) (submits s) (S (finishing s)) (passed s)
            (flagged s) (dispatch_errors s)
  | None => s
  end.

(** The [finally] of [_execute_task]: [active_tasks -= 1]. *)
Definition execute_finally (s : state) : state :=
  match finishing s with
  | S n =>
      let st := _stats s in
      State (_shutdown s) (executor_shutdown s) (_task_queue s) (work_items s)
            (ThreadPool.Stats (ThreadPool.total_tasks st)
               (ThreadPool.completed_tasks st) (ThreadPool.failed_tasks st)
               (ThreadPool.active_tasks st - 1))
            (_dispatcher_thread s) (submits s) n (passed s) (flagged s)
            (dispatch_errors s)
  | O => s
  end.

(** [shutdown]: the check, the assignment of the flag, and the shutdown of
    the executor by the call without [timeout]. *)
Definition shutdown_check (s : state) : state :=
  if _shutdown s then s
  else State (_shutdown s) (executor_shutdown s) (_task_queue s)
             (work_items s) (_stats s) (_dispatcher_thread s) (submits s)
             (finishing s) (S (passed s)) (flagged s) (dispatch_errors s).

Definition shutdown_set (s : state) : state :=
  match passed s with
  | S n =>
      State true (executor_shutdown s) (_task_queue s) (work_items s)
            (_stats s) (_dispatcher_thread s) (submits s) (finishing s) n
            (S (flagged s)) (dispatch_errors s)
  | O => s
  end.

Definition shutdown_executor (s : state) : state :=
  match flagged s with
  | S n =>
      State (_shutdown s) true (_task_queue s) (work_items s) (_stats s)
            (_dispatcher_thread s) (submits s) (finishing s) (passed s) n
            (dispatch_errors s)
  | O => s
  end.

(** The steps of the threads, in the order in which they happen. *)
Inductive op : Type :=
  | SubmitCheck (func : result unit) (priority : ThreadPool.TaskPriority)
                (task_id : nat) (now : Q)
  | SubmitPut (k : nat)
  | SubmitCount (k : nat)
  | Dispatch
  | ExecuteTry (k : nat)
  | ExecuteFinally
  | ShutdownCheck
  | ShutdownSet
  | ShutdownExecutor.

Definition step (s : state) (o : op) : state :=
  match o with
  | SubmitCheck func priority task_id now =>
      snd (submit_check func priority task_id now s)
  | SubmitPut k => submit_put k s
  | SubmitCount k => submit_count k s
  | Dispatch => dispatch s
  | ExecuteTry k => execute_try k s
  | ExecuteFinally => execute_finally s
  | ShutdownCheck => shutdown_check s
  | ShutdownSet => shutdown_set s
  | ShutdownExecutor => shutdown_executor s
  end.

Definition run (ops : list op) (s : state) : state := fold_left step ops s.
End ThreadPoolThreads.

(** *** Vocabulary of the statements *)

(** Binary-heap positions: [c] is a child of [i]. *)
Definition child (i c : nat) : Prop := c = (2 * i + 1)%nat \/ c = (2 * i + 2)%nat.

Section HeapShape.
Context {A : Type} (lt : A -> A -> bool).

(** The item at [c] is not smaller than the item at [i]. *)
Definition ordered (h : list A) (i c : nat) : Prop :=
  forall x y, h !! i = Some x -> h !! c = Some y -> lt y x = false.

(** The invariant of [heapq]: no item is smaller than its parent. *)
Definition heap_ok (h : list A) : Prop :=
  forall i c, child i c -> ordered h i c.

(** A heap with a hole at [pos]: all pairs that avoid [pos] are in order,
    and so are the parent of [pos] and the children of [pos]. *)
Definition hole_ok (h : list A) (pos : nat) : Prop :=
  (forall i c, child i c -> i <> pos -> c <> pos -> ordered h i c)
  /\ (forall g c, child g pos -> child pos c -> ordered h g c).

(** [x] may be put above the children of [pos]. *)
Definition above (h : list A) (pos : nat) (x : A) : Prop :=
  forall c y, child pos c -> h !! c = Some y -> lt y x = false.
End HeapShape.

(** What holds of every state of a running scheduler. *)
Definition scheduler_inv (s : ThreadPool.state) : Prop :=
  ThreadPool._shutdown s = false
  /\ heap_ok ThreadPool.__lt__ (ThreadPool._task_queue s)
  /\ ThreadPool.active_tasks (ThreadPool._stats s)
     = Z.of_nat (length (ThreadPool._executor s)).

(** A submission: payload, priority, task id and submission time. *)
Definition submit_op (sub : result unit * ThreadPool.TaskPriority * nat * Q)
  : ThreadPool.op :=
  let '(func, priority, task_id, now) := sub in
  ThreadPool.Submit func priority task_id now.

(** [n] times: the dispatcher hands a task over and the single worker runs
    it to its end. *)
Fixpoint serve_all (n : nat) : list ThreadPool.op :=
  match n with
  | O => []
  | S n' => ThreadPool.Dispatch :: ThreadPool.Finish 0 :: serve_all n'
  end.

(** Priorities LOW, HIGH, LOW, CRITICAL, MEDIUM submitted in this order, with
    payloads that return, raise an [Exception] or raise [SystemExit]. *)
Definition five_tasks : list (result unit * ThreadPool.TaskPriority * nat * Q) :=
  [(Return tt, ThreadPool.LOW, 1%nat, 1%Q);
   (Raise UserError, ThreadPool.HIGH, 2%nat, 2%Q);
   (Return tt, ThreadPool.LOW, 3%nat, 3%Q);
   (Raise SystemExit, ThreadPool.CRITICAL, 4%nat, 4%Q);
   (Return tt, ThreadPool.MEDIUM, 5%nat, 5%Q)].

(** A rule is due when it is enabled and its cooldown has passed since
    [last_alert_time]. *)
Definition due (current_time last_alert_time : Q)
    (config : MemoryAlertManager.AlertConfig) : bool :=
  MemoryAlertManager.enabled config
  && negb (Qltb (current_time - last_alert_time)
                (MemoryAlertManager.cooldown_period config)).

(** The positions, counted from [i], of the rules that are due. *)
Fixpoint due_positions (current_time last_alert_time : Q)
    (configs : list MemoryAlertManager.AlertConfig) (i : nat) : list nat :=
  match configs with
  | [] => []
  | config :: rest =>
      if due current_time last_alert_time config
      then i :: due_positions current_time last_alert_time rest (S i)
      else due_positions current_time last_alert_time rest (S i)
  end.

(** A memory sample at [p] percent. *)
Definition sample (p : Q) : MemoryMonitor.MemoryStats :=
  {| MemoryMonitor.timestamp := 0; MemoryMonitor.rss := 0;
     MemoryMonitor.vms := 0; MemoryMonitor.percent := p;
     MemoryMonitor.available := 0; MemoryMonitor.gc_count0 := 0;
     MemoryMonitor.gc_count1 := 0; MemoryMonitor.gc_count2 := 0;
     MemoryMonitor.gc_objects := 0 |}.

(** An e-mail rule with the default cooldown of 300 seconds, and a router
    that has it as its only WARNING rule. *)
Definition email_rule : MemoryAlertManager.AlertConfig :=
  {| MemoryAlertManager.action := MemoryAlertManager.EMAIL;
     MemoryAlertManager.enabled := true;
     MemoryAlertManager.cooldown_period := 300;
     MemoryAlertManager.recipients := Some ["ops@example.com"];
     MemoryAlertManager.webhook_url := None;
     MemoryAlertManager.custom_callback := None |}.

Definition router : MemoryAlertManager.state :=
  snd (MemoryAlertManager.add_alert_config MemoryMonitor.WARNING email_rule
         MemoryAlertManager.__init__).

(** Three snapshots, one minute apart, of the given total sizes. *)
Definition window (a b c : Z) : list GarbageCollectionMonitor.snapshot :=
  [GarbageCollectionMonitor.Snapshot 0 a 10 [];
   GarbageCollectionMonitor.Snapshot 60 b 10 [];
   GarbageCollectionMonitor.Snapshot 120 c 10 []].

(** The callbacks behave: whatever they raise is an [Exception]. *)
Definition only_Exceptions
    (callbacks : list (MemoryMonitor.MemoryStats ->
                       MemoryMonitor.MemoryAlertLevel -> result unit)) : Prop :=
  forall callback stats level e,
    callback ∈ callbacks -> callback stats level = Raise e ->
    is_Exception e = true.

(** The sample is classified WARNING or CRITICAL. *)
Definition alerting (self : MemoryMonitor.state)
    (stats : MemoryMonitor.MemoryStats) : bool :=
  negb (MemoryMonitor.is_normal (MemoryMonitor._check_alert_level self stats)).

(** The sample makes the loop force a collection. *)
Definition collecting (self : MemoryMonitor.state) (m : MemoryMonitor.sampler)
    (stats : MemoryMonitor.MemoryStats) : bool :=
  MemoryMonitor._enable_auto_gc m && MemoryMonitor._should_trigger_gc self m stats.

Definition count_samples (f : MemoryMonitor.MemoryStats -> bool)
    (l : list MemoryMonitor.MemoryStats) : Z :=
  Z.of_nat (length (List.filter f l)).

(** A callback that always raises and one that always returns. *)
Definition flaky_callback (stats : MemoryMonitor.MemoryStats)
    (level : MemoryMonitor.MemoryAlertLevel) : result unit :=
  Raise UserError.

Definition quiet_callback (stats : MemoryMonitor.MemoryStats)
    (level : MemoryMonitor.MemoryAlertLevel) : result unit :=
  Return tt.

(** The snapshots that a list of calls of [_take_snapshot] builds. *)
Definition built (takes : list (Q * result (list GarbageCollectionMonitor.allocation)))
  : list GarbageCollectionMonitor.snapshot :=
  flat_map (fun '(now, top_stats) =>
    match top_stats with
    | Return top_stats =>
        [GarbageCollectionMonitor.Snapshot now
           (GarbageCollectionMonitor.sum_sizes top_stats)
           (GarbageCollectionMonitor.sum_counts top_stats)
           (take 10 top_stats)]
    | Raise _ => []
    end) takes.

Definition take_all (enable_tracemalloc : bool) (max_snapshots : Z)
    (takes : list (Q * result (list GarbageCollectionMonitor.allocation)))
    (snaps : list GarbageCollectionMonitor.snapshot)
  : list GarbageCollectionMonitor.snapshot :=
  fold_left (fun snaps '(now, top_stats) =>
               GarbageCollectionMonitor._take_snapshot
                 enable_tracemalloc max_snapshots now top_stats snaps)
            takes snaps.

(** A call of the GC callback with everything it reads. *)
Record gc_event : Type := GcEvent {
  e_phase : string;
  e_info : GarbageCollectionMonitor.gc_info;
  e_now1 : Q;
  e_now2 : Q;
  e_memory : Z;
  e_top_stats : option (list GarbageCollectionMonitor.allocation)
}.

Definition deliver (events : list gc_event)
    (c : GarbageCollectionMonitor.collector) : GarbageCollectionMonitor.collector :=
  fold_left (fun c e =>
               snd (GarbageCollectionMonitor._gc_callback
                      (e_phase e) (e_info e) (e_now1 e) (e_now2 e) (e_memory e)
                      (e_top_stats e) c))
            events c.

Definition stops (events : list gc_event) : nat :=
  length (List.filter (fun e => String.eqb (e_phase e) "stop") events).

Section CollectorVocabulary.
Import GarbageCollectionMonitor.

(** What [k] stop events leave in a collector monitor. *)
Definition collector_inv (k : nat) (c : collector) : Prop :=
  total_gc_calls (_stats c) = Z.of_nat k
  /\ (0 <= total_memory_freed (_stats c))%Z
  /\ length (_gc_stats c) = Nat.min 100 k
  /\ Forall (fun g => memory_freed g = Z.max 0 (memory_before g - memory_after g))
            (_gc_stats c).

(** A dict built by [by_file] from the list [l]: the keys are distinct, and
    every entry is an allocation of [l] under its own file name. *)
Definition dict_of (l : list allocation) (d : list (string * allocation)) : Prop :=
  List.NoDup (map fst d)
  /\ (forall k v, In (k, v) d -> a_file v = k /\ In v l)
  /\ (forall a, In a l -> In (a_file a) (map fst d)).

End CollectorVocabulary.



(** Two key paths part ways at some position: neither is a prefix of the
    other. *)
Fixpoint diverging (keys1 keys2 : list string) : bool :=
  match keys1, keys2 with
  | k1 :: rest1, k2 :: rest2 =>
      if String.eqb k1 k2 then diverging rest1 rest2 else true
  | _, _ => false
  end.

(** The exception of [set] when the non-dict value sits at the path [p]. *)
Definition set_error (p keys : list string) : exn :=
  if decide (p = keys) then AttributeError else TypeError.

(** Alerts of one level handled one after the other, each at its time and
    with its sample: what each call returned, and the router at the end. *)
Fixpoint handle_alerts (level : MemoryMonitor.MemoryAlertLevel)
    (alerts : list (Q * MemoryMonitor.MemoryStats))
    (self : MemoryAlertManager.state)
  : list (result (list nat)) * MemoryAlertManager.state :=
  match alerts with
  | [] => ([], self)
  | (current_time, stats) :: rest =>
      let '(r, self1) :=
        MemoryAlertManager._handle_alert current_time stats level self in
      let '(rs, self2) := handle_alerts level rest self1 in
      (r :: rs, self2)
  end.

(** Each alert comes at least [lo] and less than [hi] seconds after the one
    before it; [t] is the time of the alert before the first. *)
Fixpoint paced (lo hi : Q) (t : Q)
    (alerts : list (Q * MemoryMonitor.MemoryStats)) : Prop :=
  match alerts with
  | [] => True
  | (t', _) :: rest => (lo <= t' - t)%Q /\ (t' - t < hi)%Q /\ paced lo hi t' rest
  end.

(** Whatever the actions of the rules raise is an [Exception]. *)
Definition harmless (rules : list MemoryAlertManager.AlertConfig) : Prop :=
  forall c stats level e,
    c ∈ rules -> MemoryAlertManager.execute stats level c = Raise e ->
    is_Exception e = true.

(** A custom rule whose callback always raises, and a webhook rule with a
    cooldown of one minute. *)
Definition flaky_rule : MemoryAlertManager.AlertConfig :=
  {| MemoryAlertManager.action := MemoryAlertManager.CUSTOM;
     MemoryAlertManager.enabled := true;
     MemoryAlertManager.cooldown_period := 300;
     MemoryAlertManager.recipients := None;
     MemoryAlertManager.webhook_url := None;
     MemoryAlertManager.custom_callback := Some flaky_callback |}.

Definition webhook_rule : MemoryAlertManager.AlertConfig :=
  {| MemoryAlertManager.action := MemoryAlertManager.WEBHOOK;
     MemoryAlertManager.enabled := true;
     MemoryAlertManager.cooldown_period := 60;
     MemoryAlertManager.recipients := None;
     MemoryAlertManager.webhook_url := Some "https://example.com/hook";
     MemoryAlertManager.custom_callback := None |}.

(** The payload of a submission returns or raises an [Exception]. *)
Definition well_behaved (o : ThreadPoolThreads.op) : bool :=
  match o with
  | ThreadPoolThreads.SubmitCheck (Raise e) _ _ _ => is_Exception e
  | _ => true
  end.

Definition payload_ok (t : ThreadPool.Task) : Prop :=
  forall e, ThreadPool.func t = Raise e -> is_Exception e = true.

(** The tasks the dispatcher holds: taken from the queue and not yet
    counted, counted and not yet handed over. *)
Definition got (d : ThreadPoolThreads.dispatcher) : nat :=
  match d with ThreadPoolThreads.Got _ => 1 | _ => 0 end.

Definition counted (d : ThreadPoolThreads.dispatcher) : nat :=
  match d with ThreadPoolThreads.Counted _ => 1 | _ => 0 end.

(** The dispatcher is inside [get] and can still take a task. *)
Definition in_get (d : ThreadPoolThreads.dispatcher) : nat :=
  match d with ThreadPoolThreads.InGet => 1 | _ => 0 end.

(** The calls of [submit] that have queued their task and not yet counted
    it. *)
Definition uncounted (l : list ThreadPoolThreads.submitting) : nat :=
  length (List.filter (fun c => match c with
                                | ThreadPoolThreads.Queued _ => true
                                | ThreadPoolThreads.Checked _ => false
                                end) l).

Definition submitted_task (c : ThreadPoolThreads.submitting) : ThreadPool.Task :=
  match c with
  | ThreadPoolThreads.Checked task | ThreadPoolThreads.Queued task => task
  end.

Definition held_task (d : ThreadPoolThreads.dispatcher) : list ThreadPool.Task :=
  match d with
  | ThreadPoolThreads.Got task | ThreadPoolThreads.Counted task => [task]
  | _ => []
  end.

(** What holds between any two steps of the threads. *)
Definition threads_inv (s : ThreadPoolThreads.state) : Prop :=
  let st := ThreadPoolThreads._stats s in
  heap_ok ThreadPool.__lt__ (ThreadPoolThreads._task_queue s)
  /\ ThreadPool.active_tasks st
     = Z.of_nat (length (ThreadPoolThreads.work_items s)
                 + ThreadPoolThreads.finishing s
                 + counted (ThreadPoolThreads._dispatcher_thread s)
                 + ThreadPoolThreads.dispatch_errors s)
  /\ (0 <= ThreadPool.completed_tasks st)%Z
  /\ (0 <= ThreadPool.failed_tasks st)%Z
  /\ (ThreadPool.completed_tasks st + ThreadPool.failed_tasks st
      + ThreadPool.active_tasks st
      + Z.of_nat (length (ThreadPoolThreads._task_queue s))
      + Z.of_nat (got (ThreadPoolThreads._dispatcher_thread s))
      <= ThreadPool.total_tasks st
         + Z.of_nat (uncounted (ThreadPoolThreads.submits s))
         + Z.of_nat (ThreadPoolThreads.finishing s))%Z.

Definition threads_balanced (s : ThreadPoolThreads.state) : Prop :=
  let st := ThreadPoolThreads._stats s in
  (ThreadPool.completed_tasks st + ThreadPool.failed_tasks st
   + ThreadPool.active_tasks st
   + Z.of_nat (length (ThreadPoolThreads._task_queue s))
   + Z.of_nat (got (ThreadPoolThreads._dispatcher_thread s))
   = ThreadPool.total_tasks st
     + Z.of_nat (uncounted (ThreadPoolThreads.submits s))
     + Z.of_nat (ThreadPoolThreads.finishing s))%Z
  /\ (forall t,
        t ∈ ThreadPoolThreads._task_queue s
            ++ held_task (ThreadPoolThreads._dispatcher_thread s)
            ++ ThreadPoolThreads.work_items s
            ++ map submitted_task (ThreadPoolThreads.submits s) ->
        payload_ok t).

(** No thread is between two of its sections: no call of [submit] has
    queued a task it has not counted, the dispatcher holds no task, and no
    worker is before its [finally]. *)
Definition quiet (s : ThreadPoolThreads.state) : Prop :=
  uncounted (ThreadPoolThreads.submits s) = 0%nat
  /\ got (ThreadPoolThreads._dispatcher_thread s) = 0%nat
  /\ ThreadPoolThreads.finishing s = 0%nat.

(** After [shutdown] has set both flags, from the state [s0] on. *)
Definition closed_inv (s0 s : ThreadPoolThreads.state) : Prop :=
  ThreadPoolThreads._shutdown s = true
  /\ ThreadPoolThreads.executor_shutdown s = true
  /\ heap_ok ThreadPool.__lt__ (ThreadPoolThreads._task_queue s)
  /\ ThreadPoolThreads.work_items s ⊆+ ThreadPoolThreads.work_items s0
  /\ (in_get (ThreadPoolThreads._dispatcher_thread s)
      <= in_get (ThreadPoolThreads._dispatcher_thread s0))%nat
  /\ (length (ThreadPoolThreads._task_queue s0)
      <= length (ThreadPoolThreads._task_queue s)
         + (in_get (ThreadPoolThreads._dispatcher_thread s0)
            - in_get (ThreadPoolThreads._dispatcher_thread s)))%nat
  /\ (length (ThreadPoolThreads._task_queue s0)
      + length (held_task (ThreadPoolThreads._dispatcher_thread s0))
      + ThreadPoolThreads.dispatch_errors s0
      <= length (ThreadPoolThreads._task_queue s)
         + length (held_task (ThreadPoolThreads._dispatcher_thread s))
         + ThreadPoolThreads.dispatch_errors s)%nat.

(** A task is submitted and [shutdown] follows at once, while the
    dispatcher waits in [get]; then the dispatcher runs on. *)
Definition submit_then_shutdown : list ThreadPoolThreads.op :=
  [ThreadPoolThreads.Dispatch;
   ThreadPoolThreads.SubmitCheck (Return tt) ThreadPool.MEDIUM 1%nat 1%Q;
   ThreadPoolThreads.SubmitPut 0; ThreadPoolThreads.SubmitCount 0;
   ThreadPoolThreads.ShutdownCheck; ThreadPoolThreads.ShutdownSet;
   ThreadPoolThreads.ShutdownExecutor].

Definition dispatcher_runs_on : list ThreadPoolThreads.op :=
  [ThreadPoolThreads.Dispatch; ThreadPoolThreads.Dispatch;
   ThreadPoolThreads.Dispatch; ThreadPoolThreads.Dispatch].

(** A task is taken and completed by [_execute_task] before the call of
    [submit] that queued it has counted it. *)
Definition completed_before_counted : list ThreadPoolThreads.op :=
  [ThreadPoolThreads.Dispatch;
   ThreadPoolThreads.SubmitCheck (Return tt) ThreadPool.MEDIUM 1%nat 1%Q;
   ThreadPoolThreads.SubmitPut 0;
   ThreadPoolThreads.Dispatch; ThreadPoolThreads.Dispatch;
   ThreadPoolThreads.Dispatch; ThreadPoolThreads.ExecuteTry 0].

(** ** Part II: properties *)

(** *** Object pool *)
Section PoolProperties.
Context {T : Type}.
Implicit Types (cfg : ObjectPool.config T) (s : ObjectPool.state T).
Import ObjectPool.

Lemma pop_length (l : list T) x rest :
  pop l = Some (x, rest) -> length l = S (length rest).
Proof.
  unfold pop. destruct (last l) eqn:E; [|discriminate].
  intros [= <- <-]. destruct l as [|y l]; [discriminate|].
  rewrite removelast_firstn_len, length_take. simpl. lia.
Qed.

Lemma pop_None (l : list T) : pop l = None -> l = [].
Proof.
  unfold pop. destruct (last l) eqn:E; [discriminate|].
  intros _. by apply last_None.
Qed.

(** No transition makes the counter negative. *)
Lemma step_in_use_nonneg cfg s o :
  (0 <= _in_use_count s)%Z -> (0 <= _in_use_count (step cfg s o))%Z.
Proof.
  intros H. destruct o as [create|obj|]; simpl.
  - unfold acquire. destruct (pop (_pool s)) as [[x rest]|]; simpl; [lia|].
    destruct (_in_use_count s <? _max_size cfg)%Z;
      [destruct create; simpl; lia|].
    destruct (negb (_block cfg)); [destruct create|]; simpl; lia.
  - unfold release. destruct (reset_raises cfg obj); simpl.
    + destruct (0 <? _in_use_count s)%Z eqn:E; simpl; lia.
    + destruct (0 <? _in_use_count s)%Z eqn:E; simpl; lia.
  - lia.
Qed.

(** The capacity bound is kept by acquire and release. *)
Lemma step_bounded cfg s o :
  is_clear o = false ->
  (size s + _in_use_count s <= _max_size cfg)%Z ->
  (size (step cfg s o) + _in_use_count (step cfg s o) <= _max_size cfg)%Z.
Proof.
  intros Ho H. destruct o as [create|obj|]; [| |discriminate]; simpl.
  - unfold acquire. destruct (pop (_pool s)) as [[x rest]|] eqn:E; simpl.
    + apply pop_length in E. unfold size in *. simpl. lia.
    + apply pop_None in E. unfold size in *. rewrite E in *. simpl in *.
      destruct (_in_use_count s <? _max_size cfg)%Z eqn:L.
      * apply Z.ltb_lt in L. destruct create; simpl; [|rewrite E; simpl]; lia.
      * destruct (negb (_block cfg)); [destruct create|]; simpl;
          rewrite ?E; simpl; lia.
  - unfold release. destruct (reset_raises cfg obj); simpl.
    + destruct (0 <? _in_use_count s)%Z; unfold size in *; simpl; lia.
    + destruct (0 <? _in_use_count s)%Z; unfold size in *; simpl;
        rewrite ?length_app; simpl; lia.
Qed.
End PoolProperties.

Section PoolTraces.
Context {T : Type}.
Implicit Types (cfg : ObjectPool.config T) (s : ObjectPool.state T).
Import ObjectPool.

Lemma run_snoc cfg ops o s :
  run cfg (ops ++ [o]) s = step cfg (run cfg ops s) o.
Proof. unfold run. by rewrite fold_left_app. Qed.

Lemma run_in_use_nonneg cfg ops :
  (0 <= _in_use_count (run cfg ops init))%Z.
Proof.
  induction ops as [|o ops IH] using rev_ind; [simpl; lia|].
  rewrite run_snoc. by apply step_in_use_nonneg.
Qed.

Lemma run_bounded cfg ops :
  (0 <= _max_size cfg)%Z ->
  forallb (fun o => negb (is_clear o)) ops = true ->
  (size (run cfg ops init) + _in_use_count (run cfg ops init)
     <= _max_size cfg)%Z.
Proof.
  intros HN. induction ops as [|o ops IH] using rev_ind; intros Hops.
  - unfold size. simpl. lia.
  - rewrite forallb_app in Hops. apply andb_prop in Hops as [H1 H2].
    simpl in H2. rewrite andb_true_r in H2. apply negb_true_iff in H2.
    rewrite run_snoc. apply step_bounded; auto.
Qed.

Lemma forallb_take {A} (f : A -> bool) (l : list A) n :
  forallb f l = true -> forallb f (take n l) = true.
Proof.
  revert n. induction l as [|a l IH]; intros [|n]; simpl; auto.
  intros H. apply andb_prop in H as [-> H]. simpl. auto.
Qed.

(** With a passing reset hook (or none) and a positive counter, [release]
    counts and keeps whatever object it is given. *)
Lemma release_counted cfg obj s :
  reset_raises cfg obj = false -> (0 < _in_use_count s)%Z ->
  release cfg obj s
    = (Returned, State (_pool s ++ [obj]) (_in_use_count s - 1)).
Proof.
  intros Hr Hpos. unfold release. rewrite Hr.
  apply Z.ltb_lt in Hpos. by rewrite Hpos.
Qed.

(** With the counter at 0 the object is dropped and nothing changes. *)
Lemma release_at_zero cfg obj s :
  _in_use_count s = 0%Z -> snd (release cfg obj s) = s.
Proof.
  intros H0. unfold release. rewrite H0. simpl.
  by destruct (reset_raises cfg obj).
Qed.

(** A burst object is only ever created while the counter has reached the
    capacity, and creating it leaves the pool untouched. *)
Lemma burst_only_at_capacity cfg create s obj s' :
  acquire cfg create s = (Burst obj, s') ->
  s' = s /\ _pool s = [] /\ (_max_size cfg <= _in_use_count s)%Z
  /\ _block cfg = false.
Proof.
  unfold acquire. destruct (pop (_pool s)) as [[x rest]|] eqn:E; [discriminate|].
  apply pop_None in E.
  destruct (_in_use_count s <? _max_size cfg)%Z eqn:L;
    [destruct create; discriminate|].
  apply Z.ltb_ge in L.
  destruct (_block cfg); simpl; [discriminate|].
  destruct create; intros [= <- <-] || discriminate. auto.
Qed.
End PoolTraces.

(** C4. On a blocking pool of capacity [N >= 0], after every prefix of every
    sequence of acquire and release operations, the idle objects plus the
    counted check-outs number at most [N], so the counter never exceeds [N];
    and no acquire on such a pool hands out a burst object. *)
Theorem pool_capacity_invariant {T : Type}
    (cfg : ObjectPool.config T) (ops : list (ObjectPool.op T)) (n : nat) :
  ObjectPool._block cfg = true ->
  (0 <= ObjectPool._max_size cfg)%Z ->
  forallb (fun o => negb (ObjectPool.is_clear o)) ops = true ->
  let s := ObjectPool.run cfg (take n ops) ObjectPool.init in
  (ObjectPool.size s + ObjectPool._in_use_count s <= ObjectPool._max_size cfg)%Z
  /\ (ObjectPool._in_use_count s <= ObjectPool._max_size cfg)%Z
  /\ forall create obj s',
       ObjectPool.acquire cfg create s <> (ObjectPool.Burst obj, s').
Proof.
  intros Hb HN Hops s.
  assert (ObjectPool.size s + ObjectPool._in_use_count s
            <= ObjectPool._max_size cfg)%Z as H.
  { apply run_bounded; [done|]. by apply forallb_take. }
  split; [done|]. split; [unfold ObjectPool.size in H; lia|].
  intros create obj s' Ha.
  apply burst_only_at_capacity in Ha as (_ & _ & _ & Hnb). congruence.
Qed.

(** A pool of capacity 2: three acquires (the third one waits), a release,
    and an acquire whose factory raises. *)
Lemma pool_capacity_invariant_witness :
  let cfg := ObjectPool.Config 2 None true in
  let ops := [ObjectPool.Acquire (Return 7%nat); ObjectPool.Acquire (Return 8%nat);
              ObjectPool.Acquire (Return 9%nat); ObjectPool.Release 7%nat;
              ObjectPool.Acquire (Raise UserError)] in
  let s := ObjectPool.run cfg (take 4 ops) ObjectPool.init in
  (ObjectPool.size s + ObjectPool._in_use_count s <= 2)%Z
  /\ (ObjectPool._in_use_count s <= 2)%Z.
Proof.
  intros cfg ops s.
  destruct (pool_capacity_invariant cfg ops 4) as (H1 & H2 & _);
    [reflexivity | simpl; lia | reflexivity |].
  split; [exact H1 | exact H2].
Defined.

(** C10. After every prefix of every sequence of acquire, release and clear
    operations, whatever objects are released and whether or not the reset
    hook raises, the in-use counter is not negative; a decrement happens
    only from a positive counter, and [clear] leaves the counter at 0. *)
Theorem pool_in_use_never_negative {T : Type}
    (cfg : ObjectPool.config T) (ops : list (ObjectPool.op T)) (n : nat) :
  let s := ObjectPool.run cfg (take n ops) ObjectPool.init in
  (0 <= ObjectPool._in_use_count s)%Z
  /\ (forall obj,
        ObjectPool._in_use_count (snd (ObjectPool.release cfg obj s))
          = ObjectPool._in_use_count s
        \/ (0 < ObjectPool._in_use_count s)%Z
           /\ ObjectPool._in_use_count (snd (ObjectPool.release cfg obj s))
              = (ObjectPool._in_use_count s - 1)%Z)
  /\ ObjectPool._in_use_count (ObjectPool.clear s) = 0%Z.
Proof.
  intros s. split; [apply run_in_use_nonneg|]. split; [|done].
  intros obj. unfold ObjectPool.release.
  destruct (ObjectPool.reset_raises cfg obj);
    destruct (0 <? ObjectPool._in_use_count s)%Z eqn:E; simpl; auto;
    right; apply Z.ltb_lt in E; auto.
Qed.

(** A burst object that is released straight away, to a pool with a
    capacity of at least 1 whose reset hook, if any, accepts it, is counted
    and kept like a tracked one. *)
Lemma burst_release_counted {T : Type} (cfg : ObjectPool.config T)
    (create : result T) (s s' : ObjectPool.state T) (obj : T) :
  ObjectPool.acquire cfg create s = (ObjectPool.Burst obj, s') ->
  (1 <= ObjectPool._max_size cfg)%Z ->
  ObjectPool.reset_raises cfg obj = false ->
  ObjectPool.release cfg obj s'
  = (ObjectPool.Returned,
     ObjectPool.State (ObjectPool._pool s ++ [obj])
                      (ObjectPool._in_use_count s - 1)).
Proof.
  intros Ha Hmax Hr.
  apply burst_only_at_capacity in Ha as (-> & _ & Hcap & _).
  apply release_counted; [done|lia].
Qed.

(** C3. A pool of capacity 1 in burst mode, without reset hook: object 1 is
    checked out (counted), object 2 is handed out as a burst object (not
    counted), and releasing object 2 takes the counter from 1 to 0 and puts
    object 2 on the idle list. *)
Theorem burst_release_is_counted_and_kept :
  let cfg := ObjectPool.Config 1 None false in
  let a1 := ObjectPool.acquire cfg (Return 1%nat) ObjectPool.init in
  let a2 := ObjectPool.acquire cfg (Return 2%nat) (snd a1) in
  let r := ObjectPool.release cfg 2%nat (snd a2) in
  fst a1 = ObjectPool.Tracked 1%nat
  /\ fst a2 = ObjectPool.Burst 2%nat
  /\ ObjectPool._in_use_count (snd a2) = 1%Z
  /\ ObjectPool._pool (snd a2) = []
  /\ fst r = ObjectPool.Returned
  /\ ObjectPool._in_use_count (snd r) = 0%Z
  /\ ObjectPool._pool (snd r) = [2%nat].
Proof. repeat split. Qed.

(** *** Binary heaps *)
Lemma parent_child (pos : nat) : (0 < pos)%nat -> child ((pos - 1) / 2) pos.
Proof.
  intros H. unfold child.
  pose proof (Nat.div_mod_eq (pos - 1) 2) as E.
  pose proof (Nat.mod_upper_bound (pos - 1) 2) as U. lia.
Qed.

Lemma child_parent (i c : nat) : child i c -> ((c - 1) / 2)%nat = i.
Proof.
  intros H.
  pose proof (Nat.div_mod_eq (c - 1) 2) as E.
  pose proof (Nat.mod_upper_bound (c - 1) 2) as U.
  unfold child in H. lia.
Qed.

Lemma child_gt (i c : nat) : child i c -> (i < c)%nat.
Proof. unfold child. lia. Qed.

Section HeapProofs.
Context {A : Type} (lt : A -> A -> bool).
Hypothesis lt_asym : forall x y, lt x y = true -> lt y x = false.
Hypothesis le_trans :
  forall x y z, lt y x = false -> lt z y = false -> lt z x = false.

Lemma lt_irrefl x : lt x x = false.
Proof. destruct (lt x x) eqn:E; [|done]. by rewrite (lt_asym _ _ E) in E. Qed.

Lemma fill_ok (h : list A) pos x :
  hole_ok lt h pos -> above lt h pos x ->
  (forall g p, child g pos -> h !! g = Some p -> lt x p = false) ->
  heap_ok lt (<[pos := x]> h).
Proof.
  intros [Ha Hc] Hab Hup i c Hic a b Hi Hb.
  apply list_lookup_insert_Some in Hi as [(<- & <- & _)|[Hne Hi]];
    apply list_lookup_insert_Some in Hb as [(E & <- & _)|[Hne' Hb]].
  - apply child_gt in Hic. lia.
  - eauto.
  - subst c. eauto.
  - apply (Ha i c); auto.
Qed.

Lemma hole_up (h : list A) pos pp x parent :
  hole_ok lt h pos -> above lt h pos x -> child pp pos ->
  h !! pp = Some parent -> lt x parent = true ->
  hole_ok lt (<[pos := parent]> h) pp /\ above lt (<[pos := parent]> h) pp x.
Proof.
  intros [Ha Hc] Hab Hpp Hp Hlt.
  pose proof (child_gt _ _ Hpp) as Hgt.
  assert (Hxp : lt parent x = false) by auto.
  split; [split|].
  - intros i c Hic Hi Hcn a b Hia Hcb.
    apply list_lookup_insert_Some in Hia as [(<- & <- & _)|[Hne Hia]];
      apply list_lookup_insert_Some in Hcb as [(E & <- & _)|[Hne' Hcb]].
    + apply child_gt in Hic. lia.
    + apply (Hc pp c Hpp Hic parent b); auto.
    + subst c. apply child_parent in Hic, Hpp. congruence.
    + apply (Ha i c); auto.
  - intros g c Hg Hcc a b Hga Hcb.
    pose proof (child_gt _ _ Hg).
    apply list_lookup_insert_Some in Hga as [(E & _)|[_ Hga]]; [lia|].
    assert (Hgp : lt parent a = false) by (apply (Ha g pp); auto; lia).
    apply list_lookup_insert_Some in Hcb as [(E & <- & _)|[Hne' Hcb]]; [done|].
    apply le_trans with parent; [done|].
    apply (Ha pp c); auto; lia.
  - intros c y Hcc Hy.
    apply list_lookup_insert_Some in Hy as [(E & <- & _)|[Hne' Hy]]; [done|].
    apply le_trans with parent; [done|].
    apply (Ha pp c); auto; lia.
Qed.

Lemma siftdown_loop_S fuel (h : list A) x startpos pos :
  heapq.siftdown_loop lt (S fuel) h x startpos pos =
  if (startpos <? pos)%nat then
    match h !! ((pos - 1) / 2)%nat with
    | Some parent =>
        if lt x parent then
          heapq.siftdown_loop lt fuel (<[pos := parent]> h) x startpos
                              ((pos - 1) / 2)%nat
        else <[pos := x]> h
    | None => <[pos := x]> h
    end
  else <[pos := x]> h.
Proof. reflexivity. Qed.

Lemma siftdown_loop_heap fuel : forall (h : list A) x pos,
  (pos <= fuel)%nat -> hole_ok lt h pos -> above lt h pos x ->
  heap_ok lt (heapq.siftdown_loop lt fuel h x 0 pos).
Proof.
  induction fuel as [|fuel IH]; intros h x pos Hf Hh Hab.
  - simpl. apply fill_ok; auto. intros g p Hg. apply child_gt in Hg. lia.
  - rewrite siftdown_loop_S. destruct (0 <? pos)%nat eqn:Hpos.
    + apply Nat.ltb_lt in Hpos. pose proof (parent_child pos Hpos) as Hpp.
      destruct (h !! ((pos - 1) / 2)%nat) as [parent|] eqn:Hp.
      * destruct (lt x parent) eqn:Hlt.
        -- destruct (hole_up h pos _ x parent Hh Hab Hpp Hp Hlt).
           apply IH; auto. apply child_gt in Hpp. lia.
        -- apply fill_ok; auto. intros g p Hg Hgp.
           apply child_parent in Hg. congruence.
      * apply fill_ok; auto. intros g p Hg Hgp.
        apply child_parent in Hg. congruence.
    + apply Nat.ltb_ge in Hpos. apply fill_ok; auto.
      intros g p Hg. apply child_gt in Hg. lia.
Qed.

Lemma siftdown_loop_perm fuel : forall (h : list A) x pos,
  (pos < length h)%nat ->
  heapq.siftdown_loop lt fuel h x 0 pos ≡ₚ <[pos := x]> h.
Proof.
  induction fuel as [|fuel IH]; intros h x pos Hlen; [done|].
  rewrite siftdown_loop_S.
  destruct (0 <? pos)%nat eqn:Hpos; [|done].
  apply Nat.ltb_lt in Hpos. pose proof (parent_child pos Hpos) as Hpp.
  apply child_gt in Hpp.
  destruct (h !! ((pos - 1) / 2)%nat) as [parent|] eqn:Hp; [|done].
  destruct (lt x parent); [|done].
  rewrite IH by (rewrite length_insert; lia).
  rewrite <- (list_insert_insert_eq h pos parent x) at 1.
  apply Permutation_insert_swap.
  - by apply list_lookup_insert_eq.
  - rewrite list_lookup_insert_ne by lia. done.
Qed.

Lemma siftup_loop_S fuel (h : list A) pos :
  heapq.siftup_loop lt (S fuel) h pos =
  if (2 * pos + 1 <? length h)%nat then
    match h !! heapq.smaller_child lt h (2 * pos + 1) with
    | Some v =>
        heapq.siftup_loop lt fuel (<[pos := v]> h)
                          (heapq.smaller_child lt h (2 * pos + 1))
    | None => (h, pos)
    end
  else (h, pos).
Proof. reflexivity. Qed.

Lemma smaller_child_spec (h : list A) pos :
  (2 * pos + 1 < length h)%nat ->
  exists v, h !! heapq.smaller_child lt h (2 * pos + 1) = Some v
    /\ child pos (heapq.smaller_child lt h (2 * pos + 1))
    /\ above lt h pos v.
Proof.
  intros Hlen. unfold heapq.smaller_child.
  destruct (lookup_lt_is_Some_2 h (2 * pos + 1)%nat Hlen) as [l Hl].
  rewrite Hl.
  destruct (h !! (2 * pos + 1 + 1)%nat) as [r|] eqn:Hr.
  - destruct (lt l r) eqn:Hlr; simpl.
    + exists l. split; [done|]. split; [left; done|].
      intros c y [->| ->] Hy.
      * rewrite Hl in Hy. injection Hy as <-. apply lt_irrefl.
      * replace (2 * pos + 2)%nat with (2 * pos + 1 + 1)%nat in Hy by lia.
        rewrite Hr in Hy. injection Hy as <-. auto.
    + exists r. split; [done|]. split; [right; lia|].
      intros c y [->| ->] Hy.
      * rewrite Hl in Hy. injection Hy as <-. done.
      * replace (2 * pos + 2)%nat with (2 * pos + 1 + 1)%nat in Hy by lia.
        rewrite Hr in Hy. injection Hy as <-. apply lt_irrefl.
  - exists l. split; [done|]. split; [left; done|].
    intros c y [->| ->] Hy.
    + rewrite Hl in Hy. injection Hy as <-. apply lt_irrefl.
    + replace (2 * pos + 2)%nat with (2 * pos + 1 + 1)%nat in Hy by lia.
      congruence.
Qed.

Lemma hole_down (h : list A) pos c' v :
  hole_ok lt h pos -> child pos c' -> h !! c' = Some v -> above lt h pos v ->
  hole_ok lt (<[pos := v]> h) c'.
Proof.
  intros [Ha Hc] Hc' Hv Hab. pose proof (child_gt _ _ Hc') as Hgt. split.
  - intros i c Hic Hi Hcn a b Hia Hcb.
    apply list_lookup_insert_Some in Hia as [(<- & <- & _)|[Hne Hia]];
      apply list_lookup_insert_Some in Hcb as [(E & <- & _)|[Hne' Hcb]].
    + apply child_gt in Hic. lia.
    + by apply (Hab c).
    + subst c. apply (Hc i c' Hic Hc'); auto.
    + apply (Ha i c); auto.
  - intros g c Hg Hcc a b Hga Hcb.
    assert (g = pos) as -> by (apply child_parent in Hg, Hc'; congruence).
    pose proof (child_gt _ _ Hcc).
    apply list_lookup_insert_Some in Hga as [(_ & <- & _)|[? _]]; [|done].
    apply list_lookup_insert_Some in Hcb as [(E & _)|[_ Hcb]]; [lia|].
    apply (Ha c' c); auto; lia.
Qed.

Lemma siftup_loop_spec fuel : forall (h : list A) pos h' pos',
  (length h <= fuel + pos)%nat -> (pos < length h)%nat -> hole_ok lt h pos ->
  heapq.siftup_loop lt fuel h pos = (h', pos') ->
  hole_ok lt h' pos' /\ (pos' < length h')%nat
  /\ (length h' <= 2 * pos' + 1)%nat /\ length h' = length h
  /\ forall x, <[pos' := x]> h' ≡ₚ <[pos := x]> h.
Proof.
  induction fuel as [|fuel IH]; intros h pos h' pos' Hf Hlen Hh; [simpl in Hf; lia|].
  rewrite siftup_loop_S.
  destruct (2 * pos + 1 <? length h)%nat eqn:Hc.
  - apply Nat.ltb_lt in Hc.
    destruct (smaller_child_spec h pos Hc) as (v & Hv & Hch & Hab).
    rewrite Hv. intros Hrun. pose proof (child_gt _ _ Hch) as Hgt.
    pose proof (lookup_lt_Some _ _ _ Hv) as Hlt.
    apply IH in Hrun as (H1 & H2 & H3 & H4 & H5).
    + rewrite length_insert in H4.
      split; [done|]. split; [done|]. split; [done|]. split; [done|].
      intros x. rewrite H5.
      rewrite <- (list_insert_insert_eq h pos v x) at 1.
      apply Permutation_insert_swap.
      * by apply list_lookup_insert_eq.
      * rewrite list_lookup_insert_ne by lia. done.
    + rewrite length_insert. lia.
    + by rewrite length_insert.
    + by apply hole_down.
  - apply Nat.ltb_ge in Hc. intros [= <- <-].
    split; [done|]. split; [done|]. split; [done|]. split; done.
Qed.

Lemma hole_ok_insert (h : list A) pos x :
  hole_ok lt h pos -> hole_ok lt (<[pos := x]> h) pos.
Proof.
  intros [Ha Hc]. split.
  - intros i c Hic Hi Hcn a b Hia Hcb.
    rewrite list_lookup_insert_ne in Hia, Hcb by done. by apply (Ha i c).
  - intros g c Hg Hcc a b Hga Hcb.
    pose proof (child_gt _ _ Hg). pose proof (child_gt _ _ Hcc).
    rewrite list_lookup_insert_ne in Hga, Hcb by lia. by apply (Hc g c).
Qed.

Lemma heap_ok_hole (h : list A) pos : heap_ok lt h -> hole_ok lt h pos.
Proof.
  intros H. split.
  - intros i c Hic _ _. by apply H.
  - intros g c Hg Hc a b Ha Hb.
    destruct (h !! pos) as [p|] eqn:Hp.
    + apply le_trans with p; [by apply (H g pos)|by apply (H pos c)].
    + apply child_gt in Hc. apply lookup_ge_None in Hp.
      apply lookup_lt_Some in Hb. lia.
Qed.

Lemma heap_ok_app (h : list A) x : heap_ok lt h -> hole_ok lt (h ++ [x]) (length h).
Proof.
  intros H. split.
  - intros i c Hic Hi Hcn a b Ha Hb.
    pose proof (lookup_lt_Some _ _ _ Ha) as La.
    pose proof (lookup_lt_Some _ _ _ Hb) as Lb.
    rewrite length_app in La, Lb. simpl in La, Lb.
    rewrite lookup_app_l in Ha, Hb by lia. by apply (H i c).
  - intros g c Hg Hc a b Ha Hb.
    apply child_gt in Hc. apply lookup_lt_Some in Hb.
    rewrite length_app in Hb. simpl in Hb. lia.
Qed.

Lemma heappush_spec (h : list A) x :
  heap_ok lt h -> heap_ok lt (heapq.heappush lt h x) /\ heapq.heappush lt h x ≡ₚ x :: h.
Proof.
  intros H. unfold heapq.heappush, heapq._siftdown.
  assert ((h ++ [x]) !! length h = Some x) as -> by apply list_lookup_middle, eq_refl.
  assert (<[length h := x]> (h ++ [x]) = h ++ [x]) as Hid.
  { apply list_insert_id. apply list_lookup_middle, eq_refl. }
  split.
  - apply siftdown_loop_heap; [lia|by apply heap_ok_app|].
    intros c y Hc Hy. apply child_gt in Hc. apply lookup_lt_Some in Hy.
    rewrite length_app in Hy. simpl in Hy. lia.
  - rewrite siftdown_loop_perm by (rewrite length_app; simpl; lia).
    rewrite Hid. by rewrite Permutation_app_comm.
Qed.

Lemma heap_root_min (h : list A) x :
  heap_ok lt h -> h !! 0%nat = Some x ->
  forall i y, h !! i = Some y -> lt y x = false.
Proof.
  intros H Hx i. induction i as [i IH] using lt_wf_ind. intros y Hy.
  destruct i as [|i].
  - rewrite Hx in Hy. injection Hy as <-. apply lt_irrefl.
  - pose proof (parent_child (S i) ltac:(lia)) as Hp.
    pose proof (child_gt _ _ Hp) as Hgt.
    destruct (lookup_lt_is_Some_2 h ((S i - 1) / 2)%nat) as [p Hpv].
    { apply lookup_lt_Some in Hy. lia. }
    apply le_trans with p; [by apply (IH _ Hgt)|by apply (H _ _ Hp)].
Qed.

Lemma heap_ok_removelast (h : list A) : heap_ok lt h -> heap_ok lt (removelast h).
Proof.
  intros H i c Hic a b Ha Hb.
  rewrite removelast_firstn_len in Ha, Hb.
  apply lookup_take_Some in Ha as [Ha _]. apply lookup_take_Some in Hb as [Hb _].
  by apply (H i c).
Qed.

Lemma last_removelast (h : list A) x : last h = Some x -> h = removelast h ++ [x].
Proof.
  intros Hl. destruct h as [|a h] using rev_ind; [done|].
  rewrite last_snoc in Hl. injection Hl as ->.
  by rewrite removelast_last.
Qed.

Lemma siftup_root_spec (x : A) (tl : list A) :
  hole_ok lt (x :: tl) 0 ->
  heap_ok lt (heapq._siftup lt (x :: tl) 0)
  /\ heapq._siftup lt (x :: tl) 0 ≡ₚ x :: tl.
Proof.
  intros Hh. unfold heapq._siftup.
  change ((x :: tl) !! 0%nat) with (Some x).
  destruct (heapq.siftup_loop lt (length (x :: tl)) (x :: tl) 0)
    as [h1 pos1] eqn:Hrun.
  apply siftup_loop_spec in Hrun as (H1 & H2 & H3 & H4 & H5);
    [|lia|simpl; lia|done].
  unfold heapq._siftdown. rewrite list_lookup_insert_eq by done. split.
  - apply siftdown_loop_heap; [lia|by apply hole_ok_insert|].
    intros c y Hc Hy. apply lookup_lt_Some in Hy.
    rewrite length_insert in Hy. unfold child in Hc. lia.
  - rewrite siftdown_loop_perm by (by rewrite length_insert).
    by rewrite list_insert_insert_eq, H5.
Qed.

Lemma heappop_spec (h h' : list A) x :
  heap_ok lt h -> heapq.heappop lt h = Some (x, h') ->
  heap_ok lt h' /\ h ≡ₚ x :: h' /\ forall y, y ∈ h -> lt y x = false.
Proof.
  intros H. unfold heapq.heappop.
  destruct (last h) as [lastelt|] eqn:Hl; [|done].
  pose proof (last_removelast h lastelt Hl) as Hh.
  pose proof (heap_ok_removelast h H) as H0.
  destruct (removelast h) as [|ret tl] eqn:Hr.
  - intros [= <- <-]. simpl in Hh. subst h. split; [|split; [done|]].
    + intros i c Hc a b Ha. by rewrite lookup_nil in Ha.
    + intros y Hy. apply list_elem_of_singleton in Hy as ->. apply lt_irrefl.
  - intros [= <- <-].
    change (<[0%nat:=lastelt]> (ret :: tl)) with (lastelt :: tl).
    destruct (siftup_root_spec lastelt tl) as [Hok Hperm].
    { apply (hole_ok_insert (ret :: tl) 0 lastelt). by apply heap_ok_hole. }
    split; [done|]. split.
    + rewrite Hperm, Hh. rewrite <- Permutation_cons_append. apply perm_swap.
    + intros y Hy. apply list_elem_of_lookup in Hy as [i Hi].
      apply (heap_root_min h ret H) with i; [|done].
      by rewrite Hh.
Qed.

Lemma heappop_None (h : list A) : heapq.heappop lt h = None <-> h = [].
Proof.
  unfold heapq.heappop. split.
  - destruct (last h) eqn:E; [by destruct (removelast h)|]. intros _. by apply last_None.
  - by intros ->.
Qed.
End HeapProofs.

(** *** Scheduler *)
Section SchedulerProofs.
Import ThreadPool.

Lemma value_inj (p q : TaskPriority) : value p = value q -> p = q.
Proof. by destruct p, q. Qed.

Lemma not_lt_before (x y : Task) : __lt__ y x = false <-> before x y.
Proof.
  unfold __lt__, before, Qltb.
  destruct (value (priority y) =? value (priority x))%Z eqn:E.
  - apply Z.eqb_eq in E. rewrite negb_false_iff, Qle_bool_iff. split.
    + intros H. right. split; [by apply value_inj|done].
    + intros [H|[_ H]]; [lia|done].
  - apply Z.eqb_neq in E. rewrite Z.ltb_ge. split.
    + intros H. left. lia.
    + intros [H|[H _]]; [lia|]. by rewrite H in E.
Qed.

Lemma task_lt_asym (x y : Task) : __lt__ x y = true -> __lt__ y x = false.
Proof.
  intros H. apply not_lt_before.
  unfold __lt__, before, Qltb in *.
  destruct (value (priority x) =? value (priority y))%Z eqn:E.
  - apply Z.eqb_eq, value_inj in E. right. split; [done|].
    apply negb_true_iff in H.
    destruct (Qle_bool (created_at x) (created_at y)) eqn:L.
    + by apply Qle_bool_iff.
    + destruct (Qlt_le_dec (created_at y) (created_at x)) as [G|G].
      * apply Qlt_le_weak in G. apply Qle_bool_iff in G. congruence.
      * apply Qle_bool_iff in G. congruence.
  - left. by apply Z.ltb_lt in H.
Qed.

Lemma task_le_trans (x y z : Task) :
  __lt__ y x = false -> __lt__ z y = false -> __lt__ z x = false.
Proof.
  rewrite !not_lt_before. unfold before.
  intros [H1|[E1 L1]] [H2|[E2 L2]].
  - left. lia.
  - left. by rewrite <- E2.
  - left. by rewrite E1.
  - right. split; [congruence|]. by apply Qle_trans with (created_at y).
Qed.

Lemma put_spec (q : list Task) (t : Task) :
  heap_ok __lt__ q -> heap_ok __lt__ (put q t) /\ put q t ≡ₚ t :: q.
Proof. apply heappush_spec; [apply task_lt_asym|apply task_le_trans]. Qed.

Lemma get_spec (q q' : list Task) (t : Task) :
  heap_ok __lt__ q -> get q = Some (t, q') ->
  heap_ok __lt__ q' /\ q ≡ₚ t :: q' /\ forall u, u ∈ q -> before t u.
Proof.
  intros H G.
  destruct (heappop_spec __lt__ task_lt_asym task_le_trans q q' t H G)
    as (H1 & H2 & H3).
  split; [done|]. split; [done|]. intros u Hu. apply not_lt_before. auto.
Qed.

Lemma execute_task_active (task : Task) (st : stats) :
  active_tasks (_execute_task task st) = (active_tasks st - 1)%Z.
Proof.
  unfold _execute_task. destruct (func task) as [|e]; [done|].
  by destruct (is_Exception e).
Qed.

Lemma step_inv (s : state) (o : op) : scheduler_inv s -> scheduler_inv (step s o).
Proof.
  intros (Hs & Hq & Ha). destruct o as [f p i now| |k]; simpl.
  - unfold submit. rewrite Hs. simpl. split; [done|]. split; [|done].
    by apply put_spec.
  - unfold _dispatch_tasks. rewrite Hs.
    destruct (get (_task_queue s)) as [[t q']|] eqn:G; simpl; [|done].
    apply get_spec in G as (G1 & _ & _); [|done].
    split; [done|]. split; [done|]. simpl. rewrite length_app. simpl. lia.
  - unfold finish. destruct (_executor s !! k) as [t|] eqn:E; [|done].
    split; [done|]. split; [done|]. cbn [_stats _executor].
    rewrite execute_task_active, Ha.
    rewrite length_delete by eauto. apply lookup_lt_Some in E. lia.
Qed.

Lemma run_app (ops1 ops2 : list op) (s : state) :
  run (ops1 ++ ops2) s = run ops2 (run ops1 s).
Proof. unfold run. apply fold_left_app. Qed.

Lemma run_inv (ops : list op) (s : state) : scheduler_inv s -> scheduler_inv (run ops s).
Proof.
  revert s. induction ops as [|o ops IH]; intros s H; [done|].
  simpl. apply IH. by apply step_inv.
Qed.

Lemma init_inv : scheduler_inv init.
Proof.
  split; [done|]. split; [|done]. intros i c _ a b Ha.
  simpl in Ha. by rewrite lookup_nil in Ha.
Qed.

Lemma dispatch_Some (s s' : state) (t : Task) :
  scheduler_inv s -> _dispatch_tasks s = (Some t, s') ->
  scheduler_inv s'
  /\ _task_queue s ≡ₚ t :: _task_queue s'
  /\ (forall u, u ∈ _task_queue s -> before t u)
  /\ _executor s' = _executor s ++ [t]
  /\ active_tasks (_stats s') = (active_tasks (_stats s) + 1)%Z.
Proof.
  intros Hi. pose proof (step_inv s Dispatch Hi) as Hi'. simpl in Hi'.
  destruct Hi as (Hs & Hq & Ha). revert Hi'.
  unfold _dispatch_tasks. rewrite Hs.
  destruct (get (_task_queue s)) as [[t' q']|] eqn:G; [|done].
  intros Hi' [= <- <-]. simpl in *.
  apply get_spec in G as (G1 & G2 & G3); done.
Qed.

Lemma dispatch_None (s s' : state) :
  scheduler_inv s -> _dispatch_tasks s = (None, s') -> _task_queue s = [].
Proof.
  intros (Hs & _ & _). unfold _dispatch_tasks. rewrite Hs.
  destruct (get (_task_queue s)) as [[t' q']|] eqn:G; [done|].
  intros _. by apply heappop_None in G.
Qed.

Lemma dispatched_sorted (n : nat) : forall s,
  scheduler_inv s ->
  StronglySorted before (dispatched n s)
  /\ forall t, t ∈ dispatched n s -> t ∈ _task_queue s.
Proof.
  induction n as [|n IH]; intros s Hi; simpl.
  - split; [constructor|]. intros t Ht. by apply elem_of_nil in Ht.
  - destruct (_dispatch_tasks s) as [[t|] s'] eqn:D.
    + apply dispatch_Some in D as (Hi' & Hp & Hmin & _); [|done].
      destruct (IH s' Hi') as [Hs Hin]. split.
      * constructor; [done|]. apply Forall_forall. intros u Hu.
        apply Hmin. rewrite Hp. right. auto.
      * intros u Hu. rewrite Hp. apply elem_of_cons in Hu as [->|Hu]; [left|right; auto].
    + split; [constructor|]. intros t Ht. by apply elem_of_nil in Ht.
Qed.

Lemma dispatched_all (n : nat) : forall s,
  scheduler_inv s -> n = length (_task_queue s) ->
  dispatched n s ≡ₚ _task_queue s.
Proof.
  induction n as [|n IH]; intros s Hi Hn; simpl.
  - symmetry in Hn. apply length_zero_iff_nil in Hn. by rewrite Hn.
  - destruct (_dispatch_tasks s) as [[t|] s'] eqn:D.
    + apply dispatch_Some in D as (Hi' & Hp & _); [|done].
      rewrite Hp. constructor. apply IH; [done|].
      apply Permutation_length in Hp. simpl in Hp. lia.
    + apply dispatch_None in D; [|done]. rewrite D in Hn. done.
Qed.
End SchedulerProofs.

Section SchedulerRuns.
Import ThreadPool.

Lemma run_submits (subs : list (result unit * TaskPriority * nat * Q)) : forall s,
  scheduler_inv s ->
  let s' := run (map submit_op subs) s in
  scheduler_inv s'
  /\ length (_task_queue s') = (length (_task_queue s) + length subs)%nat
  /\ _executor s' = _executor s
  /\ total_tasks (_stats s') = (total_tasks (_stats s) + Z.of_nat (length subs))%Z.
Proof.
  induction subs as [|[[[f p] i] now] subs IH]; intros s Hi; simpl.
  - split; [done|]. split; [lia|]. split; [done|lia].
  - pose proof (step_inv s (Submit f p i now) Hi) as Hi'.
    destruct (IH _ Hi') as (H1 & H2 & H3 & H4).
    split; [done|]. simpl in H2, H3, H4. rewrite H2, H3, H4.
    destruct Hi as (Hs & Hq & _). unfold submit. rewrite Hs. simpl.
    pose proof (put_spec (_task_queue s) (Build_Task i f p now) Hq) as [_ Hp].
    apply Permutation_length in Hp. simpl in Hp. rewrite Hp.
    split; [lia|]. split; [done|lia].
Qed.

Lemma run_serve_all (n : nat) : forall s,
  scheduler_inv s -> _executor s = [] -> length (_task_queue s) = n ->
  let s' := run (serve_all n) s in
  scheduler_inv s' /\ _task_queue s' = [] /\ _executor s' = []
  /\ total_tasks (_stats s') = total_tasks (_stats s).
Proof.
  induction n as [|n IH]; intros s Hi He Hn; simpl.
  - split; [done|]. split; [by apply length_zero_iff_nil|done].
  - destruct (_dispatch_tasks s) as [[t|] s1] eqn:D.
    + pose proof D as D'.
      apply dispatch_Some in D as (Hi1 & Hp & _ & He1 & _); [|done].
      rewrite He in He1. simpl in He1.
      assert (finish 0 s1 = State (_shutdown s1) (_task_queue s1) []
                                  (_execute_task t (_stats s1))) as Hf.
      { unfold finish. by rewrite He1. }
      pose proof (step_inv s1 (Finish 0) Hi1) as Hi2. simpl in Hi2.
      rewrite Hf in Hi2. cbn [snd]. rewrite Hf.
      destruct (IH _ Hi2) as (H1 & H2 & H3 & H4); [done| |].
      * simpl. apply Permutation_length in Hp. simpl in Hp. lia.
      * split; [done|]. split; [done|]. split; [done|].
        rewrite H4. clear -D' Hi. destruct Hi as (Hs & _ & _).
        unfold _dispatch_tasks in D'. rewrite Hs in D'.
        destruct (get (_task_queue s)) as [[t' q']|]; [|done].
        injection D' as <- <-. simpl. unfold _execute_task. simpl.
        destruct (func t') as [|e]; [done|]. by destruct (is_Exception e).
    + apply dispatch_None in D; [|done]. by rewrite D in Hn.
Qed.
End SchedulerRuns.

(** C5. In every state a running scheduler can reach, the task that the
    dispatcher draws is one of the queued tasks, no queued task has a higher
    priority, and none of the same priority has an earlier [created_at]; the
    rest stays queued. A non-empty queue always yields a task, consecutive
    draws come out in (priority descending, created_at ascending) order and
    drain the whole queue. Priorities LOW, HIGH, LOW, CRITICAL, MEDIUM
    submitted in this order are handed over as CRITICAL, HIGH, MEDIUM, LOW,
    LOW, the first LOW before the second. *)
Theorem scheduler_draws_in_priority_order (ops : list ThreadPool.op) (n : nat) :
  let s := ThreadPool.run ops ThreadPool.init in
  (forall task s', ThreadPool._dispatch_tasks s = (Some task, s') ->
     task ∈ ThreadPool._task_queue s
     /\ (forall u, u ∈ ThreadPool._task_queue s -> ThreadPool.before task u)
     /\ ThreadPool._task_queue s ≡ₚ task :: ThreadPool._task_queue s')
  /\ (ThreadPool._task_queue s <> [] ->
      exists task s', ThreadPool._dispatch_tasks s = (Some task, s'))
  /\ StronglySorted ThreadPool.before (ThreadPool.dispatched n s)
  /\ ThreadPool.dispatched (length (ThreadPool._task_queue s)) s
       ≡ₚ ThreadPool._task_queue s
  /\ map (fun t => (ThreadPool.priority t, ThreadPool.id t))
         (ThreadPool.dispatched 5
            (ThreadPool.run (map submit_op five_tasks) ThreadPool.init))
     = [(ThreadPool.CRITICAL, 4%nat); (ThreadPool.HIGH, 2%nat);
        (ThreadPool.MEDIUM, 5%nat); (ThreadPool.LOW, 1%nat);
        (ThreadPool.LOW, 3%nat)].
Proof.
  intros s. pose proof (run_inv ops _ init_inv) as Hi. fold s in Hi.
  split; [|split; [|split; [|split]]].
  - intros task s' D. apply dispatch_Some in D as (_ & Hp & Hmin & _); [|done].
    split; [|done]. rewrite Hp. apply elem_of_cons. by left.
  - intros Hne. destruct (ThreadPool._dispatch_tasks s) as [[t|] s'] eqn:D; [eauto|].
    by apply dispatch_None in D.
  - by apply dispatched_sorted.
  - by apply dispatched_all.
  - vm_compute. reflexivity.
Qed.

(** C8. In every state reached by any interleaving of submissions,
    dispatcher rounds and task completions, [active_tasks] is the number of
    tasks handed to the executor and not yet finished: a hand-over adds the
    task and 1, and [_execute_task] takes 1 off whether the payload returns,
    raises an [Exception] or raises past the handler. So the counter is 0
    whenever no handed-over task is outstanding, and after any list of
    submissions has been dispatched and run to the end it is 0 with both
    queues empty. *)
Theorem active_tasks_balanced (ops : list ThreadPool.op)
    (subs : list (result unit * ThreadPool.TaskPriority * nat * Q)) :
  let s := ThreadPool.run ops ThreadPool.init in
  ThreadPool.active_tasks (ThreadPool._stats s)
    = Z.of_nat (length (ThreadPool._executor s))
  /\ (forall task s', ThreadPool._dispatch_tasks s = (Some task, s') ->
        ThreadPool._executor s' = ThreadPool._executor s ++ [task]
        /\ ThreadPool.active_tasks (ThreadPool._stats s')
           = (ThreadPool.active_tasks (ThreadPool._stats s) + 1)%Z)
  /\ (forall task st,
        ThreadPool.active_tasks (ThreadPool._execute_task task st)
        = (ThreadPool.active_tasks st - 1)%Z)
  /\ (ThreadPool._executor s = [] ->
      ThreadPool.active_tasks (ThreadPool._stats s) = 0%Z)
  /\ let done := ThreadPool.run (map submit_op subs ++ serve_all (length subs))
                                ThreadPool.init in
     ThreadPool._task_queue done = [] /\ ThreadPool._executor done = []
     /\ ThreadPool.total_tasks (ThreadPool._stats done) = Z.of_nat (length subs)
     /\ ThreadPool.active_tasks (ThreadPool._stats done) = 0%Z.
Proof.
  intros s. pose proof (run_inv ops _ init_inv) as Hi. fold s in Hi.
  split; [apply Hi|]. split; [|split; [|split]].
  - intros task s' D. by apply dispatch_Some in D as (_ & _ & _ & ? & ?).
  - apply execute_task_active.
  - intros He. destruct Hi as (_ & _ & ->). by rewrite He.
  - intros done. unfold done. rewrite run_app.
    destruct (run_submits subs _ init_inv) as (H1 & H2 & H3 & H4).
    destruct (run_serve_all (length subs) _ H1 H3 H2) as (G1 & G2 & G3 & G4).
    split; [done|]. split; [done|]. split; [rewrite G4, H4; simpl; lia|].
    destruct G1 as (_ & _ & ->). by rewrite G3.
Qed.

(** *** Alert router *)
Section AlertProofs.
Import MemoryMonitor MemoryAlertManager.
Context (now last : Q) (stats : MemoryStats) (level : MemoryAlertLevel).

Lemma due_true (c : AlertConfig) :
  due now last c = true <->
  enabled c = true /\ (cooldown_period c <= now - last)%Q.
Proof.
  unfold due, Qltb. rewrite andb_true_iff, negb_involutive, Qle_bool_iff. done.
Qed.

Lemma due_false_cooldown (c : AlertConfig) :
  (now - last < cooldown_period c)%Q -> due now last c = false.
Proof.
  intros H. destruct (due now last c) eqn:E; [|done].
  apply due_true in E as [_ E]. lra.
Qed.

Lemma due_positions_elem (configs : list AlertConfig) : forall i j,
  j ∈ due_positions now last configs i <->
  (i <= j)%nat /\ exists c, configs !! (j - i)%nat = Some c /\ due now last c = true.
Proof.
  induction configs as [|c rest IH]; intros i j; simpl.
  - split; [intros H; by apply elem_of_nil in H|]. by intros (_ & c & H & _).
  - assert (Hrest : j ∈ due_positions now last rest (S i) <->
              (i < j)%nat /\ exists c', (c :: rest) !! (j - i)%nat = Some c'
                                        /\ due now last c' = true).
    { rewrite IH. split.
      - intros (Hle & c' & Hc' & Hd). split; [lia|]. exists c'. split; [|done].
        replace (j - i)%nat with (S (j - S i)) by lia. done.
      - intros (Hlt & c' & Hc' & Hd). split; [lia|]. exists c'. split; [|done].
        replace (j - i)%nat with (S (j - S i)) in Hc' by lia. done. }
    destruct (due now last c) eqn:Hd.
    + rewrite elem_of_cons, Hrest. split.
      * intros [->|(Hlt & H)]; [|split; [lia|done]].
        split; [lia|]. exists c. by rewrite Nat.sub_diag.
      * intros (Hle & H). destruct (decide (j = i)) as [->|Hne]; [by left|].
        right. split; [lia|done].
    + rewrite Hrest. split.
      * intros (Hlt & H). split; [lia|done].
      * intros (Hle & c' & Hc' & Hd'). split; [|by exists c'].
        destruct (decide (j = i)) as [->|Hne]; [|lia].
        rewrite Nat.sub_diag in Hc'. simpl in Hc'. congruence.
Qed.

Lemma due_positions_NoDup (configs : list AlertConfig) : forall i,
  List.NoDup (due_positions now last configs i).
Proof.
  induction configs as [|c rest IH]; intros i; simpl; [constructor|].
  destruct (due now last c); [|done]. constructor; [|done].
  rewrite <- list_elem_of_In, due_positions_elem. lia.
Qed.

Lemma rules_loop_spec (configs : list AlertConfig) : forall i d self r self',
  rules_loop now last stats level configs i d self = (Return r, self') ->
  r = d ++ due_positions now last configs i
  /\ _alert_configs self' = _alert_configs self
  /\ (_last_alert_times self' = _last_alert_times self
      \/ _last_alert_times self' = <[level := now]> (_last_alert_times self))
  /\ ((exists c, c ∈ configs /\ due now last c = true
                 /\ execute stats level c = Return tt) ->
      _last_alert_times self' !! level = Some now)
  /\ (due_positions now last configs i = [] -> self' = self).
Proof.
  induction configs as [|c rest IH]; intros i d self r self'; simpl.
  - intros [= <- <-]. rewrite app_nil_r. split; [done|]. split; [done|].
    split; [by left|]. split; [|done]. intros (c & Hc & _). by apply elem_of_nil in Hc.
  - unfold due. destruct (enabled c) eqn:He; simpl.
    + destruct (Qltb (now - last) (cooldown_period c)) eqn:Hc; simpl.
      * intros H. apply IH in H as (H1 & H2 & H3 & H4 & H5).
        split; [done|]. split; [done|]. split; [done|]. split; [|done].
        intros (c' & Hin & Hd & Hx). apply H4. exists c'.
        apply elem_of_cons in Hin as [->|Hin]; [|done].
        unfold due in Hd. by rewrite He, Hc in Hd.
      * destruct (execute stats level c) as [[]|e] eqn:Hx.
        -- intros H. apply IH in H as (H1 & H2 & H3 & H4 & H5).
           split; [by rewrite H1, <- app_assoc|]. split; [done|].
           assert (_last_alert_times self' = <[level:=now]> (_last_alert_times self)) as Hl.
           { destruct H3 as [-> | ->]; [done|]. simpl. by rewrite insert_insert_eq. }
           split; [by right|]. split; [|done].
           intros _. rewrite Hl. by rewrite lookup_insert_eq.
        -- destruct (is_Exception e); [|done].
           intros H. apply IH in H as (H1 & H2 & H3 & H4 & H5).
           split; [by rewrite H1, <- app_assoc|]. split; [done|].
           split; [done|]. split; [|done].
           intros (c' & Hin & Hd & Hx'). apply H4. exists c'.
           apply elem_of_cons in Hin as [->|Hin]; [congruence|done].
    + intros H. apply IH in H as (H1 & H2 & H3 & H4 & H5).
      split; [done|]. split; [done|]. split; [done|]. split; [|done].
      intros (c' & Hin & Hd & Hx). apply H4. exists c'.
      apply elem_of_cons in Hin as [->|Hin]; [|done].
      unfold due in Hd. by rewrite He in Hd.
Qed.
End AlertProofs.

Section AlertCooldown.
Import MemoryMonitor MemoryAlertManager.

Lemma handle_alert_spec now stats level self r self' :
  _handle_alert now stats level self = (Return r, self') ->
  exists last configs,
    _last_alert_times self !! level = Some last
    /\ _alert_configs self !! level = Some configs
    /\ r = due_positions now last configs 0
    /\ _alert_configs self' = _alert_configs self
    /\ (_last_alert_times self' = _last_alert_times self
        \/ _last_alert_times self' = <[level := now]> (_last_alert_times self))
    /\ ((exists c, c ∈ configs /\ due now last c = true
                   /\ execute stats level c = Return tt) ->
        _last_alert_times self' !! level = Some now)
    /\ (r = [] -> self' = self).
Proof.
  unfold _handle_alert.
  destruct (_last_alert_times self !! level) as [last|] eqn:Hl; [|done].
  destruct (_alert_configs self !! level) as [configs|] eqn:Hc; [|done].
  intros H. apply rules_loop_spec in H as (H1 & H2 & H3 & H4 & H5).
  exists last, configs. simpl in H1. subst r. done.
Qed.

(** C7, as amended. Three alerts of one level arrive at times [t1], [t2],
    [t3], and [r] is an enabled rule of that level, at position [i], whose
    action returns and whose cooldown has passed at [t1]. If [t2] is within
    [r]'s cooldown of [t1], then [r] is dispatched exactly once over the
    first two alerts; the level's timestamp is [t1] after the first alert,
    so the second alert dispatches no rule whose own cooldown exceeds
    [t2 - t1] (none at all, and without changing the router, when that is
    every rule of the level) and no disabled rule, and it does dispatch
    every enabled rule whose cooldown is at most [t2 - t1]; and if [t3] is at least [r]'s cooldown
    after the level's timestamp, the third alert dispatches [r] again. *)
Theorem alert_cooldown_per_level
    (level : MemoryAlertLevel) (rules : list AlertConfig) (i : nat)
    (r : AlertConfig) (last0 t1 t2 t3 : Q) (st1 st2 st3 : MemoryStats)
    (s s1 s2 s3 : MemoryAlertManager.state) (d1 d2 d3 : list nat) :
  _alert_configs s !! level = Some rules ->
  _last_alert_times s !! level = Some last0 ->
  rules !! i = Some r ->
  enabled r = true ->
  execute st1 level r = Return tt ->
  (cooldown_period r <= t1 - last0)%Q ->
  _handle_alert t1 st1 level s = (Return d1, s1) ->
  _handle_alert t2 st2 level s1 = (Return d2, s2) ->
  _handle_alert t3 st3 level s2 = (Return d3, s3) ->
  (t2 - t1 < cooldown_period r)%Q ->
  (exists last2, _last_alert_times s2 !! level = Some last2
                 /\ (cooldown_period r <= t3 - last2)%Q) ->
  count_occ Nat.eq_dec (d1 ++ d2) i = 1%nat
  /\ _last_alert_times s1 !! level = Some t1
  /\ (forall j r', rules !! j = Some r' ->
        (t2 - t1 < cooldown_period r')%Q -> j ∉ d2)
  /\ (forall j r', rules !! j = Some r' -> enabled r' = false -> j ∉ d2)
  /\ (forall j r', rules !! j = Some r' -> enabled r' = true ->
        (cooldown_period r' <= t2 - t1)%Q -> j ∈ d2)
  /\ ((forall r', r' ∈ rules -> (t2 - t1 < cooldown_period r')%Q) ->
      d2 = [] /\ s2 = s1)
  /\ i ∈ d3.
Proof.
  intros Hrules Hlast Hi Hen Hex Hdue1 H1 H2 H3 Hin (last2 & Hl2 & Hdue3).
  apply handle_alert_spec in H1
    as (l1 & c1 & Hl1 & Hc1 & -> & Hcfg1 & _ & Hset1 & _).
  rewrite Hlast in Hl1. injection Hl1 as <-.
  rewrite Hrules in Hc1. injection Hc1 as <-.
  assert (_last_alert_times s1 !! level = Some t1) as Hs1.
  { apply Hset1. exists r. split; [by eapply list_elem_of_lookup_2|].
    split; [|done]. by apply due_true. }
  apply handle_alert_spec in H2
    as (l2 & c2 & Hl2' & Hc2 & -> & Hcfg2 & _ & _ & Hsame2).
  rewrite Hs1 in Hl2'. injection Hl2' as <-.
  rewrite Hcfg1, Hrules in Hc2. injection Hc2 as <-.
  apply handle_alert_spec in H3 as (l3 & c3 & Hl3 & Hc3 & -> & _).
  rewrite Hl2 in Hl3. injection Hl3 as <-.
  rewrite Hcfg2, Hcfg1, Hrules in Hc3. injection Hc3 as <-.
  assert (forall j r', rules !! j = Some r' ->
            (t2 - t1 < cooldown_period r')%Q ->
            j ∉ due_positions t2 t1 rules 0) as Hsup.
  { intros j r' Hj Hlt Hel. apply due_positions_elem in Hel as (_ & c & Hc & Hd).
    rewrite Nat.sub_0_r, Hj in Hc. injection Hc as <-.
    by rewrite due_false_cooldown in Hd. }
  assert (i ∈ due_positions t1 last0 rules 0) as Hi1.
  { apply due_positions_elem. split; [lia|]. exists r.
    rewrite Nat.sub_0_r. split; [done|]. by apply due_true. }
  split; [|split; [done|split; [done|split; [|split; [|split]]]]].
  - rewrite count_occ_app.
    pose proof (due_positions_NoDup t1 last0 rules 0) as Hnd.
    rewrite (NoDup_count_occ Nat.eq_dec) in Hnd. specialize (Hnd i).
    apply list_elem_of_In, (count_occ_In Nat.eq_dec) in Hi1.
    assert (count_occ Nat.eq_dec (due_positions t2 t1 rules 0) i = 0%nat) as ->.
    { apply count_occ_not_In. rewrite <- list_elem_of_In. by apply (Hsup i r). }
    lia.
  - intros j r' Hj Hen' Hel. apply due_positions_elem in Hel as (_ & c & Hc & Hd).
    rewrite Nat.sub_0_r, Hj in Hc. injection Hc as <-.
    apply due_true in Hd as [Hd _]. congruence.
  - intros j r' Hj Hen' Hle. apply due_positions_elem. split; [lia|].
    exists r'. rewrite Nat.sub_0_r. split; [done|]. by apply due_true.
  - intros Hall.
    assert (due_positions t2 t1 rules 0 = []) as Hnil.
    { destruct (due_positions t2 t1 rules 0) as [|j rest] eqn:E; [done|].
      assert (j ∈ due_positions t2 t1 rules 0) as Hj.
      { rewrite E. apply elem_of_cons. by left. }
      apply due_positions_elem in Hj as (_ & c & Hc & _).
      rewrite Nat.sub_0_r in Hc. exfalso.
      apply (Hsup j c Hc); [|apply elem_of_cons; by left].
      apply Hall. by eapply list_elem_of_lookup_2. }
    split; [done|]. by apply Hsame2.
  - apply due_positions_elem. split; [lia|]. exists r.
    rewrite Nat.sub_0_r. split; [done|]. by apply due_true.
Qed.

(** One e-mail rule with a cooldown of 300 s; alerts at 1000 s, 1001 s and
    1301 s: dispatched, suppressed, dispatched. *)
Lemma alert_cooldown_per_level_witness :
  let a1 := _handle_alert 1000 (sample 75) WARNING router in
  let a2 := _handle_alert 1001 (sample 75) WARNING (snd a1) in
  let a3 := _handle_alert 1301 (sample 75) WARNING (snd a2) in
  fst a1 = Return [0%nat] /\ fst a2 = Return [] /\ fst a3 = Return [0%nat]
  /\ count_occ Nat.eq_dec ([0%nat] ++ []) 0%nat = 1%nat.
Proof.
  intros a1 a2 a3.
  split; [reflexivity|]. split; [reflexivity|]. split; [reflexivity|].
  refine (proj1 (alert_cooldown_per_level WARNING [email_rule] 0 email_rule
            0 1000 1001 1301 (sample 75) (sample 75) (sample 75)
            router (snd a1) (snd a2) (snd a3) [0%nat] [] [0%nat]
            _ _ _ _ _ _ _ _ _ _ _)).
  - reflexivity.
  - reflexivity.
  - reflexivity.
  - reflexivity.
  - reflexivity.
  - vm_compute. discriminate.
  - reflexivity.
  - reflexivity.
  - reflexivity.
  - reflexivity.
  - exists 1000%Q. split; [reflexivity|]. vm_compute. discriminate.
Defined.

(** C7 as stated fails: the second alert is not suppressed for every
    channel of the level. With an e-mail rule (cooldown 300 s) and a webhook
    rule (cooldown 60 s) on WARNING, the alert at 1100 s comes within the
    e-mail rule's cooldown of the alert at 1000 s and still dispatches the
    webhook: three channel dispatches over the two alerts, not one. *)
Lemma second_alert_not_suppressed_for_every_channel :
  let s := snd (add_alert_config WARNING webhook_rule router) in
  let a1 := _handle_alert 1000 (sample 75) WARNING s in
  let a2 := _handle_alert 1100 (sample 75) WARNING (snd a1) in
  (1100 - 1000 < cooldown_period email_rule)%Q
  /\ fst a1 = Return [0; 1]%nat
  /\ fst a2 = Return [1%nat]
  /\ fst a2 <> Return []
  /\ forall d1 d2, fst a1 = Return d1 -> fst a2 = Return d2 ->
       length (d1 ++ d2) <> 1%nat.
Proof.
  intros s a1 a2. split; [reflexivity|]. split; [reflexivity|].
  split; [reflexivity|]. split; [discriminate|].
  intros d1 d2 [= <-] [= <-]. simpl. discriminate.
Qed.
End AlertCooldown.

(** *** Collector monitor, thresholds, shutdown *)
Section Leaks.
Import GarbageCollectionMonitor.

Lemma Qgtb_true (x y : Q) : Qgtb x y = true <-> (y < x)%Q.
Proof.
  unfold Qgtb. rewrite negb_true_iff. split.
  - intros H. apply Qnot_le_lt. intros L. apply Qle_bool_iff in L. congruence.
  - intros H. destruct (Qle_bool x y) eqn:E; [|done].
    apply Qle_bool_iff in E. lra.
Qed.

Lemma consistent_growth_spec (rs : list snapshot) (i : nat) (curr : snapshot) (g : Q) :
  (i < length rs)%nat ->
  consistent_growth rs i curr g = true ->
  forall k e, (k + 2 <= i)%nat -> rs !! k = Some e -> (0 < total_size e)%Z ->
    (g < true_div (total_size curr) (total_size e))%Q.
Proof.
  intros Hi H k e Hk He Hpos. unfold consistent_growth in H.
  rewrite forallb_forall in H. specialize (H (i - k)%nat).
  assert (In (i - k)%nat (seq 2 (length rs - 2))) as Hin by (apply in_seq; lia).
  apply H in Hin.
  replace (i - (i - k))%nat with k in Hin by lia. rewrite He in Hin.
  assert ((i - k <=? i)%nat = true) as E by (apply Nat.leb_le; lia).
  rewrite E in Hin. apply Z.ltb_lt in Hpos. rewrite Hpos in Hin.
  by apply Qgtb_true.
Qed.

Lemma leak_at_spec (rs : list snapshot) (g : Q) (i : nat) (l : leak) :
  l ∈ leak_at rs g i ->
  exists prev curr,
    rs !! (i - 1)%nat = Some prev /\ rs !! i = Some curr
    /\ start_time l = timestamp prev /\ end_time l = timestamp curr
    /\ start_size l = total_size prev /\ end_size l = total_size curr
    /\ (0 < total_size prev)%Z
    /\ (g < true_div (total_size curr) (total_size prev))%Q
    /\ forall k e, (k + 2 <= i)%nat -> rs !! k = Some e -> (0 < total_size e)%Z ->
         (g < true_div (total_size curr) (total_size e))%Q.
Proof.
  unfold leak_at.
  destruct (rs !! (i - 1)%nat) as [prev|] eqn:Hp; [|by intros H; apply elem_of_nil in H].
  destruct (rs !! i) as [curr|] eqn:Hc; [|by intros H; apply elem_of_nil in H].
  destruct (0 <? total_size prev)%Z eqn:Hpos; [|by intros H; apply elem_of_nil in H].
  destruct (Qgtb (true_div (total_size curr) (total_size prev)) g) eqn:Hg;
    [|by intros H; apply elem_of_nil in H].
  destruct (consistent_growth rs i curr g) eqn:Hcg;
    [|by intros H; apply elem_of_nil in H].
  simpl. intros H. apply list_elem_of_singleton in H as ->. simpl.
  exists prev, curr. repeat (split; [done|]).
  split; [by apply Z.ltb_lt|]. split; [by apply Qgtb_true|].
  apply consistent_growth_spec; [|done]. by apply lookup_lt_Some in Hc.
Qed.

(** C6, as amended. With [min_snapshots = 3] and [growth_threshold = 1.1],
    sizes 100, 100, 100 give no candidate, and sizes 100, 115, 135 give two
    candidates, one per adjacent pair: 100 to 115 over the first minute and
    115 to 135 over the second. In general every candidate is an adjacent
    pair of the window whose later snapshot is larger than the threshold
    times every earlier snapshot of positive size in the window. *)
Theorem leak_candidates_per_adjacent_pair :
  detect_memory_leaks (window 100 100 100) 3 (11 # 10) = []
  /\ map (fun l => (start_time l, end_time l, start_size l, end_size l))
         (detect_memory_leaks (window 100 115 135) 3 (11 # 10))
     = [(0%Q, 60%Q, 100%Z, 115%Z); (60%Q, 120%Q, 115%Z, 135%Z)]
  /\ forall snaps min_snapshots growth_threshold l,
       l ∈ detect_memory_leaks snaps min_snapshots growth_threshold ->
       exists i prev curr,
         recent min_snapshots snaps !! i = Some prev
         /\ recent min_snapshots snaps !! S i = Some curr
         /\ start_time l = timestamp prev /\ end_time l = timestamp curr
         /\ start_size l = total_size prev /\ end_size l = total_size curr
         /\ forall k e, (k <= i)%nat -> recent min_snapshots snaps !! k = Some e ->
              (0 < total_size e)%Z ->
              (growth_threshold < true_div (total_size curr) (total_size e))%Q.
Proof.
  split; [reflexivity|]. split; [reflexivity|].
  intros snaps m g l. unfold detect_memory_leaks.
  destruct (Z.of_nat (length snaps) <? m)%Z; [by intros H; apply elem_of_nil in H|].
  intros H. apply list_elem_of_In, in_flat_map in H as (i & Hi & H).
  apply in_seq in Hi. apply list_elem_of_In, leak_at_spec in H
    as (prev & curr & Hp & Hc & H1 & H2 & H3 & H4 & Hpos & Hg & Hall).
  destruct i as [|i]; [lia|]. simpl in Hp. rewrite Nat.sub_0_r in Hp.
  exists i, prev, curr. repeat (split; [done|]).
  intros k e Hk He Hpe. destruct (decide (k = i)) as [->|Hne].
  - rewrite Hp in He. by injection He as <-.
  - apply (Hall k e); [lia|done|done].
Qed.

(** C6 as stated fails: sizes 100, 115, 135 do not give one candidate. *)
Lemma leak_example_not_one_candidate :
  length (detect_memory_leaks (window 100 115 135) 3 (11 # 10)) <> 1%nat.
Proof. vm_compute. discriminate. Qed.
End Leaks.

Section Thresholds.
Import MemoryMonitor.

(** Whenever a threshold is out of range, or the thresholds end up with
    critical not above warning, the call raises [ValueError]. *)
Lemma set_thresholds_rejects (warning critical : option Q) (self : state) :
  (exists w, warning = Some w /\ in_range w = false)
  \/ (exists c, critical = Some c /\ in_range c = false)
  \/ (default (_critical_threshold self) critical
       <= default (_warning_threshold self) warning)%Q ->
  fst (set_thresholds warning critical self) = Raise ValueError.
Proof.
  unfold set_thresholds.
  intros [(w & -> & Hw)|[(c & -> & Hc)|Hle]].
  - by rewrite Hw.
  - destruct warning as [w|]; [destruct (in_range w); [|done]|];
      by rewrite Hc.
  - apply Qle_bool_iff in Hle.
    destruct warning as [w|]; [destruct (in_range w); [|done]|];
      (destruct critical as [c|]; [destruct (in_range c); [|done]|]);
      simpl in *; by rewrite Hle.
Qed.

(** C1. From thresholds 70 and 85, [set_thresholds(60, 50)] raises
    [ValueError] and leaves the monitor with warning 60 and critical 50;
    [set_thresholds(50, 150)] raises with warning already set to 50; and
    [set_thresholds(None, 60)] raises with critical already set to 60. *)
Theorem set_thresholds_mutates_before_rejecting :
  set_thresholds (Some 60%Q) (Some 50%Q) (__init__ 70 85)
    = (Raise ValueError, State 60 50 None false)
  /\ set_thresholds (Some 50%Q) (Some 150%Q) (__init__ 70 85)
    = (Raise ValueError, State 50 85 None false)
  /\ set_thresholds None (Some 60%Q) (__init__ 70 85)
    = (Raise ValueError, State 70 60 None false).
Proof. repeat split. Qed.

(** C9. For every sample and every pair of thresholds the level is CRITICAL
    exactly when percent >= critical, WARNING exactly when
    warning <= percent < critical, and NORMAL exactly in the remaining case;
    with thresholds 70 and 85, the percentages 69.9, 70, 84.9 and 85 are
    classified NORMAL, WARNING, WARNING, CRITICAL. *)
Theorem alert_level_classification (self : state) (stats : MemoryStats) :
  (_check_alert_level self stats = CRITICAL
     <-> (_critical_threshold self <= percent stats)%Q)
  /\ (_check_alert_level self stats = WARNING
     <-> (_warning_threshold self <= percent stats)%Q
         /\ (percent stats < _critical_threshold self)%Q)
  /\ (_check_alert_level self stats = NORMAL
     <-> ~ (_critical_threshold self <= percent stats)%Q
         /\ ~ ((_warning_threshold self <= percent stats)%Q
               /\ (percent stats < _critical_threshold self)%Q))
  /\ map (fun p => _check_alert_level (__init__ 70 85) (sample p))
         [(699 # 10)%Q; 70%Q; (849 # 10)%Q; 85%Q]
     = [NORMAL; WARNING; WARNING; CRITICAL].
Proof.
  unfold _check_alert_level, Qgeb.
  destruct (Qle_bool (_critical_threshold self) (percent stats)) eqn:C;
    destruct (Qle_bool (_warning_threshold self) (percent stats)) eqn:W.
  all: try apply Qle_bool_iff in C; try apply Qle_bool_iff in W.
  all: try (assert (~ (_critical_threshold self <= percent stats)%Q) as C'
              by (rewrite <- Qle_bool_iff; congruence)).
  all: try (assert (~ (_warning_threshold self <= percent stats)%Q) as W'
              by (rewrite <- Qle_bool_iff; congruence)).
  all: repeat split; try done; try (intros; exfalso; lra); try tauto.
  all: try (intros [? ?]; lra); try (apply Qnot_le_lt; done).
Qed.
End Thresholds.

Section Shutdown.
Import GarbageCollectionMonitor.

(** C2. On every freshly constructed collector monitor the name
    [_stop_snapshot_thread] resolves to the instance attribute [False], so
    [shutdown] raises [TypeError] at its first statement and changes
    nothing: the snapshot thread is still alive, tracemalloc is still
    tracing when it was enabled, and the GC callback is still registered.
    [MemoryManager.shutdown] therefore raises [TypeError] too, on the first
    call and again on the second, whether or not the monitoring and the
    logging thread end within the timeouts of their joins. *)
Theorem shutdown_raises_TypeError (enable_tracemalloc enable_gc_callbacks : bool)
    (monitor_joined logger_joined monitor_joined' logger_joined' : bool) :
  let w := snd (constructed enable_tracemalloc enable_gc_callbacks) in
  fst (constructed enable_tracemalloc enable_gc_callbacks) = Return tt
  /\ getattr (self w) "_stop_snapshot_thread" = Some (Data (VBool false))
  /\ shutdown w = (Raise TypeError, w)
  /\ getattr (self w) "_snapshot_thread" = Some (Data (VThread true))
  /\ tracing (proc w) = enable_tracemalloc
  /\ (enable_gc_callbacks = true -> gc_callback ∈ gc_callbacks (proc w))
  /\ let m := snd (MemoryManager.__init__ 70 85 enable_tracemalloc MemoryManager.blank) in
     let m' := snd (MemoryManager.shutdown monitor_joined logger_joined m) in
     fst (MemoryManager.shutdown monitor_joined logger_joined m) = Raise TypeError
     /\ fst (MemoryManager.shutdown monitor_joined' logger_joined' m')
        = Raise TypeError
     /\ tracing (MemoryManager.proc m') = enable_tracemalloc
     /\ gc_callback ∈ gc_callbacks (MemoryManager.proc m').
Proof.
  destruct enable_tracemalloc, enable_gc_callbacks, monitor_joined, logger_joined,
    monitor_joined', logger_joined'; vm_compute;
    repeat split; try done; try (intros _; apply elem_of_cons; by left);
    try (apply elem_of_cons; by left).
Qed.
End Shutdown.

(** *** Further properties of the object pool *)
Section PoolMore.
Context {T : Type}.
Implicit Types (cfg : ObjectPool.config T) (s : ObjectPool.state T).
Import ObjectPool.

Lemma pop_snoc (l : list T) (x : T) : pop (l ++ [x]) = Some (x, l).
Proof. unfold pop. by rewrite last_snoc, removelast_last. Qed.

Lemma step_pool_provenance cfg s o (x : T) :
  x ∈ _pool (step cfg s o) ->
  x ∈ _pool s \/ (o = Release x /\ reset_raises cfg x = false).
Proof.
  destruct o as [create|obj|]; simpl.
  - unfold acquire. destruct (pop (_pool s)) as [[y rest]|] eqn:E; simpl.
    + intros Hx. left. unfold pop in E.
      destruct (last (_pool s)); [|done]. injection E as <- <-.
      rewrite removelast_firstn_len in Hx.
      apply list_elem_of_lookup in Hx as [i Hi].
      apply lookup_take_Some in Hi as [Hi _]. by eapply list_elem_of_lookup_2.
    + destruct (_in_use_count s <? _max_size cfg)%Z;
        [destruct create; simpl; auto|].
      destruct (negb (_block cfg)); [destruct create|]; simpl; auto.
  - unfold release. destruct (reset_raises cfg obj) eqn:Hr; simpl.
    + destruct (0 <? _in_use_count s)%Z; simpl; auto.
    + destruct (0 <? _in_use_count s)%Z; simpl; auto.
      intros Hx. apply elem_of_app in Hx as [Hx|Hx]; [by left|].
      apply list_elem_of_singleton in Hx as ->. by right.
  - intros Hx. by apply elem_of_nil in Hx.
Qed.
End PoolMore.

(** X1. ObjectPool: when at least one object is counted as in use and the reset
    hook does not raise on obj, release(obj) followed directly by acquire()
    hands back that same obj as a counted object and leaves the pool (idle
    list and in_use_count) exactly as it was before the release: the idle
    list works as a stack, release appends and acquire pops the end. *)
Theorem release_then_acquire_returns_same_object {T : Type}
    (cfg : ObjectPool.config T) (create : result T) (obj : T)
    (s : ObjectPool.state T) :
  ObjectPool.reset_raises cfg obj = false ->
  (0 < ObjectPool._in_use_count s)%Z ->
  ObjectPool.acquire cfg create (snd (ObjectPool.release cfg obj s))
  = (ObjectPool.Tracked obj, s).
Proof.
  intros Hr Hpos. unfold ObjectPool.release. rewrite Hr.
  apply Z.ltb_lt in Hpos. rewrite Hpos. simpl.
  unfold ObjectPool.acquire. simpl. rewrite pop_snoc.
  destruct s as [p n]. simpl. f_equal. f_equal. lia.
Qed.

(** A pool holding 3 with one object out: releasing 7 and acquiring gives 7 back. *)
Lemma release_then_acquire_returns_same_object_witness :
  ObjectPool.acquire (ObjectPool.Config 2 None true) (Raise UserError)
    (snd (ObjectPool.release (ObjectPool.Config 2 None true) 7%nat
            (ObjectPool.State [3%nat] 1)))
  = (ObjectPool.Tracked 7%nat, ObjectPool.State [3%nat] 1).
Proof.
  apply (release_then_acquire_returns_same_object
           (ObjectPool.Config 2 None true) (Raise UserError) 7%nat
           (ObjectPool.State [3%nat] 1)); [reflexivity | simpl; lia].
Defined.

(** X2. ObjectPool: after any sequence of acquire, release and clear calls on a
    new pool, every object in the idle list was passed to release earlier in
    that sequence and the reset hook did not raise on it. The pool stores
    nothing but what callers released, and nothing whose reset failed. *)
Theorem idle_objects_were_released_and_reset {T : Type}
    (cfg : ObjectPool.config T) (ops : list (ObjectPool.op T)) (x : T) :
  x ∈ ObjectPool._pool (ObjectPool.run cfg ops ObjectPool.init) ->
  In (ObjectPool.Release x) ops /\ ObjectPool.reset_raises cfg x = false.
Proof.
  induction ops as [|o ops IH] using rev_ind.
  - intros Hx. by apply elem_of_nil in Hx.
  - rewrite run_snoc. intros Hx.
    apply step_pool_provenance in Hx as [Hx|[-> Hr]].
    + destruct (IH Hx) as [H1 H2]. split; [|done]. apply in_or_app. by left.
    + split; [|done]. apply in_or_app. right. by left.
Qed.

(** Acquire 7, then release it: the idle 7 was released and reset. *)
Lemma idle_objects_were_released_and_reset_witness :
  In (ObjectPool.Release 7%nat)
     [ObjectPool.Acquire (Return 7%nat); ObjectPool.Release 7%nat]
  /\ ObjectPool.reset_raises (ObjectPool.Config 2 None true) 7%nat = false.
Proof.
  apply (idle_objects_were_released_and_reset (ObjectPool.Config 2 None true)
           [ObjectPool.Acquire (Return 7%nat); ObjectPool.Release 7%nat] 7%nat).
  vm_compute. apply elem_of_cons. by left.
Defined.

Section FrameProofs.
Context {T R : Type}.
Import ObjectPool FrameProcessor.

Lemma process_frame_idle (cfg : config T) (create : result T)
    (predict : T -> result R) (m : T) :
  reset_raises cfg m = false ->
  process_frame cfg create predict (State [m] 0) = (predict m, State [m] 0).
Proof.
  intros Hr. unfold process_frame, acquire. simpl.
  unfold release. rewrite Hr. simpl. done.
Qed.

Lemma process_frames_idle (cfg : config T)
    (calls : list (result T * (T -> result R))) (m : T) :
  reset_raises cfg m = false ->
  process_frames cfg calls (State [m] 0)
  = (map (fun c => snd c m) calls, State [m] 0).
Proof.
  intros Hr. induction calls as [|[create predict] calls IH]; [done|].
  cbn [process_frames]. rewrite process_frame_idle by done. by rewrite IH.
Qed.
End FrameProofs.

(** X3. FrameProcessor.process_frame on a new model pool of capacity at least 1,
    called for one frame after the other by a single caller: if the first
    call's factory returns model m and resetting m does not raise, every
    frame is processed on m (the factory's result is not used again), each
    call returns or raises exactly what inference on m does, and after every
    call the pool holds m alone with in_use_count 0, also when inference
    raised. *)
Theorem sequential_frames_share_one_model {T R : Type}
    (cfg : ObjectPool.config T) (m : T) (predict : T -> result R)
    (calls : list (result T * (T -> result R))) :
  (1 <= ObjectPool._max_size cfg)%Z ->
  ObjectPool.reset_raises cfg m = false ->
  FrameProcessor.process_frames cfg ((Return m, predict) :: calls)
                                ObjectPool.init
  = (predict m :: map (fun c => snd c m) calls, ObjectPool.State [m] 0).
Proof.
  intros Hmax Hr. cbn [FrameProcessor.process_frames].
  unfold FrameProcessor.process_frame at 1, ObjectPool.acquire. simpl.
  assert ((0 <? ObjectPool._max_size cfg)%Z = true) as -> by (apply Z.ltb_lt; lia).
  unfold ObjectPool.release. rewrite Hr. simpl.
  by rewrite process_frames_idle.
Qed.

(** Three frames on a pool of five models; the second inference raises. *)
Lemma sequential_frames_share_one_model_witness :
  FrameProcessor.process_frames (ObjectPool.Config 5 (Some (fun _ => true)) true)
    [(Return 1%nat, fun m => Return m); (Raise UserError, fun m => Raise ValueError);
     (Return 2%nat, fun m => Return (m + 10)%nat)]
    ObjectPool.init
  = ([Return 1%nat; Raise ValueError; Return 11%nat], ObjectPool.State [1%nat] 0).
Proof.
  apply (sequential_frames_share_one_model
           (ObjectPool.Config 5 (Some (fun _ => true)) true) 1%nat
           (fun m => Return m)
           [(Raise UserError, fun m => Raise ValueError);
            (Return 2%nat, fun m => Return (m + 10)%nat)]);
    [simpl; lia | reflexivity].
Defined.

(** *** Further properties of the memory sampler *)
Section SamplerProofs.
Import MemoryMonitor.

Lemma bound_test (cap : Z) (n : nat) :
  (1 <= n)%nat -> (cap <? Z.of_nat n)%Z = (Z.to_nat cap <? n)%nat.
Proof.
  intros Hn. destruct (cap <? Z.of_nat n)%Z eqn:E.
  - apply Z.ltb_lt in E. symmetry. apply Nat.ltb_lt. lia.
  - apply Z.ltb_ge in E. symmetry. apply Nat.ltb_ge. lia.
Qed.

Lemma add_to_history_fold (cap : Z) (ss : list MemoryStats) : forall h,
  (length h <= Z.to_nat cap)%nat ->
  fold_left (_add_to_history cap) ss h
  = drop (length h + length ss - Z.to_nat cap) (h ++ ss).
Proof.
  induction ss as [|x ss IH]; intros h Hh; simpl.
  - rewrite app_nil_r. replace (length h + 0 - Z.to_nat cap)%nat with 0%nat by lia.
    done.
  - unfold _add_to_history at 2. rewrite bound_test
      by (rewrite length_app; simpl; lia).
    rewrite length_app. simpl.
    destruct (Z.to_nat cap <? length h + 1)%nat eqn:E.
    + apply Nat.ltb_lt in E.
      assert (tail (h ++ [x]) = drop 1 (h ++ [x])) as -> by by destruct h.
      rewrite IH by (rewrite length_drop, length_app; simpl; lia).
      rewrite length_drop, length_app. simpl.
      replace (h ++ x :: ss) with ((h ++ [x]) ++ ss) by by rewrite <- app_assoc.
      rewrite <- (drop_app_le (h ++ [x]) ss 1) by (rewrite length_app; simpl; lia).
      rewrite drop_drop. f_equal. lia.
    + apply Nat.ltb_ge in E.
      rewrite IH by (rewrite length_app; simpl; lia).
      rewrite length_app, <- app_assoc. simpl. f_equal. lia.
Qed.

Lemma call_callbacks_all callbacks : forall i stats level called,
  only_Exceptions callbacks ->
  call_callbacks callbacks i stats level called
  = (Return tt, called ++ seq i (length callbacks)).
Proof.
  induction callbacks as [|cb rest IH]; intros i stats level called Hok; simpl.
  - by rewrite app_nil_r.
  - assert (only_Exceptions rest) as Hrest.
    { intros c st l e Hc. apply (Hok c st l e). by right. }
    destruct (cb stats level) as [[]|e] eqn:E.
    + rewrite IH by done. by rewrite <- app_assoc.
    + rewrite (Hok cb stats level e) by (done || by left).
      rewrite IH by done. by rewrite <- app_assoc.
Qed.

Lemma tick_spec (self : state) (stats : MemoryStats) (m : sampler) :
  only_Exceptions (_alert_callbacks m) ->
  exists m',
    tick self stats m
    = (Return tt,
       if alerting self stats then seq 0 (length (_alert_callbacks m)) else [],
       m')
    /\ _enable_auto_gc m' = _enable_auto_gc m
    /\ _gc_threshold m' = _gc_threshold m
    /\ _max_history_size m' = _max_history_size m
    /\ _alert_callbacks m' = _alert_callbacks m
    /\ _history m' = _add_to_history (_max_history_size m) (_history m) stats
    /\ alert_count (_stats m')
       = (alert_count (_stats m) + if alerting self stats then 1 else 0)%Z
    /\ gc_count (_stats m')
       = (gc_count (_stats m) + if collecting self m stats then 1 else 0)%Z
    /\ max_memory_rss (_stats m')
       = Z.max (max_memory_rss (_stats m)) (rss stats)
    /\ max_memory_percent (_stats m')
       = (if Qgtb (percent stats) (max_memory_percent (_stats m))
          then percent stats else max_memory_percent (_stats m)).
Proof.
  intros Hok. unfold tick, alerting, collecting.
  destruct (is_normal (_check_alert_level self stats)) eqn:N; simpl.
  - unfold _should_trigger_gc. simpl.
    destruct (_enable_auto_gc m
              && (Qgtb (percent stats) (_warning_threshold self)
                  && (_gc_threshold m <? gc_objects stats)%Z)) eqn:G;
      eexists; (split; [reflexivity|]); simpl; repeat split; try lia;
      destruct (max_memory_rss (_stats m) <? rss stats)%Z eqn:L;
      try apply Z.ltb_lt in L; try apply Z.ltb_ge in L; lia.
  - unfold _trigger_alert. simpl. rewrite call_callbacks_all by done. simpl.
    unfold _should_trigger_gc. simpl.
    destruct (_enable_auto_gc m
              && (Qgtb (percent stats) (_warning_threshold self)
                  && (_gc_threshold m <? gc_objects stats)%Z)) eqn:G;
      eexists; (split; [reflexivity|]); simpl; repeat split; try lia;
      destruct (max_memory_rss (_stats m) <? rss stats)%Z eqn:L;
      try apply Z.ltb_lt in L; try apply Z.ltb_ge in L; lia.
Qed.

Lemma monitor_loop_spec (self : state) (samples : list MemoryStats) : forall m,
  only_Exceptions (_alert_callbacks m) ->
  exists m',
    _monitor_loop self samples m
    = (Return tt,
       map (fun stats => if alerting self stats
                         then seq 0 (length (_alert_callbacks m)) else [])
           samples,
       m')
    /\ _enable_auto_gc m' = _enable_auto_gc m
    /\ _gc_threshold m' = _gc_threshold m
    /\ _max_history_size m' = _max_history_size m
    /\ _alert_callbacks m' = _alert_callbacks m
    /\ _history m'
       = fold_left (_add_to_history (_max_history_size m)) samples (_history m)
    /\ alert_count (_stats m')
       = (alert_count (_stats m) + count_samples (alerting self) samples)%Z
    /\ gc_count (_stats m')
       = (gc_count (_stats m) + count_samples (collecting self m) samples)%Z
    /\ max_memory_rss (_stats m')
       = fold_left Z.max (map rss samples) (max_memory_rss (_stats m))
    /\ (max_memory_percent (_stats m) <= max_memory_percent (_stats m'))%Q
    /\ (forall stats, stats ∈ samples ->
          (percent stats <= max_memory_percent (_stats m'))%Q).
Proof.
  induction samples as [|stats rest IH]; intros m Hok.
  - exists m. split; [done|]. unfold count_samples. simpl.
    repeat (split; [done || lia|]). split; [apply Qle_refl|].
    intros st Hst. by apply elem_of_nil in Hst.
  - cbn [_monitor_loop].
    destruct (tick_spec self stats m Hok)
      as (m1 & -> & E1 & E2 & E3 & E4 & E5 & E6 & E7 & E8 & E9).
    destruct (IH m1) as (m2 & -> & F1 & F2 & F3 & F4 & F5 & F6 & F7 & F8 & F9 & F10).
    { by rewrite E4. }
    exists m2. rewrite E4. split; [done|].
    split; [congruence|]. split; [congruence|]. split; [congruence|].
    split; [congruence|]. split; [by rewrite F5, E3, E5|].
    assert (Hstep : (max_memory_percent (_stats m) <= max_memory_percent (_stats m1)
                     /\ percent stats <= max_memory_percent (_stats m1))%Q).
    { rewrite E9. unfold Qgtb.
      destruct (Qle_bool (percent stats) (max_memory_percent (_stats m))) eqn:L;
        simpl.
      - apply Qle_bool_iff in L. split; [apply Qle_refl|done].
      - split; [|apply Qle_refl].
        destruct (Qlt_le_dec (max_memory_percent (_stats m)) (percent stats))
          as [G|G]; [by apply Qlt_le_weak|].
        apply Qle_bool_iff in G. congruence. }
    destruct Hstep as [Hs1 Hs2].
    split.
    { rewrite F6, E6. unfold count_samples. simpl.
      destruct (alerting self stats); simpl; lia. }
    split.
    { rewrite F7, E7. unfold count_samples, collecting, _should_trigger_gc.
      rewrite E1, E2. simpl.
      destruct (_enable_auto_gc m && _); simpl; lia. }
    split; [by rewrite F8, E8|].
    split; [by apply Qle_trans with (max_memory_percent (_stats m1))|].
    intros st Hst. apply elem_of_cons in Hst as [->|Hst]; [|by apply F10].
    by apply Qle_trans with (max_memory_percent (_stats m1)).
Qed.
End SamplerProofs.

(** X4. MemoryMonitor._monitor_loop with alert callbacks that raise nothing but
    Exceptions, started on an empty history: after the loop has taken any
    list of samples, the history is exactly the last max_history_size of
    them in order (all of them while there are fewer), so its length never
    exceeds a non-negative max_history_size. *)
Theorem sampler_history_keeps_most_recent
    (self : MemoryMonitor.state) (samples : list MemoryMonitor.MemoryStats)
    (m : MemoryMonitor.sampler) :
  only_Exceptions (MemoryMonitor._alert_callbacks m) ->
  MemoryMonitor._history m = [] ->
  let m' := snd (MemoryMonitor._monitor_loop self samples m) in
  MemoryMonitor._history m'
  = drop (length samples - Z.to_nat (MemoryMonitor._max_history_size m)) samples
  /\ ((0 <= MemoryMonitor._max_history_size m)%Z ->
      (Z.of_nat (length (MemoryMonitor._history m'))
       <= MemoryMonitor._max_history_size m)%Z).
Proof.
  intros Hok Hh m'.
  destruct (monitor_loop_spec self samples m Hok) as (m2 & E & _ & _ & _ & _ & H & _).
  unfold m'. rewrite E. simpl. rewrite H, Hh.
  rewrite add_to_history_fold by (simpl; lia). simpl.
  split; [done|]. intros Hcap. rewrite length_drop. lia.
Qed.

(** Three samples into a history of size 2. *)
Lemma sampler_history_keeps_most_recent_witness :
  MemoryMonitor._history
    (snd (MemoryMonitor._monitor_loop (MemoryMonitor.__init__ 70 85)
            [sample 10; sample 90; sample 20]
            (MemoryMonitor.Sampler true 1000 2 [] [] (MemoryMonitor.Counters 0 0 0 0))))
  = [sample 90; sample 20].
Proof.
  apply (sampler_history_keeps_most_recent (MemoryMonitor.__init__ 70 85)
           [sample 10; sample 90; sample 20]
           (MemoryMonitor.Sampler true 1000 2 [] []
                                  (MemoryMonitor.Counters 0 0 0 0))).
  - intros callback stats level e Hc. by apply elem_of_nil in Hc.
  - reflexivity.
Defined.

(** X5. MemoryMonitor._monitor_loop with alert callbacks that raise nothing but
    Exceptions never stops on a sample: for every sample classified WARNING
    or CRITICAL all registered callbacks are called, in registration order,
    also after one of them raised, and for a NORMAL sample none is;
    alert_count grows by the number of non-NORMAL samples, and gc_count by
    the number of samples for which auto GC is enabled and
    _should_trigger_gc holds. *)
Theorem sampler_counts_alerts_and_calls_every_callback
    (self : MemoryMonitor.state) (samples : list MemoryMonitor.MemoryStats)
    (m : MemoryMonitor.sampler) :
  only_Exceptions (MemoryMonitor._alert_callbacks m) ->
  let '(r, calls, m') := MemoryMonitor._monitor_loop self samples m in
  r = Return tt
  /\ calls = map (fun stats =>
                    if alerting self stats
                    then seq 0 (length (MemoryMonitor._alert_callbacks m))
                    else []) samples
  /\ MemoryMonitor.alert_count (MemoryMonitor._stats m')
     = (MemoryMonitor.alert_count (MemoryMonitor._stats m)
        + count_samples (alerting self) samples)%Z
  /\ MemoryMonitor.gc_count (MemoryMonitor._stats m')
     = (MemoryMonitor.gc_count (MemoryMonitor._stats m)
        + count_samples (collecting self m) samples)%Z.
Proof.
  intros Hok.
  destruct (monitor_loop_spec self samples m Hok)
    as (m2 & -> & _ & _ & _ & _ & _ & H1 & H2 & _).
  done.
Qed.

(** Samples at 10, 90 and 75 percent with a raising and a returning callback. *)
Lemma sampler_counts_alerts_and_calls_every_callback_witness :
  let '(r, calls, m') :=
    MemoryMonitor._monitor_loop (MemoryMonitor.__init__ 70 85)
      [sample 10; sample 90; sample 75]
      (MemoryMonitor.add_alert_callback quiet_callback
         (MemoryMonitor.add_alert_callback flaky_callback
            (MemoryMonitor.new_sampler true 1000))) in
  r = Return tt /\ calls = [[]; [0; 1]; [0; 1]]%nat
  /\ MemoryMonitor.alert_count (MemoryMonitor._stats m') = 2%Z.
Proof.
  pose proof (sampler_counts_alerts_and_calls_every_callback
                (MemoryMonitor.__init__ 70 85) [sample 10; sample 90; sample 75]
                (MemoryMonitor.add_alert_callback quiet_callback
                   (MemoryMonitor.add_alert_callback flaky_callback
                      (MemoryMonitor.new_sampler true 1000)))) as H.
  destruct (MemoryMonitor._monitor_loop _ _ _) as [[r calls] m'].
  destruct H as (H1 & H2 & H3 & _).
  - intros callback stats level e Hc He. simpl in Hc.
    apply elem_of_cons in Hc as [->|Hc].
    + by injection He as <-.
    + apply list_elem_of_singleton in Hc as ->. discriminate.
  - split; [exact H1|]. split; [exact H2|]. exact H3.
Defined.

(** X6. MemoryMonitor._update_stats inside the monitoring loop (alert callbacks
    raising nothing but Exceptions): after any list of samples
    max_memory_rss is the maximum of its previous value and the rss of all
    samples, max_memory_percent never decreases, and both are at least the
    percent and the rss of every sample taken. *)
Theorem sampler_tracks_running_maxima
    (self : MemoryMonitor.state) (samples : list MemoryMonitor.MemoryStats)
    (m : MemoryMonitor.sampler) :
  only_Exceptions (MemoryMonitor._alert_callbacks m) ->
  let c := MemoryMonitor._stats m in
  let c' := MemoryMonitor._stats (snd (MemoryMonitor._monitor_loop self samples m)) in
  MemoryMonitor.max_memory_rss c'
  = fold_left Z.max (map MemoryMonitor.rss samples) (MemoryMonitor.max_memory_rss c)
  /\ (MemoryMonitor.max_memory_percent c <= MemoryMonitor.max_memory_percent c')%Q
  /\ (forall stats, stats ∈ samples ->
        (MemoryMonitor.percent stats <= MemoryMonitor.max_memory_percent c')%Q
        /\ (MemoryMonitor.rss stats <= MemoryMonitor.max_memory_rss c')%Z).
Proof.
  intros Hok c c'.
  destruct (monitor_loop_spec self samples m Hok)
    as (m2 & E & _ & _ & _ & _ & _ & _ & _ & H1 & H2 & H3).
  unfold c', c. rewrite E. simpl. split; [done|]. split; [done|].
  intros stats Hin. split; [by apply H3|]. rewrite H1.
  clear -Hin. generalize (MemoryMonitor.max_memory_rss (MemoryMonitor._stats m)).
  induction samples as [|s rest IH]; intros z; [by apply elem_of_nil in Hin|].
  simpl. apply elem_of_cons in Hin as [->|Hin]; [|by apply IH].
  clear. generalize (Z.max z (MemoryMonitor.rss s)) (Z.le_max_r z (MemoryMonitor.rss s)).
  induction rest as [|t rest IH]; intros y Hy; simpl; [done|].
  apply IH. lia.
Qed.

(** Two samples on a new sampler. *)
Lemma sampler_tracks_running_maxima_witness :
  MemoryMonitor.max_memory_rss
    (MemoryMonitor._stats
       (snd (MemoryMonitor._monitor_loop (MemoryMonitor.__init__ 70 85)
               [sample 10; sample 90] (MemoryMonitor.new_sampler true 1000))))
  = 0%Z.
Proof.
  apply (sampler_tracks_running_maxima (MemoryMonitor.__init__ 70 85)
           [sample 10; sample 90] (MemoryMonitor.new_sampler true 1000)).
  intros callback stats level e Hc. by apply elem_of_nil in Hc.
Defined.

Section SamplerEdges.
Import MemoryMonitor.

(** X7. MemoryMonitor._should_trigger_gc returns True only for a sample that
    _check_alert_level does not classify NORMAL: its memory percent is
    strictly above the warning threshold and its gc object count strictly
    above gc_threshold. Automatic collection therefore never runs on a
    NORMAL sample. *)
Theorem automatic_collection_only_under_alert
    (self : state) (m : sampler) (stats : MemoryStats) :
  _should_trigger_gc self m stats = true ->
  _check_alert_level self stats <> NORMAL
  /\ (_warning_threshold self < percent stats)%Q
  /\ (_gc_threshold m < gc_objects stats)%Z.
Proof.
  unfold _should_trigger_gc, _check_alert_level, Qgtb, Qgeb.
  intros H. apply andb_prop in H as [H1 H2]. apply Z.ltb_lt in H2.
  apply negb_true_iff in H1.
  assert (_warning_threshold self < percent stats)%Q as Hlt.
  { apply Qnot_le_lt. intros L. apply Qle_bool_iff in L. congruence. }
  split; [|done].
  destruct (Qle_bool (_critical_threshold self) (percent stats)); [done|].
  assert (Qle_bool (_warning_threshold self) (percent stats) = true) as ->.
  { apply Qle_bool_iff. by apply Qlt_le_weak. }
  done.
Qed.

(** 71 percent with 2000 tracked objects, thresholds 70 and 85. *)
Lemma automatic_collection_only_under_alert_witness :
  _check_alert_level (__init__ 70 85)
    {| timestamp := 0; rss := 0; vms := 0; percent := 71; available := 0;
       gc_count0 := 0; gc_count1 := 0; gc_count2 := 0; gc_objects := 2000 |}
  <> NORMAL.
Proof.
  apply (automatic_collection_only_under_alert (__init__ 70 85)
           (new_sampler true 1000)
           {| timestamp := 0; rss := 0; vms := 0; percent := 71; available := 0;
              gc_count0 := 0; gc_count1 := 0; gc_count2 := 0;
              gc_objects := 2000 |}).
  reflexivity.
Defined.

(** X9. MemoryMonitor.start and stop, with a join that may time out: start
    leaves the thread alive and a second start changes nothing; stop on a
    monitor that is not running changes nothing; stop on a running monitor
    sets the flag, and the thread is dead afterwards exactly when it ended
    within the two seconds of the join. After a stop whose join timed out
    the thread is still alive with the flag set, so a start that comes
    before the loop has looked at the flag only warns and leaves the flag
    set: the loop then ends at its next look at the flag and the monitor is
    not running although start was called last. After a stop whose join succeeded, start clears the flag and runs
    a new thread. Neither call touches the thresholds. *)
Theorem start_after_timed_out_stop_only_warns (self : state) (joined : bool) :
  is_alive (_monitor_thread (snd (start self))) = true
  /\ start (snd (start self))
     = (["Memory monitoring thread is already running"], snd (start self))
  /\ (is_alive (_monitor_thread self) = false -> stop joined self
        = (["Memory monitoring thread is not running"], self))
  /\ (is_alive (_monitor_thread self) = true ->
      _stop_monitoring (snd (stop joined self)) = true
      /\ is_alive (_monitor_thread (snd (stop joined self))) = negb joined)
  /\ (is_alive (_monitor_thread self) = true ->
      let stopped := snd (stop false self) in
      start stopped = (["Memory monitoring thread is already running"], stopped)
      /\ _stop_monitoring (snd (start stopped)) = true
      /\ is_alive (_monitor_thread (loop_ends (snd (start stopped)))) = false)
  /\ (is_alive (_monitor_thread self) = true ->
      let stopped := snd (stop true self) in
      _stop_monitoring (snd (start stopped)) = false
      /\ is_alive (_monitor_thread (snd (start stopped))) = true
      /\ loop_ends (snd (start stopped)) = snd (start stopped))
  /\ _warning_threshold (snd (start (snd (stop joined self))))
     = _warning_threshold self
  /\ _critical_threshold (snd (start (snd (stop joined self))))
     = _critical_threshold self.
Proof.
  unfold start, stop, loop_ends.
  destruct self as [w c [[a]|] f]; try destruct a; destruct joined; simpl;
    repeat split; try done; intros; discriminate.
Qed.

(** X10. MemoryMonitor.set_thresholds: whenever the call returns without
    raising, the stored warning threshold is strictly below the stored
    critical threshold, each given threshold lies in [0, 100] and is the
    stored value, a threshold passed as None keeps its previous value, and
    the monitoring thread and the stop flag are untouched. *)
Theorem accepted_thresholds_are_consistent
    (warning critical : option Q) (self self' : state) :
  set_thresholds warning critical self = (Return tt, self') ->
  (_warning_threshold self' < _critical_threshold self')%Q
  /\ _warning_threshold self' = default (_warning_threshold self) warning
  /\ _critical_threshold self' = default (_critical_threshold self) critical
  /\ (forall w, warning = Some w -> (0 <= w <= 100)%Q)
  /\ (forall c, critical = Some c -> (0 <= c <= 100)%Q)
  /\ _monitor_thread self' = _monitor_thread self
  /\ _stop_monitoring self' = _stop_monitoring self.
Proof.
  unfold set_thresholds.
  assert (Hrange : forall x, in_range x = true -> (0 <= x <= 100)%Q).
  { intros x H. unfold in_range in H. apply andb_prop in H as [H1 H2].
    by rewrite !Qle_bool_iff in *. }
  assert (Hlt : forall a b, Qle_bool b a = false -> (a < b)%Q).
  { intros a b H. apply Qnot_le_lt. intros L. apply Qle_bool_iff in L. congruence. }
  destruct warning as [w|]; [destruct (in_range w) eqn:Hw; [|done]|];
    (destruct critical as [c|]; [destruct (in_range c) eqn:Hc; [|done]|]);
    simpl;
    match goal with |- context [Qle_bool ?a ?b] =>
      destruct (Qle_bool a b) eqn:L; [done|] end;
    intros [= <-]; simpl; apply Hlt in L;
    (split; [done|]); (split; [done|]); (split; [done|]);
    (split; [intros ? [= <-] || intros ? [=]; auto|]);
    (split; [intros ? [= <-] || intros ? [=]; auto|]); done.
Qed.

(** Thresholds 60 and 80 on a monitor created with 70 and 85. *)
Lemma accepted_thresholds_are_consistent_witness :
  (_warning_threshold (State 60 80 None false)
   < _critical_threshold (State 60 80 None false))%Q.
Proof.
  apply (accepted_thresholds_are_consistent (Some 60%Q) (Some 80%Q)
           (__init__ 70 85) (State 60 80 None false)).
  reflexivity.
Defined.
End SamplerEdges.

(** *** Further properties of the collector monitor *)

(** Appending under a bound keeps the most recent items. *)
Lemma bounded_append_fold {A : Type} (cap : Z) (xs : list A) : forall h,
  (length h <= Z.to_nat cap)%nat ->
  fold_left (fun h x => if (cap <? Z.of_nat (length (h ++ [x])))%Z
                        then tail (h ++ [x]) else h ++ [x]) xs h
  = drop (length h + length xs - Z.to_nat cap) (h ++ xs).
Proof.
  induction xs as [|x xs IH]; intros h Hh; simpl.
  - rewrite app_nil_r. replace (length h + 0 - Z.to_nat cap)%nat with 0%nat by lia.
    done.
  - rewrite bound_test by (rewrite length_app; simpl; lia).
    rewrite length_app. simpl.
    destruct (Z.to_nat cap <? length h + 1)%nat eqn:E.
    + apply Nat.ltb_lt in E.
      assert (tail (h ++ [x]) = drop 1 (h ++ [x])) as -> by by destruct h.
      rewrite IH by (rewrite length_drop, length_app; simpl; lia).
      rewrite length_drop, length_app. simpl.
      replace (h ++ x :: xs) with ((h ++ [x]) ++ xs) by by rewrite <- app_assoc.
      rewrite <- (drop_app_le (h ++ [x]) xs 1) by (rewrite length_app; simpl; lia).
      rewrite drop_drop. f_equal. lia.
    + apply Nat.ltb_ge in E.
      rewrite IH by (rewrite length_app; simpl; lia).
      rewrite length_app, <- app_assoc. simpl. f_equal. lia.
Qed.

Lemma elem_of_drop_1 {A : Type} (x : A) (n : nat) (l : list A) :
  x ∈ drop n l -> x ∈ l.
Proof.
  intros H. rewrite <- (take_drop n l). apply elem_of_app. by right.
Qed.

Section RingProofs.
Import GarbageCollectionMonitor.

Lemma take_all_enabled (max_snapshots : Z) takes : forall snaps,
  take_all true max_snapshots takes snaps
  = fold_left (fun h x => if (max_snapshots <? Z.of_nat (length (h ++ [x])))%Z
                          then tail (h ++ [x]) else h ++ [x])
              (built takes) snaps.
Proof.
  induction takes as [|[now [ts|e]] takes IH]; intros snaps; [done| |].
  - simpl. apply IH.
  - simpl. apply IH.
Qed.

Lemma take_all_disabled (max_snapshots : Z) takes : forall snaps,
  take_all false max_snapshots takes snaps = snaps.
Proof.
  induction takes as [|[now top] takes IH]; intros snaps; [done|]. simpl. apply IH.
Qed.
End RingProofs.

(** X11. GarbageCollectionMonitor._take_snapshot with tracemalloc enabled,
    called any number of times on an empty snapshot list: a call whose
    tracemalloc snapshot raises adds nothing, every other call appends one
    snapshot, and the list is always the last max_snapshots snapshots built,
    in order; its length never exceeds a non-negative max_snapshots, and
    every stored snapshot keeps at most 10 top allocations. *)
Theorem snapshot_ring_keeps_most_recent (max_snapshots : Z)
    (takes : list (Q * result (list GarbageCollectionMonitor.allocation))) :
  let snaps := take_all true max_snapshots takes [] in
  snaps = drop (length (built takes) - Z.to_nat max_snapshots) (built takes)
  /\ ((0 <= max_snapshots)%Z -> (Z.of_nat (length snaps) <= max_snapshots)%Z)
  /\ Forall (fun s => (length (GarbageCollectionMonitor.top_allocations s) <= 10)%nat)
            snaps.
Proof.
  intros snaps. unfold snaps. rewrite take_all_enabled.
  rewrite bounded_append_fold by (simpl; lia). simpl.
  split; [done|]. split.
  - intros H. rewrite length_drop. lia.
  - apply Forall_forall. intros s Hs. apply elem_of_drop_1 in Hs.
    unfold built in Hs. apply list_elem_of_In, in_flat_map in Hs as ([now top] & _ & Hs).
    destruct top as [ts|e]; [|done]. destruct Hs as [<-|[]]. simpl.
    rewrite length_take. lia.
Qed.

(** X12. GarbageCollectionMonitor with enable_tracemalloc = False:
    _take_snapshot returns at once, so the snapshot list stays empty however
    often it is called, and detect_memory_leaks returns the empty list for
    every min_snapshots and growth_threshold. *)
Theorem no_leak_reports_without_tracemalloc (max_snapshots : Z)
    (takes : list (Q * result (list GarbageCollectionMonitor.allocation)))
    (min_snapshots : Z) (growth_threshold : Q) :
  take_all false max_snapshots takes [] = []
  /\ GarbageCollectionMonitor.detect_memory_leaks
       (take_all false max_snapshots takes []) min_snapshots growth_threshold
     = [].
Proof.
  rewrite take_all_disabled. split; [done|].
  unfold GarbageCollectionMonitor.detect_memory_leaks. simpl.
  destruct (Z.of_nat 0 <? min_snapshots)%Z; [done|].
  assert (GarbageCollectionMonitor.recent min_snapshots [] = []) as ->; [|done].
  unfold GarbageCollectionMonitor.recent.
  destruct (0 <? min_snapshots)%Z; apply drop_nil.
Qed.

Section CollectorProofs.
Import GarbageCollectionMonitor.

Lemma gc_callback_inv (e : gc_event) (k : nat) (c : collector) :
  collector_inv k c ->
  collector_inv (if String.eqb (e_phase e) "stop" then S k else k)
    (snd (_gc_callback (e_phase e) (e_info e) (e_now1 e) (e_now2 e)
                       (e_memory e) (e_top_stats e) c)).
Proof.
  intros (H1 & H2 & H3 & H4). unfold _gc_callback.
  destruct (String.eqb (e_phase e) "start") eqn:Es.
  - apply String.eqb_eq in Es. rewrite Es. simpl. done.
  - destruct (String.eqb (e_phase e) "stop") eqn:Ep; [|done].
    unfold collector_inv.
    cbn [snd _stats _gc_stats total_gc_calls total_memory_freed].
    split; [lia|]. split; [lia|].
    rewrite length_app. cbn [length].
    destruct (100 <? Z.of_nat (length (_gc_stats c) + 1))%Z eqn:L.
    + apply Z.ltb_lt in L.
      destruct (_gc_stats c) as [|g0 l0] eqn:E; cbn [length] in H3, L; [lia|].
      cbn [app tail]. split.
      * rewrite length_app. cbn [length]. lia.
      * apply Forall_app. split; [by inversion H4|]. by constructor.
    + apply Z.ltb_ge in L. split.
      * rewrite length_app. cbn [length]. lia.
      * apply Forall_app. split; [done|]. by constructor.
Qed.

Lemma deliver_inv (events : list gc_event) : forall k c,
  collector_inv k c -> collector_inv (k + stops events) (deliver events c).
Proof.
  induction events as [|e events IH]; intros k c Hc; simpl.
  - unfold stops. simpl. by rewrite Nat.add_0_r.
  - apply (gc_callback_inv e) in Hc. apply IH in Hc.
    unfold stops in *. simpl.
    destruct (String.eqb (e_phase e) "stop"); simpl in *;
      [by rewrite <- Nat.add_succ_comm | done].
Qed.
End CollectorProofs.

(** X13. GarbageCollectionMonitor._gc_callback on a new monitor, for any
    sequence of callback events: total_gc_calls is the number of events
    whose phase is 'stop' (events of other phases are not counted), the
    _gc_stats list holds min(100, that number) entries, total_memory_freed
    is never negative, and every recorded entry has memory_freed = max(0,
    memory_before - memory_after), which is never negative. *)
Theorem collector_counts_every_stop_event (events : list gc_event) :
  let c := deliver events GarbageCollectionMonitor.new_collector in
  GarbageCollectionMonitor.total_gc_calls (GarbageCollectionMonitor._stats c)
  = Z.of_nat (stops events)
  /\ (0 <= GarbageCollectionMonitor.total_memory_freed
             (GarbageCollectionMonitor._stats c))%Z
  /\ length (GarbageCollectionMonitor._gc_stats c) = Nat.min 100 (stops events)
  /\ Forall (fun g =>
       (0 <= GarbageCollectionMonitor.memory_freed g)%Z
       /\ GarbageCollectionMonitor.memory_freed g
          = Z.max 0 (GarbageCollectionMonitor.memory_before g
                     - GarbageCollectionMonitor.memory_after g))
     (GarbageCollectionMonitor._gc_stats c).
Proof.
  intros c.
  assert (collector_inv 0 GarbageCollectionMonitor.new_collector) as H0.
  { split; [done|]. split; [done|]. split; [done|]. constructor. }
  apply (deliver_inv events) in H0 as (H1 & H2 & H3 & H4). simpl in *.
  split; [done|]. split; [done|]. split; [done|].
  eapply Forall_impl; [exact H4|]. simpl. intros g Hg. split; [lia|done].
Qed.

(** X14. GarbageCollectionMonitor._gc_callback: the 'start' call only writes
    start_time and memory_before into the info dict and leaves the monitor
    unchanged. A 'stop' call on that same dict records gc_duration = stop
    time - start time and memory_freed = max(0, memory at start - memory at
    stop). A 'stop' call on an info dict without those two keys records the
    stop time itself as gc_duration (start_time defaults to 0) and
    memory_freed = 0, so total_memory_freed does not change. *)
Theorem collector_event_measures_one_cycle
    (info : GarbageCollectionMonitor.gc_info)
    (t0 t0' t1 t2 : Q) (m0 m1 : Z)
    (top0 top1 : option (list GarbageCollectionMonitor.allocation))
    (c : GarbageCollectionMonitor.collector) :
  let started := GarbageCollectionMonitor._gc_callback "start" info t0 t0' m0 top0 c in
  let paired := GarbageCollectionMonitor._gc_callback "stop" (fst started)
                  t1 t2 m1 top1 (snd started) in
  let fresh := GarbageCollectionMonitor._gc_callback "stop"
                 (GarbageCollectionMonitor.GcInfo
                    (GarbageCollectionMonitor.i_generation info)
                    (GarbageCollectionMonitor.i_collected info)
                    (GarbageCollectionMonitor.i_uncollectable info) None None)
                 t1 t2 m1 top1 c in
  snd started = c
  /\ (exists g, last (GarbageCollectionMonitor._gc_stats (snd paired)) = Some g
        /\ GarbageCollectionMonitor.gc_duration g = (t1 - t0)%Q
        /\ GarbageCollectionMonitor.memory_freed g = Z.max 0 (m0 - m1))
  /\ (exists g, last (GarbageCollectionMonitor._gc_stats (snd fresh)) = Some g
        /\ GarbageCollectionMonitor.gc_duration g = (t1 - 0)%Q
        /\ GarbageCollectionMonitor.memory_freed g = 0%Z
        /\ GarbageCollectionMonitor.total_memory_freed
             (GarbageCollectionMonitor._stats (snd fresh))
           = GarbageCollectionMonitor.total_memory_freed
               (GarbageCollectionMonitor._stats c)).
Proof.
  assert (Hlast : forall (l : list GarbageCollectionMonitor.GCStats) g,
            last (if (100 <? Z.of_nat (length (l ++ [g])))%Z
                  then tail (l ++ [g]) else l ++ [g]) = Some g).
  { intros l g. destruct (100 <? _)%Z eqn:L; [|apply last_snoc].
    destruct l as [|a l]; [done|]. simpl. apply last_snoc. }
  simpl. split; [done|]. split.
  - eexists. split; [apply Hlast|]. simpl. done.
  - eexists. split; [apply Hlast|]. simpl. split; [done|].
    rewrite Z.sub_diag. simpl. split; [done|lia].
Qed.

Section CompareProofs.
Import GarbageCollectionMonitor.

Lemma dict_set_keys (k : string) (v : allocation) d :
  (In k (map fst d) /\ map fst (dict_set k v d) = map fst d)
  \/ (~ In k (map fst d) /\ map fst (dict_set k v d) = map fst d ++ [k]).
Proof.
  induction d as [|[k0 v0] d IH]; simpl; [right; auto|].
  destruct (String.eqb k k0) eqn:E.
  - apply String.eqb_eq in E as ->. left. simpl. auto.
  - apply String.eqb_neq in E. simpl.
    destruct IH as [[H1 H2]|[H1 H2]]; rewrite H2.
    + left. auto.
    + right. split; [|done]. intros [H|H]; [congruence|done].
Qed.

Lemma NoDup_snoc (k : string) (ks : list string) :
  List.NoDup ks -> ~ In k ks -> List.NoDup (ks ++ [k]).
Proof.
  induction ks as [|k0 ks IH]; simpl; intros Hnd Hk.
  - constructor; [tauto|constructor].
  - inversion Hnd as [|? ? Hnot Hnd']; subst. constructor.
    + intros H. apply in_app_or in H as [H|[H|[]]]; [done|]. apply Hk. by left.
    + apply IH; [done|]. intros H. apply Hk. by right.
Qed.

Lemma dict_set_In (k : string) (v : allocation) d k' v' :
  In (k', v') (dict_set k v d) -> (k' = k /\ v' = v) \/ In (k', v') d.
Proof.
  induction d as [|[k0 v0] d IH]; simpl.
  - intros [H|[]]. injection H as <- <-. by left.
  - destruct (String.eqb k k0) eqn:E; simpl.
    + intros [H|H]; [injection H as <- <-; by left|]. right. by right.
    + intros [H|H]; [right; by left|].
      apply IH in H as [H|H]; [by left|]. right. by right.
Qed.

Lemma dict_get_In (k : string) (v : allocation) d :
  dict_get k d = Some v -> In (k, v) d.
Proof.
  induction d as [|[k0 v0] d IH]; simpl; [done|].
  destruct (String.eqb k k0) eqn:E.
  - apply String.eqb_eq in E as ->. intros [= ->]. by left.
  - intros H. right. by apply IH.
Qed.

Lemma dict_In_get (k : string) (v : allocation) d :
  List.NoDup (map fst d) -> In (k, v) d -> dict_get k d = Some v.
Proof.
  induction d as [|[k0 v0] d IH]; simpl; [done|].
  intros Hnd [H|H].
  - injection H as -> ->. by rewrite String.eqb_refl.
  - inversion Hnd as [|? ? Hnot Hnd']; subst.
    destruct (String.eqb k k0) eqn:E.
    + apply String.eqb_eq in E as ->. exfalso. apply Hnot.
      apply in_map_iff. by exists (k0, v).
    + by apply IH.
Qed.

Lemma dict_get_None (k : string) d :
  dict_get k d = None -> ~ In k (map fst d).
Proof.
  induction d as [|[k0 v0] d IH]; simpl; [tauto|].
  destruct (String.eqb k k0) eqn:E; [done|].
  apply String.eqb_neq in E. intros H [H'|H']; [congruence|]. by apply IH.
Qed.

Lemma by_file_fold (l : list allocation) : forall l0 d,
  dict_of l0 d ->
  dict_of (l0 ++ l) (fold_left (fun d a => dict_set (a_file a) a d) l d).
Proof.
  induction l as [|a l IH]; intros l0 d Hd; simpl.
  - by rewrite app_nil_r.
  - replace (l0 ++ a :: l) with ((l0 ++ [a]) ++ l) by by rewrite <- app_assoc.
    apply IH. destruct Hd as (H1 & H2 & H3). split; [|split].
    + destruct (dict_set_keys (a_file a) a d) as [[Hin ->]|[Hin ->]]; [done|].
      by apply NoDup_snoc.
    + intros k v Hin. apply dict_set_In in Hin as [[-> ->]|Hin].
      * split; [done|]. apply in_or_app. right. by left.
      * destruct (H2 k v Hin). split; [done|]. apply in_or_app. by left.
    + intros b Hb. apply in_app_or in Hb as [Hb|[<-|[]]].
      * apply H3 in Hb.
        destruct (dict_set_keys (a_file a) a d) as [[_ ->]|[_ ->]]; [done|].
        apply in_or_app. by left.
      * destruct (dict_set_keys (a_file a) a d) as [[Hin ->]|[_ ->]]; [done|].
        apply in_or_app. right. by left.
Qed.

Lemma by_file_ok (l : list allocation) : dict_of l (by_file l).
Proof.
  apply (by_file_fold l [] []). split; [constructor|]. split; [done|done].
Qed.
End CompareProofs.

(** X15. GarbageCollectionMonitor.compare_snapshots(s1, s2): every entry of
    new_allocations is an allocation of s2 whose file appears nowhere in s1;
    every entry of increased_allocations and of decreased_allocations has a
    strictly positive size_diff, equal to new_size - old_size and old_size -
    new_size respectively; no file is reported as both increased and
    decreased; and swapping the two snapshots negates the total size_diff. *)
Theorem snapshot_comparison_classifies_by_file
    (snapshot1 snapshot2 : GarbageCollectionMonitor.snapshot) :
  let cmp := GarbageCollectionMonitor.compare_snapshots snapshot1 snapshot2 in
  (forall a, In a (GarbageCollectionMonitor.new_allocations cmp) ->
     In a (GarbageCollectionMonitor.top_allocations snapshot2)
     /\ forall b, In b (GarbageCollectionMonitor.top_allocations snapshot1) ->
          GarbageCollectionMonitor.a_file b <> GarbageCollectionMonitor.a_file a)
  /\ (forall c, In c (GarbageCollectionMonitor.increased_allocations cmp) ->
        (0 < GarbageCollectionMonitor.c_size_diff c)%Z
        /\ GarbageCollectionMonitor.c_size_diff c
           = (GarbageCollectionMonitor.c_new_size c
              - GarbageCollectionMonitor.c_old_size c)%Z)
  /\ (forall c, In c (GarbageCollectionMonitor.decreased_allocations cmp) ->
        (0 < GarbageCollectionMonitor.c_size_diff c)%Z
        /\ GarbageCollectionMonitor.c_size_diff c
           = (GarbageCollectionMonitor.c_old_size c
              - GarbageCollectionMonitor.c_new_size c)%Z)
  /\ (forall c c', In c (GarbageCollectionMonitor.increased_allocations cmp) ->
        In c' (GarbageCollectionMonitor.decreased_allocations cmp) ->
        GarbageCollectionMonitor.c_file c <> GarbageCollectionMonitor.c_file c')
  /\ GarbageCollectionMonitor.size_diff
       (GarbageCollectionMonitor.compare_snapshots snapshot2 snapshot1)
     = (- GarbageCollectionMonitor.size_diff cmp)%Z.
Proof.
  intros cmp. unfold cmp, GarbageCollectionMonitor.compare_snapshots. simpl.
  pose proof (by_file_ok (GarbageCollectionMonitor.top_allocations snapshot1))
    as (N1 & V1 & K1).
  pose proof (by_file_ok (GarbageCollectionMonitor.top_allocations snapshot2))
    as (N2 & V2 & K2).
  split; [|split; [|split; [|split]]].
  - intros a Ha. apply in_flat_map in Ha as ([f x] & Hin & Ha).
    destruct (GarbageCollectionMonitor.dict_get f _) eqn:G; [done|].
    destruct Ha as [<-|[]]. destruct (V2 f x Hin) as [Hf Hx].
    split; [done|]. intros b Hb Heq. apply dict_get_None in G. apply G.
    rewrite Hf in Heq. rewrite <- Heq. by apply K1.
  - intros c Hc. apply in_flat_map in Hc as ([f x] & Hin & Hc).
    destruct (GarbageCollectionMonitor.dict_get f _) as [old|] eqn:G; [|done].
    destruct (_ <? _)%Z eqn:L; [|done]. destruct Hc as [<-|[]]. simpl.
    apply Z.ltb_lt in L. lia.
  - intros c Hc. apply in_flat_map in Hc as ([f x] & Hin & Hc).
    destruct (GarbageCollectionMonitor.dict_get f _) as [old|] eqn:G; [|done].
    destruct (_ <? _)%Z eqn:L; [|done]. destruct Hc as [<-|[]]. simpl.
    apply Z.ltb_lt in L. lia.
  - intros c c' Hc Hc'.
    apply in_flat_map in Hc as ([f x] & Hin & Hc).
    apply in_flat_map in Hc' as ([f' x'] & Hin' & Hc').
    destruct (GarbageCollectionMonitor.dict_get f _) as [old|] eqn:G; [|done].
    destruct (GarbageCollectionMonitor.dict_get f' _) as [old'|] eqn:G'; [|done].
    destruct (GarbageCollectionMonitor.a_size old <? _)%Z eqn:L; [|done].
    destruct (GarbageCollectionMonitor.a_size x' <? _)%Z eqn:L'; [|done].
    destruct Hc as [<-|[]]. destruct Hc' as [<-|[]]. simpl. intros ->.
    apply (dict_In_get _ _ _ N2) in Hin, Hin'.
    rewrite Hin in Hin'. injection Hin' as ->.
    rewrite G in G'. injection G' as ->.
    apply Z.ltb_lt in L, L'. lia.
  - lia.
Qed.

(** X16. GarbageCollectionMonitor.compare_snapshots(s, s) reports nothing:
    new_allocations, increased_allocations and decreased_allocations are
    empty and time_diff, size_diff and count_diff are 0, also when the
    snapshot lists one file several times. *)
Theorem snapshot_compared_with_itself_shows_no_change
    (s : GarbageCollectionMonitor.snapshot) :
  let cmp := GarbageCollectionMonitor.compare_snapshots s s in
  GarbageCollectionMonitor.new_allocations cmp = []
  /\ GarbageCollectionMonitor.increased_allocations cmp = []
  /\ GarbageCollectionMonitor.decreased_allocations cmp = []
  /\ GarbageCollectionMonitor.size_diff cmp = 0%Z
  /\ GarbageCollectionMonitor.count_diff cmp = 0%Z
  /\ (GarbageCollectionMonitor.time_diff cmp == 0)%Q.
Proof.
  intros cmp. unfold cmp, GarbageCollectionMonitor.compare_snapshots. simpl.
  pose proof (by_file_ok (GarbageCollectionMonitor.top_allocations s))
    as (N & V & K).
  assert (Hnil : forall {B} (f : string * GarbageCollectionMonitor.allocation -> list B)
                        (d : list (string * GarbageCollectionMonitor.allocation)),
             (forall e, In e d -> f e = []) -> flat_map f d = []).
  { intros B f d. induction d as [|e d IH]; intros H; [done|].
    simpl. rewrite (H e) by (by left). apply IH. intros e' He'. apply H. by right. }
  split; [|split; [|split; [|split; [|split]]]].
  - apply Hnil. intros [f x] Hin. by rewrite (dict_In_get _ _ _ N Hin).
  - apply Hnil. intros [f x] Hin. rewrite (dict_In_get _ _ _ N Hin).
    by rewrite Z.ltb_irrefl.
  - apply Hnil. intros [f x] Hin. rewrite (dict_In_get _ _ _ N Hin).
    by rewrite Z.ltb_irrefl.
  - lia.
  - lia.
  - ring.
Qed.

(** *** Further properties of the thread pool *)
Section AccountingProofs.
Import ThreadPool.

Lemma put_length (q : list Task) (t : Task) :
  heap_ok __lt__ q -> length (put q t) = S (length q).
Proof.
  intros H. destruct (put_spec q t H) as [_ Hp]. by rewrite Hp.
Qed.

Lemma get_length (q q' : list Task) (t : Task) :
  heap_ok __lt__ q -> get q = Some (t, q') -> length q = S (length q').
Proof.
  intros H G. destruct (get_spec q q' t H G) as (_ & Hp & _). by rewrite Hp.
Qed.

End AccountingProofs.



(** *** The thread pool monitor *)
Section MonitorProofs.
Import ThreadPool ThreadPoolMonitor.

Lemma get_stats_keys (max_workers : Z) (s : state) (key : string) :
  get_stats max_workers s !! key =
    if String.eqb key "queue_size"
    then Some (PInt (Z.of_nat (length (_task_queue s))))
    else if String.eqb key "max_workers" then Some (PInt max_workers)
    else if String.eqb key "is_shutdown" then Some (PBool (_shutdown s))
    else if String.eqb key "total_tasks"
    then Some (PInt (total_tasks (_stats s)))
    else if String.eqb key "completed_tasks"
    then Some (PInt (completed_tasks (_stats s)))
    else if String.eqb key "failed_tasks"
    then Some (PInt (failed_tasks (_stats s)))
    else if String.eqb key "active_tasks"
    then Some (PInt (active_tasks (_stats s)))
    else None.
Proof.
  unfold get_stats.
  repeat (destruct (String.eqb key _) eqn:E;
          [apply String.eqb_eq in E as ->; by rewrite lookup_insert_eq
          |apply String.eqb_neq in E; rewrite lookup_insert_ne by done; clear E]).
  done.
Qed.

Lemma item_Some (stats : gmap string stat_value) key v (o : output) :
  stats !! key = Some v -> item stats key o = (Return v, o).
Proof. unfold item. by intros ->. Qed.
End MonitorProofs.

(** X20. ThreadPoolMonitor._log_stats on a ThreadPool: the dictionary returned
    by ThreadPool.get_stats has no key 'max_queue_size', so building the log
    message raises KeyError, which the except Exception clause turns into
    one ERROR line. For every pool state the call returns normally having
    logged exactly that one ERROR line; the statistics line and the warnings
    are never logged and the custom callback is never called. With the key
    present the same body logs the INFO line first and passes the dictionary
    to the callback. *)
Theorem pool_monitor_never_reports_statistics
    (max_workers : Z) (thread_pool : ThreadPool.state)
    (callback : option (gmap string ThreadPool.stat_value -> result unit))
    (o : ThreadPoolMonitor.output) :
  ThreadPool.get_stats max_workers thread_pool !! "max_queue_size" = None
  /\ ThreadPoolMonitor._log_stats max_workers thread_pool callback o
     = (Return tt,
        ThreadPoolMonitor.Output
          (ThreadPoolMonitor.lines o ++ [ThreadPoolMonitor.ERROR])
          (ThreadPoolMonitor.passed o))
  /\ forall (max_queue_size : Z) (cb : gmap string ThreadPool.stat_value -> result unit),
       let stats := <["max_queue_size" := ThreadPool.PInt max_queue_size]>
                      (ThreadPool.get_stats max_workers thread_pool) in
       exists warnings,
         ThreadPoolMonitor.log_stats_body stats (Some cb) o
         = (cb stats,
            ThreadPoolMonitor.Output
              (ThreadPoolMonitor.lines o ++ ThreadPoolMonitor.INFO :: warnings)
              (ThreadPoolMonitor.passed o ++ [stats])).
Proof.
  split; [by rewrite get_stats_keys|]. split.
  - unfold ThreadPoolMonitor._log_stats, ThreadPoolMonitor.try_except,
      ThreadPoolMonitor.log_stats_body.
    unfold mbind, M_bind.
    rewrite (item_Some _ "active_tasks" _ o (get_stats_keys _ _ _)).
    rewrite (item_Some _ "queue_size" _ o (get_stats_keys _ _ _)).
    unfold ThreadPoolMonitor.item at 1. rewrite get_stats_keys. done.
  - intros cap cb stats.
    assert (Hk : forall key, key <> "max_queue_size" ->
              stats !! key = ThreadPool.get_stats max_workers thread_pool !! key).
    { intros key Hne. unfold stats. by rewrite lookup_insert_ne. }
    assert (Hm : stats !! "max_queue_size" = Some (ThreadPool.PInt cap)).
    { unfold stats. by rewrite lookup_insert_eq. }
    unfold ThreadPoolMonitor.log_stats_body, mbind, M_bind, ThreadPoolMonitor.item.
    rewrite Hm. rewrite !Hk by done. rewrite !get_stats_keys.
    cbn [String.eqb Ascii.eqb Bool.eqb]. unfold mret, M_ret, raise.
    unfold ThreadPoolMonitor.logger, modify, when, ThreadPoolMonitor.call_callback.
    cbn [ThreadPoolMonitor.lines ThreadPoolMonitor.passed].
    destruct (Qgtb _ (_ * _)); destruct (Qgtb _ 0);
      [destruct (Qgtb _ 0); [destruct (Qgtb (_ / _) _)|]| |
       destruct (Qgtb _ 0); [destruct (Qgtb (_ / _) _)|]|];
      unfold mret, M_ret;
      cbn [ThreadPoolMonitor.lines ThreadPoolMonitor.passed];
      rewrite <- ?app_assoc; eexists; reflexivity.
Qed.

(** *** The configuration manager *)
Section ConfigProofs.
Import ConfigurationManager.

Lemma split_nonempty (key : string) : split key <> [].
Proof.
  destruct key as [|c rest]; simpl; [done|].
  match goal with |- (if ?b then _ else _) <> _ => destruct b end; [done|].
  by destruct (split rest).
Qed.

Lemma split_snoc (key : string) :
  split key = removelast (split key) ++ [List.last (split key) EmptyString].
Proof. apply app_removelast_last, split_nonempty. Qed.

Lemma set_loop_empty (keys : list string) (last : string) (v : config_value) :
  exists c', set_loop keys last v (Dict ∅) = (Return None, c').
Proof.
  induction keys as [|k keys IH]; simpl; [eauto|].
  rewrite lookup_empty, lookup_insert_eq. destruct IH as [c' ->]. eauto.
Qed.

Lemma get_loop_empty (keys : list string) :
  keys <> [] -> get_loop keys (Dict ∅) = None.
Proof. destruct keys; [done|]. simpl. by rewrite lookup_empty. Qed.

Lemma set_loop_Raise (last : string) (v : config_value) (keys : list string) :
  forall config e config',
  set_loop keys last v config = (Raise e, config') ->
  config' = config
  /\ exists p a, p `prefix_of` keys /\ get_loop p config = Some (Atom a)
                 /\ e = set_error p keys.
Proof.
  induction keys as [|k keys IH]; intros config e config'; simpl.
  - destruct config as [a|d]; [|done]. intros [= <- <-]. split; [done|].
    exists [], a. split; [done|]. split; [done|]. unfold set_error.
    by rewrite decide_True.
  - destruct config as [a|d].
    + intros [= <- <-]. split; [done|]. exists [], a.
      split; [apply prefix_nil|]. split; [done|]. unfold set_error.
      by rewrite decide_False.
    + destruct (d !! k) as [child|] eqn:E.
      * rewrite E. destruct (set_loop keys last v child) as [r child'] eqn:S.
        intros [= -> <-]. apply IH in S as (-> & p & a & Hp & Hg & He).
        split; [by rewrite insert_id|]. exists (k :: p), a.
        split; [by apply prefix_cons|]. split; [simpl; by rewrite E|].
        rewrite He. unfold set_error.
        destruct (decide (p = keys)) as [->|Hne];
          destruct (decide (_ = _)) as [Heq|Hne']; try done; congruence.
      * rewrite lookup_insert_eq.
        destruct (set_loop_empty keys last v) as [c' ->]. done.
Qed.

Lemma set_loop_blocked (last : string) (v : config_value) (p : list string) :
  forall keys config a,
  p `prefix_of` keys -> get_loop p config = Some (Atom a) ->
  set_loop keys last v config = (Raise (set_error p keys), config).
Proof.
  induction p as [|k p IH]; intros keys config a Hp Hg.
  - simpl in Hg. injection Hg as ->. unfold set_error.
    destruct keys as [|k keys]; cbn [set_loop];
      destruct (decide (_ = _)); done || congruence.
  - destruct Hp as [r ->]. simpl in *.
    destruct config as [b|d]; [done|].
    destruct (d !! k) as [child|] eqn:E; [|done]. rewrite E.
    rewrite (IH (p ++ r) child a); [|by exists r|done].
    rewrite insert_id by done. unfold set_error.
    destruct (decide (p = p ++ r)) as [Heq|Hne];
      destruct (decide (_ = _)) as [Heq'|Hne']; try done; congruence.
Qed.

Lemma set_loop_Return (last : string) (v : config_value) (keys : list string) :
  forall config old config',
  set_loop keys last v config = (Return old, config') ->
  get_loop (keys ++ [last]) config' = Some v
  /\ old = get_loop (keys ++ [last]) config.
Proof.
  induction keys as [|k keys IH]; intros config old config'; simpl.
  - destruct config as [a|d]; [done|]. intros [= <- <-]. simpl.
    rewrite lookup_insert_eq. split; [done|]. by destruct (d !! last).
  - destruct config as [a|d]; [done|].
    destruct (d !! k) as [child|] eqn:E.
    + rewrite E. destruct (set_loop keys last v child) as [r child'] eqn:S.
      intros [= -> <-]. apply IH in S as [S1 S2]. simpl.
      by rewrite lookup_insert_eq.
    + rewrite lookup_insert_eq.
      destruct (set_loop keys last v (Dict ∅)) as [r child'] eqn:S.
      intros [= -> <-]. apply IH in S as [S1 S2]. simpl.
      rewrite lookup_insert_eq. split; [done|].
      rewrite S2. apply get_loop_empty. by destruct keys.
Qed.

Lemma set_loop_elsewhere (last : string) (v : config_value) (keys : list string) :
  forall config keys2,
  diverging (keys ++ [last]) keys2 = true ->
  get_loop keys2 (snd (set_loop keys last v config)) = get_loop keys2 config.
Proof.
  induction keys as [|k keys IH]; intros config keys2; simpl.
  - destruct keys2 as [|k2 rest2]; [done|].
    destruct (String.eqb last k2) eqn:E; [by destruct rest2|].
    apply String.eqb_neq in E. intros _.
    destruct config as [a|d]; [done|]. simpl. by rewrite lookup_insert_ne.
  - destruct keys2 as [|k2 rest2]; [done|].
    destruct config as [a|d]; [done|].
    destruct (String.eqb k k2) eqn:E.
    + apply String.eqb_eq in E as <-. intros Hd.
      destruct (d !! k) as [child|] eqn:L.
      * rewrite L. specialize (IH child rest2 Hd).
        destruct (set_loop keys last v child) as [r child']. simpl in *.
        by rewrite lookup_insert_eq, L.
      * rewrite lookup_insert_eq. specialize (IH (Dict ∅) rest2 Hd).
        destruct (set_loop keys last v (Dict ∅)) as [r child']. simpl in *.
        rewrite lookup_insert_eq, L, IH. apply get_loop_empty.
        intros ->. by destruct (keys ++ [last]).
    + apply String.eqb_neq in E. intros _.
      destruct (d !! k) as [child|] eqn:L.
      * rewrite L. destruct (set_loop keys last v child) as [r child']. simpl.
        by rewrite lookup_insert_ne.
      * rewrite lookup_insert_eq.
        destruct (set_loop keys last v (Dict ∅)) as [r child']. simpl.
        by rewrite !lookup_insert_ne.
Qed.

Lemma notify_Exception callbacks key old (v : config_value) e :
  _notify_config_change_callbacks callbacks key old v = Raise e ->
  is_Exception e = false.
Proof.
  induction callbacks as [|cb rest IH]; simpl; [done|].
  destruct (cb key old v) as [|e']; [done|].
  destruct (is_Exception e') eqn:E; [done|]. by intros [= <-].
Qed.

Lemma snd_set callbacks key (v : config_value) config :
  snd (set callbacks key v config)
  = snd (set_loop (removelast (split key)) (List.last (split key) EmptyString)
                  v config).
Proof.
  unfold set. by destruct (set_loop _ _ _ _) as [[old|e] c'].
Qed.

Lemma set_get callbacks key (v default : config_value) config :
  (forall e, fst (set callbacks key v config) = Raise e -> is_Exception e = false) ->
  get key default (snd (set callbacks key v config)) = v.
Proof.
  intros H. rewrite snd_set. unfold set in H. unfold get.
  destruct (set_loop _ _ _ _) as [[old|e] c'] eqn:S.
  - apply set_loop_Return in S as [S _]. rewrite <- split_snoc in S.
    simpl. by rewrite S.
  - specialize (H e eq_refl).
    apply set_loop_Raise in S as (_ & p & a & _ & _ & ->).
    unfold set_error in H. by destruct (decide _).
Qed.

Lemma set_get_other callbacks key1 key2 (v default : config_value) config :
  diverging (split key1) (split key2) = true ->
  get key2 default (snd (set callbacks key1 v config)) = get key2 default config.
Proof.
  intros H. rewrite snd_set. unfold get. rewrite (split_snoc key1) in H.
  by rewrite set_loop_elsewhere.
Qed.
End ConfigProofs.

(** X21. ConfigurationManager.set(key, value) followed by get(key, default):
    whenever set returns without raising, get with the same dotted key
    returns the value just set, whatever the default and the change
    callbacks, on a configuration that is a tree of dicts. *)
Theorem config_set_then_get_returns_value
    (callbacks : list (string -> option ConfigurationManager.config_value ->
                       ConfigurationManager.config_value -> result unit))
    (key : string) (v default config : ConfigurationManager.config_value) :
  fst (ConfigurationManager.set callbacks key v config) = Return tt ->
  ConfigurationManager.get key default
    (snd (ConfigurationManager.set callbacks key v config)) = v.
Proof.
  intros H. apply set_get. intros e He. congruence.
Qed.

(** Setting the warning threshold in an empty configuration. *)
Lemma config_set_then_get_returns_value_witness :
  ConfigurationManager.get "memory.warning_threshold"
    (ConfigurationManager.Atom (ConfigurationManager.ANum 70))
    (snd (ConfigurationManager.set [] "memory.warning_threshold"
            (ConfigurationManager.Atom (ConfigurationManager.ANum 60))
            (ConfigurationManager.Dict ∅)))
  = ConfigurationManager.Atom (ConfigurationManager.ANum 60).
Proof.
  apply (config_set_then_get_returns_value [] "memory.warning_threshold").
  reflexivity.
Defined.

(** X22. ConfigurationManager.set(key, value) with persist=False raises an
    Exception exactly when the value stored at some prefix of the key's
    parent path (key.split('.')[:-1]) is not a dict: TypeError when that
    prefix is a proper one, AttributeError when it is the whole parent path.
    In that case the configuration is left unchanged: no intermediate dict
    has been created. *)
Theorem config_set_fails_exactly_below_a_non_dict
    (callbacks : list (string -> option ConfigurationManager.config_value ->
                       ConfigurationManager.config_value -> result unit))
    (key : string) (v config : ConfigurationManager.config_value) :
  let keys := removelast (ConfigurationManager.split key) in
  (forall e config',
     ConfigurationManager.set callbacks key v config = (Raise e, config') ->
     is_Exception e = true ->
     config' = config
     /\ exists p a, p `prefix_of` keys
          /\ ConfigurationManager.get_loop p config
             = Some (ConfigurationManager.Atom a)
          /\ e = set_error p keys)
  /\ (forall p a, p `prefix_of` keys ->
        ConfigurationManager.get_loop p config
        = Some (ConfigurationManager.Atom a) ->
        ConfigurationManager.set callbacks key v config
        = (Raise (set_error p keys), config)).
Proof.
  intros keys. split.
  - intros e config'. unfold ConfigurationManager.set. fold keys.
    destruct (ConfigurationManager.set_loop _ _ _ _) as [[old|e'] c'] eqn:S.
    + intros [= H <-] He. apply notify_Exception in H. congruence.
    + intros [= <- <-] _. by apply set_loop_Raise in S.
  - intros p a Hp Hg. unfold ConfigurationManager.set. fold keys.
    by rewrite (set_loop_blocked _ _ p keys config a Hp Hg).
Qed.



(** X24. MemoryManager.set_memory_thresholds: the monitor's thresholds are
    always what MemoryMonitor.set_thresholds leaves; when that call raises,
    the same exception propagates and the configuration is not touched; when
    the whole call returns, each threshold given is both the monitor's value
    and the value that get('memory.warning_threshold') /
    get('memory.critical_threshold') returns from the configuration.
    Example: (warning=90, critical=None) on thresholds 70/85 raises
    ValueError, leaves the configuration as it was and the monitor at 90/85. *)
Theorem thresholds_reach_config_only_when_accepted
    (callbacks : list (string -> option ConfigurationManager.config_value ->
                       ConfigurationManager.config_value -> result unit))
    (warning critical : option Q) (monitor : MemoryMonitor.state)
    (config default : ConfigurationManager.config_value) :
  let out := MemoryManager.set_memory_thresholds callbacks warning critical
               monitor config in
  let checked := MemoryMonitor.set_thresholds warning critical monitor in
  fst (snd out) = snd checked
  /\ (forall e, fst checked = Raise e ->
        fst out = Raise e /\ snd (snd out) = config)
  /\ (fst out = Return tt ->
      fst checked = Return tt
      /\ (forall w, warning = Some w ->
            MemoryMonitor._warning_threshold (fst (snd out)) = w
            /\ ConfigurationManager.get "memory.warning_threshold" default
                 (snd (snd out))
               = ConfigurationManager.Atom (ConfigurationManager.ANum w))
      /\ (forall c, critical = Some c ->
            MemoryMonitor._critical_threshold (fst (snd out)) = c
            /\ ConfigurationManager.get "memory.critical_threshold" default
                 (snd (snd out))
               = ConfigurationManager.Atom (ConfigurationManager.ANum c)))
  /\ MemoryManager.set_memory_thresholds [] (Some 90%Q) None
       (MemoryMonitor.__init__ 70 85) (ConfigurationManager.Dict ∅)
     = (Raise ValueError,
        (MemoryMonitor.State 90 85 None false, ConfigurationManager.Dict ∅)).
Proof.
  intros out checked.
  assert (Hthr : forall s', checked = (Return tt, s') ->
            (forall w, warning = Some w -> MemoryMonitor._warning_threshold s' = w)
            /\ (forall c, critical = Some c ->
                  MemoryMonitor._critical_threshold s' = c)).
  { unfold checked, MemoryMonitor.set_thresholds. intros s'.
    destruct warning as [w|]; [destruct (MemoryMonitor.in_range w); [|done]|];
      (destruct critical as [c|];
       [destruct (MemoryMonitor.in_range c); [|done]|]);
      simpl;
      match goal with |- context [Qle_bool ?a ?b] =>
        destruct (Qle_bool a b); [done|] end;
      intros [= <-]; simpl; split; intros ? [= <-]; done. }
  unfold out, MemoryManager.set_memory_thresholds. fold checked.
  destruct checked as [[[]|e] monitor'] eqn:C.
  - destruct (Hthr monitor' eq_refl) as [Hw Hc]. clear Hthr.
    set (s1 := match warning with
               | Some w => ConfigurationManager.set callbacks
                             "memory.warning_threshold"
                             (ConfigurationManager.Atom
                                (ConfigurationManager.ANum w)) config
               | None => (Return tt, config)
               end).
    destruct s1 as [r1 config1] eqn:S1.
    assert (G1 : r1 = Return tt -> forall w, warning = Some w ->
              ConfigurationManager.get "memory.warning_threshold" default config1
              = ConfigurationManager.Atom (ConfigurationManager.ANum w)).
    { intros -> w ->. subst s1.
      replace config1 with (snd (ConfigurationManager.set callbacks
        "memory.warning_threshold"
        (ConfigurationManager.Atom (ConfigurationManager.ANum w)) config))
        by by rewrite S1.
      apply set_get. rewrite S1. simpl. done. }
    destruct r1 as [[]|e1].
    + set (s2 := match critical with
                 | Some c => ConfigurationManager.set callbacks
                               "memory.critical_threshold"
                               (ConfigurationManager.Atom
                                  (ConfigurationManager.ANum c)) config1
                 | None => (Return tt, config1)
                 end).
      destruct s2 as [r2 config2] eqn:S2. simpl.
      split; [done|]. split; [done|]. split; [|reflexivity].
      intros ->. split; [done|]. split.
      * intros w Ew. split; [by apply Hw|].
        destruct critical as [c|]; subst s2.
        -- replace config2 with (snd (ConfigurationManager.set callbacks
             "memory.critical_threshold"
             (ConfigurationManager.Atom (ConfigurationManager.ANum c)) config1))
             by by rewrite S2.
           rewrite set_get_other by reflexivity. by apply G1.
        -- injection S2 as <-. by apply G1.
      * intros c Ec. split; [by apply Hc|]. subst critical s2.
        replace config2 with (snd (ConfigurationManager.set callbacks
          "memory.critical_threshold"
          (ConfigurationManager.Atom (ConfigurationManager.ANum c)) config1))
          by by rewrite S2.
        apply set_get. rewrite S2. simpl. done.
    + simpl. split; [done|]. split; [done|]. split; [done|reflexivity].
  - simpl. split; [done|]. split; [|split; [done|reflexivity]].
    intros e' [= <-]. done.
Qed.

(** *** Further properties of the alert router *)
Section RouterProofs.
Import MemoryMonitor MemoryAlertManager.

Lemma rules_loop_frame now last stats level (configs : list AlertConfig) :
  forall i d self,
  let out := rules_loop now last stats level configs i d self in
  _alert_configs (snd out) = _alert_configs self
  /\ (_last_alert_times (snd out) = _last_alert_times self
      \/ _last_alert_times (snd out) = <[level := now]> (_last_alert_times self)).
Proof.
  induction configs as [|c rest IH]; intros i d self; simpl; [auto|].
  destruct (enabled c); simpl; [|apply IH].
  destruct (Qltb (now - last) (cooldown_period c)); simpl; [apply IH|].
  destruct (execute stats level c) as [[]|e].
  - destruct (IH (S i) (d ++ [i]) (set_last self level now)) as [H1 H2].
    split; [by rewrite H1|]. right.
    destruct H2 as [-> | ->]; [done|]. simpl. by rewrite insert_insert_eq.
  - destruct (is_Exception e); [apply IH|]. simpl. auto.
Qed.

Lemma handle_alert_frame now stats level self :
  let out := _handle_alert now stats level self in
  _alert_configs (snd out) = _alert_configs self
  /\ (_last_alert_times (snd out) = _last_alert_times self
      \/ _last_alert_times (snd out) = <[level := now]> (_last_alert_times self)).
Proof.
  unfold _handle_alert.
  destruct (_last_alert_times self !! level) as [last|]; [|simpl; auto].
  destruct (_alert_configs self !! level) as [configs|]; [|simpl; auto].
  apply rules_loop_frame.
Qed.

Lemma rules_loop_failing now last stats level (configs : list AlertConfig) :
  forall i d self,
  (forall c, c ∈ configs -> due now last c = true ->
     exists e, execute stats level c = Raise e /\ is_Exception e = true) ->
  rules_loop now last stats level configs i d self
  = (Return (d ++ due_positions now last configs i), self).
Proof.
  induction configs as [|c rest IH]; intros i d self H; simpl.
  - by rewrite app_nil_r.
  - assert (Hrest : forall c', c' ∈ rest -> due now last c' = true ->
              exists e, execute stats level c' = Raise e /\ is_Exception e = true).
    { intros c' Hc'. apply H. apply elem_of_cons. by right. }
    specialize (H c (proj2 (elem_of_cons _ _ _) (or_introl eq_refl))).
    unfold due in *. destruct (enabled c); simpl in *; [|by apply IH].
    destruct (Qltb (now - last) (cooldown_period c)); simpl in *; [by apply IH|].
    destruct (H eq_refl) as (e & -> & ->).
    rewrite IH by done. by rewrite <- app_assoc.
Qed.

Lemma rules_loop_total now last stats level (configs : list AlertConfig) :
  harmless configs ->
  forall i d self, exists r self',
    rules_loop now last stats level configs i d self = (Return r, self').
Proof.
  induction configs as [|c rest IH]; intros H i d self; simpl; [eauto|].
  assert (harmless rest) as Hrest.
  { intros c' st l e Hc'. apply H. apply elem_of_cons. by right. }
  destruct (enabled c); simpl; [|by apply IH].
  destruct (Qltb (now - last) (cooldown_period c)); simpl; [by apply IH|].
  destruct (execute stats level c) as [[]|e] eqn:E; [by apply IH|].
  rewrite (H c stats level e); [by apply IH| |done].
  apply elem_of_cons. by left.
Qed.

Lemma due_later now now2 last (c : AlertConfig) :
  (now <= now2)%Q -> due now last c = true -> due now2 last c = true.
Proof.
  intros Hle H. apply due_true in H as [H1 H2]. apply due_true.
  split; [done|]. lra.
Qed.

(** One alert of a paced sequence: the short rule at [i] is dispatched, the
    long rule at [j] is not, and the level's timestamp moves on. *)
Lemma paced_alert now last stats level self rules i j (A B : AlertConfig) :
  _alert_configs self !! level = Some rules ->
  _last_alert_times self !! level = Some last ->
  harmless rules ->
  rules !! i = Some A -> rules !! j = Some B ->
  enabled A = true -> action A <> CUSTOM ->
  (cooldown_period A <= now - last)%Q ->
  exists d self',
    _handle_alert now stats level self = (Return d, self')
    /\ i ∈ d
    /\ ((now - last < cooldown_period B)%Q -> j ∉ d)
    /\ _alert_configs self' !! level = Some rules
    /\ _last_alert_times self' !! level = Some now.
Proof.
  intros Hr Hl Hh Hi Hj He Ha Hcd.
  assert (exists d self', _handle_alert now stats level self = (Return d, self'))
    as (d & self' & H).
  { unfold _handle_alert. rewrite Hl, Hr. by apply rules_loop_total. }
  exists d, self'. split; [done|].
  apply handle_alert_spec in H
    as (last' & configs & Hl' & Hc' & -> & H2 & _ & H4 & _).
  rewrite Hl in Hl'. injection Hl' as <-. rewrite Hr in Hc'. injection Hc' as <-.
  assert (due now last A = true) as HdA by (by apply due_true).
  split; [|split; [|split]].
  - apply due_positions_elem. split; [lia|]. exists A. by rewrite Nat.sub_0_r.
  - intros Hlt Hel. apply due_positions_elem in Hel as (_ & c & Hc & Hd).
    rewrite Nat.sub_0_r, Hj in Hc. injection Hc as <-.
    by rewrite due_false_cooldown in Hd.
  - by rewrite H2.
  - apply H4. exists A. split; [by eapply list_elem_of_lookup_2|].
    split; [done|]. unfold execute. by destruct (action A).
Qed.
End RouterProofs.

(** X25. MemoryAlertManager._handle_alert for one level, whatever it returns or
    raises: the alert configurations are unchanged, the last-alert timestamp
    of every other level is unchanged, and the timestamp of the handled
    level is either unchanged or the current time. A new manager has no
    NORMAL entry: _handle_alert for NORMAL raises KeyError and
    add_alert_config for NORMAL raises ValueError, both leaving the manager
    unchanged. *)
Theorem alert_levels_do_not_interfere (now : Q)
    (stats : MemoryMonitor.MemoryStats)
    (level other : MemoryMonitor.MemoryAlertLevel)
    (self : MemoryAlertManager.state) (config : MemoryAlertManager.AlertConfig) :
  let out := MemoryAlertManager._handle_alert now stats level self in
  MemoryAlertManager._alert_configs (snd out)
  = MemoryAlertManager._alert_configs self
  /\ (other <> level ->
      MemoryAlertManager._last_alert_times (snd out) !! other
      = MemoryAlertManager._last_alert_times self !! other)
  /\ (MemoryAlertManager._last_alert_times (snd out) !! level
      = MemoryAlertManager._last_alert_times self !! level
      \/ MemoryAlertManager._last_alert_times (snd out) !! level = Some now)
  /\ MemoryAlertManager._handle_alert now stats MemoryMonitor.NORMAL
       MemoryAlertManager.__init__
     = (Raise KeyError, MemoryAlertManager.__init__)
  /\ MemoryAlertManager.add_alert_config MemoryMonitor.NORMAL config
       MemoryAlertManager.__init__
     = (Raise ValueError, MemoryAlertManager.__init__).
Proof.
  intros out. destruct (handle_alert_frame now stats level self) as [H1 H2].
  fold out in H1, H2. split; [done|]. split; [|split; [|done]].
  - intros Hne. destruct H2 as [-> | ->]; [done|]. by rewrite lookup_insert_ne.
  - destruct H2 as [-> | ->]; [by left|]. right. by rewrite lookup_insert_eq.
Qed.

(** X26. MemoryAlertManager._handle_alert: when the action of every rule that is
    due raises an Exception, the call still returns, every due rule has been
    tried, and the manager is unchanged: the level's timestamp is not
    updated. So a failed action starts no cooldown: every such rule is tried
    again by any later alert of that level, however soon it follows. *)
Theorem failed_alert_action_starts_no_cooldown (now now2 : Q)
    (stats stats2 : MemoryMonitor.MemoryStats)
    (level : MemoryMonitor.MemoryAlertLevel) (self : MemoryAlertManager.state)
    (last : Q) (rules : list MemoryAlertManager.AlertConfig) :
  MemoryAlertManager._last_alert_times self !! level = Some last ->
  MemoryAlertManager._alert_configs self !! level = Some rules ->
  (forall c, c ∈ rules -> due now last c = true ->
     exists e, MemoryAlertManager.execute stats level c = Raise e
               /\ is_Exception e = true) ->
  (now <= now2)%Q ->
  MemoryAlertManager._handle_alert now stats level self
  = (Return (due_positions now last rules 0), self)
  /\ forall d2 self2,
       MemoryAlertManager._handle_alert now2 stats2 level self = (Return d2, self2) ->
       forall i, i ∈ due_positions now last rules 0 -> i ∈ d2.
Proof.
  intros Hl Hr Hf Hle. split.
  - unfold MemoryAlertManager._handle_alert. rewrite Hl, Hr.
    by rewrite rules_loop_failing.
  - intros d2 self2 H i Hi.
    apply handle_alert_spec in H as (last' & configs & Hl' & Hc' & -> & _).
    rewrite Hl in Hl'. injection Hl' as <-. rewrite Hr in Hc'. injection Hc' as <-.
    apply due_positions_elem in Hi as (Hle' & c & Hc & Hd).
    apply due_positions_elem. split; [done|]. exists c. split; [done|].
    by apply (due_later now).
Qed.

(** A custom rule whose callback raises is tried at 1000 s and again at 1001 s. *)
Lemma failed_alert_action_starts_no_cooldown_witness :
  let s := snd (MemoryAlertManager.add_alert_config MemoryMonitor.WARNING
                  flaky_rule MemoryAlertManager.__init__) in
  MemoryAlertManager._handle_alert 1000 (sample 75) MemoryMonitor.WARNING s
  = (Return [0%nat], s)
  /\ MemoryAlertManager._handle_alert 1001 (sample 75) MemoryMonitor.WARNING s
     = (Return [0%nat], s).
Proof.
  intros s.
  assert (H : forall c, c ∈ [flaky_rule] -> due 1000 0 c = true ->
            exists e, MemoryAlertManager.execute (sample 75) MemoryMonitor.WARNING c
                      = Raise e /\ is_Exception e = true).
  { intros c Hc _. apply list_elem_of_singleton in Hc as ->.
    exists UserError. split; reflexivity. }
  split.
  - apply (failed_alert_action_starts_no_cooldown 1000 1001 (sample 75) (sample 75)
             MemoryMonitor.WARNING s 0 [flaky_rule]
             eq_refl eq_refl H).
    vm_compute. discriminate.
  - reflexivity.
Defined.

(** X27. MemoryAlertManager._handle_alert with two rules of one level, an
    enabled non-custom rule A and a rule B with a longer cooldown, and
    actions that raise nothing but Exceptions: if each alert of that level
    comes at least A's cooldown and less than B's cooldown after the
    previous one, then every one of these alerts dispatches A and none
    dispatches B, for any number of alerts. A resets the timestamp shared by
    the level each time, so B never becomes due. *)
Theorem short_cooldown_rule_starves_long_one
    (level : MemoryMonitor.MemoryAlertLevel)
    (rules : list MemoryAlertManager.AlertConfig) (i j : nat)
    (A B : MemoryAlertManager.AlertConfig)
    (alerts : list (Q * MemoryMonitor.MemoryStats)) :
  forall (self : MemoryAlertManager.state) (t : Q),
  MemoryAlertManager._alert_configs self !! level = Some rules ->
  MemoryAlertManager._last_alert_times self !! level = Some t ->
  harmless rules ->
  rules !! i = Some A -> rules !! j = Some B ->
  MemoryAlertManager.enabled A = true ->
  MemoryAlertManager.action A <> MemoryAlertManager.CUSTOM ->
  paced (MemoryAlertManager.cooldown_period A)
        (MemoryAlertManager.cooldown_period B) t alerts ->
  Forall (fun r => exists d, r = Return d /\ i ∈ d /\ j ∉ d)
         (fst (handle_alerts level alerts self)).
Proof.
  induction alerts as [|[t' stats] rest IH]; intros self t Hr Hl Hh Hi Hj He Ha Hp.
  - constructor.
  - destruct Hp as (Hlo & Hhi & Hp).
    destruct (paced_alert t' t stats level self rules i j A B
                Hr Hl Hh Hi Hj He Ha Hlo) as (d & self' & H & Hid & Hjd & Hr' & Hl').
    cbn [handle_alerts]. rewrite H.
    specialize (IH self' t' Hr' Hl' Hh Hi Hj He Ha Hp).
    destruct (handle_alerts level rest self') as [rs self2]. simpl in *.
    constructor; [|done]. exists d. split; [done|]. split; [done|]. by apply Hjd.
Qed.

(** A webhook rule (60 s) and an e-mail rule (300 s); alerts every 100 s. *)
Lemma short_cooldown_rule_starves_long_one_witness :
  let s := snd (MemoryAlertManager.add_alert_config MemoryMonitor.WARNING email_rule
             (snd (MemoryAlertManager.add_alert_config MemoryMonitor.WARNING
                     webhook_rule MemoryAlertManager.__init__))) in
  let s1 := snd (MemoryAlertManager._handle_alert 1000 (sample 75)
                   MemoryMonitor.WARNING s) in
  paced 60 300 1000 [(1100%Q, sample 75); (1200%Q, sample 80); (1300%Q, sample 75)]
  /\ Forall (fun r => exists d, r = Return d /\ 0%nat ∈ d /\ 1%nat ∉ d)
       (fst (handle_alerts MemoryMonitor.WARNING
               [(1100%Q, sample 75); (1200%Q, sample 80); (1300%Q, sample 75)] s1)).
Proof.
  intros s s1.
  assert (Hp : paced 60 300 1000
            [(1100%Q, sample 75); (1200%Q, sample 80); (1300%Q, sample 75)]).
  { simpl. repeat split; vm_compute; done || discriminate. }
  split; [exact Hp|].
  apply (short_cooldown_rule_starves_long_one MemoryMonitor.WARNING
           [webhook_rule; email_rule] 0 1 webhook_rule email_rule
           [(1100%Q, sample 75); (1200%Q, sample 80); (1300%Q, sample 75)]
           s1 1000).
  - reflexivity.
  - reflexivity.
  - intros c st l e Hc. apply elem_of_cons in Hc as [->|Hc].
    + discriminate.
    + apply list_elem_of_singleton in Hc as ->. discriminate.
  - reflexivity.
  - reflexivity.
  - reflexivity.
  - discriminate.
  - exact Hp.
Defined.

(** *** The window of the leak detection *)
Section LeakWindow.
Import GarbageCollectionMonitor.

Lemma true_div_gt (a b : Z) (g : Q) :
  (0 < b)%Z -> (1 <= g)%Q -> (g < true_div a b)%Q -> (b < a)%Z.
Proof.
  unfold true_div. intros Hb Hg H.
  assert (0 < inject_Z b)%Q as Hb' by (rewrite (Zlt_Qlt 0 b) in Hb; exact Hb).
  destruct (Qlt_le_dec (g * inject_Z b) (inject_Z a)) as [L|L].
  - rewrite Zlt_Qlt.
    assert (1 * inject_Z b <= g * inject_Z b)%Q as H1
      by (apply Qmult_le_compat_r; [done|by apply Qlt_le_weak]).
    lra.
  - apply Qle_shift_div_r in L; [|done]. lra.
Qed.

Lemma leak_at_fields (rs : list snapshot) (g : Q) (i : nat) (l : leak) :
  l ∈ leak_at rs g i ->
  (0 < start_size l)%Z
  /\ growth_rate l = true_div (end_size l) (start_size l)
  /\ (g < growth_rate l)%Q
  /\ l_size_diff l = (end_size l - start_size l)%Z.
Proof.
  unfold leak_at.
  destruct (rs !! (i - 1)%nat) as [prev|]; [|by intros H; apply elem_of_nil in H].
  destruct (rs !! i) as [curr|]; [|by intros H; apply elem_of_nil in H].
  destruct (0 <? total_size prev)%Z eqn:Hpos; [|by intros H; apply elem_of_nil in H].
  destruct (Qgtb (true_div (total_size curr) (total_size prev)) g) eqn:Hg;
    [|by intros H; apply elem_of_nil in H].
  destruct (consistent_growth rs i curr g);
    [|by intros H; apply elem_of_nil in H].
  simpl. intros H. apply list_elem_of_singleton in H as ->. simpl.
  split; [by apply Z.ltb_lt|]. split; [done|]. split; [by apply Qgtb_true|done].
Qed.

Lemma leak_at_length (rs : list snapshot) (g : Q) (i : nat) :
  (length (leak_at rs g i) <= 1)%nat.
Proof.
  unfold leak_at.
  destruct (rs !! (i - 1)%nat) as [prev|]; [|simpl; lia].
  destruct (rs !! i) as [curr|]; [|simpl; lia].
  destruct (0 <? total_size prev)%Z; [|simpl; lia].
  destruct (_ && _); simpl; lia.
Qed.

Lemma flat_map_length_le {A B} (f : A -> list B) (l : list A) :
  (forall a, (length (f a) <= 1)%nat) ->
  (length (flat_map f l) <= length l)%nat.
Proof.
  intros H. induction l as [|a l IH]; simpl; [lia|].
  rewrite length_app. specialize (H a). lia.
Qed.
End LeakWindow.

(** X28. GarbageCollectionMonitor.detect_memory_leaks with min_snapshots = m > 0
    and growth_threshold >= 1: the result depends only on the last m
    snapshots (older ones may be anything), it has at most m - 1 candidates,
    and every candidate has 0 < start_size < end_size, growth_rate >
    growth_threshold and a positive size_diff. *)
Theorem leak_detection_reads_only_the_window
    (older snaps : list GarbageCollectionMonitor.snapshot)
    (min_snapshots : Z) (growth_threshold : Q) :
  (0 < min_snapshots)%Z ->
  length snaps = Z.to_nat min_snapshots ->
  (1 <= growth_threshold)%Q ->
  GarbageCollectionMonitor.detect_memory_leaks (older ++ snaps)
    min_snapshots growth_threshold
  = GarbageCollectionMonitor.detect_memory_leaks snaps
      min_snapshots growth_threshold
  /\ (length (GarbageCollectionMonitor.detect_memory_leaks (older ++ snaps)
                min_snapshots growth_threshold)
      <= Z.to_nat min_snapshots - 1)%nat
  /\ forall l,
       l ∈ GarbageCollectionMonitor.detect_memory_leaks (older ++ snaps)
             min_snapshots growth_threshold ->
       (0 < GarbageCollectionMonitor.start_size l
        < GarbageCollectionMonitor.end_size l)%Z
       /\ (growth_threshold < GarbageCollectionMonitor.growth_rate l)%Q
       /\ (0 < GarbageCollectionMonitor.l_size_diff l)%Z.
Proof.
  intros Hm Hlen Hg.
  assert (Hdet : forall pre,
            GarbageCollectionMonitor.detect_memory_leaks (pre ++ snaps)
              min_snapshots growth_threshold
            = flat_map (GarbageCollectionMonitor.leak_at snaps growth_threshold)
                       (seq 1 (length snaps - 1))).
  { intros pre. unfold GarbageCollectionMonitor.detect_memory_leaks.
    assert ((Z.of_nat (length (pre ++ snaps)) <? min_snapshots)%Z = false) as ->
      by (apply Z.ltb_ge; rewrite length_app; lia).
    unfold GarbageCollectionMonitor.recent.
    assert ((0 <? min_snapshots)%Z = true) as -> by (by apply Z.ltb_lt).
    rewrite length_app, <- Hlen.
    replace (length pre + length snaps - length snaps)%nat with (length pre) by lia.
    by rewrite drop_app_length. }
  split; [by rewrite (Hdet older), <- (Hdet [])|].
  rewrite (Hdet older). split.
  - etransitivity; [apply flat_map_length_le, leak_at_length|].
    rewrite length_seq. lia.
  - intros l Hl. apply list_elem_of_In, in_flat_map in Hl as (i & _ & Hl).
    apply list_elem_of_In, leak_at_fields in Hl as (H1 & H2 & H3 & H4).
    rewrite H2 in H3. pose proof (true_div_gt _ _ _ H1 Hg H3) as H5.
    split; [lia|]. split; [by rewrite H2|lia].
Qed.

(** The window 100, 115, 135 with an older, larger snapshot before it. *)
Lemma leak_detection_reads_only_the_window_witness :
  GarbageCollectionMonitor.detect_memory_leaks
    ([GarbageCollectionMonitor.Snapshot (-60) 5000 10 []] ++ window 100 115 135)
    3 (11 # 10)
  = GarbageCollectionMonitor.detect_memory_leaks (window 100 115 135) 3 (11 # 10).
Proof.
  apply (leak_detection_reads_only_the_window
           [GarbageCollectionMonitor.Snapshot (-60) 5000 10 []]
           (window 100 115 135) 3 (11 # 10)).
  - lia.
  - reflexivity.
  - vm_compute. discriminate.
Defined.

(** *** The thread pool, one lock section at a time *)
Section ThreadsProofs.
Import ThreadPoolThreads.

Lemma uncounted_app (l : list submitting) (c : submitting) :
  uncounted (l ++ [c])
  = (uncounted l + match c with Queued _ => 1 | Checked _ => 0 end)%nat.
Proof.
  unfold uncounted. rewrite List.filter_app, length_app. by destruct c.
Qed.

Lemma uncounted_queue (l : list submitting) (k : nat) (t : ThreadPool.Task) :
  l !! k = Some (Checked t) ->
  uncounted (<[k := Queued t]> l) = S (uncounted l).
Proof.
  revert k. induction l as [|c l IH]; intros k H; [done|].
  destruct k as [|k]; simpl in H.
  - by injection H as ->.
  - specialize (IH k H). unfold uncounted in *.
    change (<[S k:=Queued t]> (c :: l)) with (c :: <[k:=Queued t]> l).
    cbn [List.filter]. destruct c; cbn [length]; by rewrite IH.
Qed.

Lemma uncounted_count (l : list submitting) (k : nat) (t : ThreadPool.Task) :
  l !! k = Some (Queued t) ->
  uncounted l = S (uncounted (delete k l)).
Proof.
  revert k. induction l as [|c l IH]; intros k H; [done|].
  destruct k as [|k]; simpl in H.
  - by injection H as ->.
  - specialize (IH k H). unfold uncounted in *.
    change (delete (S k) (c :: l)) with (c :: delete k l).
    cbn [List.filter]. destruct c; cbn [length]; by rewrite IH.
Qed.

Lemma step_threads_inv (s : state) (o : op) :
  threads_inv s -> threads_inv (step s o).
Proof.
  intros (Hq & Ha & Hc & Hf & Hsum).
  destruct o as [f p i now|k|k| |k| | | |]; simpl.
  - unfold submit_check. destruct (_shutdown s); [done|].
    unfold threads_inv. cbn [snd _task_queue _stats work_items finishing
      _dispatcher_thread dispatch_errors submits].
    rewrite uncounted_app. simpl. rewrite Nat.add_0_r. done.
  - unfold submit_put. destruct (submits s !! k) as [[t|t]|] eqn:E; try done.
    unfold threads_inv. cbn [_task_queue _stats work_items finishing
      _dispatcher_thread dispatch_errors submits].
    rewrite (uncounted_queue _ _ _ E), put_length by done.
    split; [by apply put_spec|]. split; [done|]. split; [done|].
    split; [done|]. lia.
  - unfold submit_count. destruct (submits s !! k) as [[t|t]|] eqn:E; try done.
    unfold threads_inv. cbn [_task_queue _stats work_items finishing
      _dispatcher_thread dispatch_errors submits ThreadPool.total_tasks
      ThreadPool.completed_tasks ThreadPool.failed_tasks
      ThreadPool.active_tasks].
    rewrite (uncounted_count _ _ _ E) in Hsum.
    split; [done|]. split; [done|]. split; [done|]. split; [done|]. lia.
  - unfold dispatch. destruct (_dispatcher_thread s) as [| |t|t|] eqn:D.
    + destruct (_shutdown s); unfold threads_inv, at_;
        cbn [_task_queue _stats work_items finishing _dispatcher_thread
             dispatch_errors submits counted got] in *;
        (split; [done|]); (split; [done|]); (split; [done|]);
        (split; [done|]); lia.
    + destruct (ThreadPool.get (_task_queue s)) as [[t q']|] eqn:G.
      * pose proof (get_length _ _ _ Hq G) as Hl.
        apply get_spec in G as (Hq' & _ & _); [|done].
        unfold threads_inv.
        cbn [_task_queue _stats work_items finishing _dispatcher_thread
             dispatch_errors submits counted got] in *.
        split; [done|]. split; [done|]. split; [done|]. split; [done|]. lia.
      * unfold threads_inv, at_.
        cbn [_task_queue _stats work_items finishing _dispatcher_thread
             dispatch_errors submits counted got] in *.
        split; [done|]. split; [done|]. split; [done|]. split; [done|]. lia.
    + unfold threads_inv.
      cbn [_task_queue _stats work_items finishing _dispatcher_thread
           dispatch_errors submits counted got ThreadPool.total_tasks
           ThreadPool.completed_tasks ThreadPool.failed_tasks
           ThreadPool.active_tasks] in *.
      split; [done|]. split; [lia|]. split; [done|]. split; [done|]. lia.
    + destruct (executor_shutdown s); unfold threads_inv;
        cbn [_task_queue _stats work_items finishing _dispatcher_thread
             dispatch_errors submits counted got] in *;
        rewrite ?length_app; simpl;
        (split; [done|]); (split; [lia|]); (split; [done|]);
        (split; [done|]); lia.
    + unfold threads_inv. rewrite D. done.
  - unfold execute_try. destruct (work_items s !! k) as [t|] eqn:E; [|done].
    pose proof (lookup_lt_Some _ _ _ E) as Hk.
    unfold threads_inv.
    cbn [_task_queue _stats work_items finishing _dispatcher_thread
         dispatch_errors submits].
    rewrite length_delete by eauto.
    destruct (ThreadPool.func t) as [|e]; [|destruct (is_Exception e)];
      cbn [ThreadPool.total_tasks ThreadPool.completed_tasks
           ThreadPool.failed_tasks ThreadPool.active_tasks];
      (split; [done|]); repeat split; lia.
  - unfold execute_finally.
    destruct (finishing s) as [|n] eqn:F; [unfold threads_inv; by rewrite F|].
    unfold threads_inv.
    cbn [_task_queue _stats work_items finishing _dispatcher_thread
         dispatch_errors submits ThreadPool.total_tasks
         ThreadPool.completed_tasks ThreadPool.failed_tasks
         ThreadPool.active_tasks].
    split; [done|]. split; [lia|]. split; [done|]. split; [done|]. lia.
  - unfold shutdown_check. by destruct (_shutdown s).
  - unfold shutdown_set. by destruct (passed s).
  - unfold shutdown_executor. by destruct (flagged s).
Qed.

Lemma run_threads_inv (ops : list op) : forall s,
  threads_inv s -> threads_inv (run ops s).
Proof.
  induction ops as [|o ops IH]; intros s H; [done|].
  simpl. apply IH. by apply step_threads_inv.
Qed.

Lemma init_threads_inv : threads_inv init.
Proof.
  split; [apply init_inv|]. repeat split; simpl; lia.
Qed.

Lemma step_threads_balanced (s : state) (o : op) :
  threads_inv s -> well_behaved o = true ->
  threads_balanced s -> threads_balanced (step s o).
Proof.
  intros (Hq & Ha & Hc & Hf & _) Ho (Hsum & Hok).
  destruct o as [f p i now|k|k| |k| | | |]; simpl.
  - unfold submit_check. destruct (_shutdown s); [done|].
    unfold threads_balanced. cbn [snd _task_queue _stats work_items finishing
      _dispatcher_thread dispatch_errors submits].
    rewrite uncounted_app. simpl. rewrite Nat.add_0_r. split; [done|].
    intros t Ht. rewrite map_app, !app_assoc in Ht.
    apply elem_of_app in Ht as [Ht|Ht].
    + apply Hok. by rewrite !app_assoc.
    + simpl in Ht. apply list_elem_of_singleton in Ht as ->.
      intros e He. simpl in He. subst f. done.
  - unfold submit_put. destruct (submits s !! k) as [[t|t]|] eqn:E; try done.
    unfold threads_balanced. cbn [_task_queue _stats work_items finishing
      _dispatcher_thread dispatch_errors submits].
    rewrite (uncounted_queue _ _ _ E), put_length by done.
    split; [lia|].
    assert (payload_ok t) as Ht.
    { apply Hok. rewrite !elem_of_app. right. right. right.
      apply list_elem_of_fmap. exists (Checked t). split; [done|].
      by eapply list_elem_of_lookup_2. }
    intros u Hu. destruct (put_spec (_task_queue s) t Hq) as [_ Hp].
    rewrite Hp in Hu. rewrite !elem_of_app in Hu. rewrite elem_of_cons in Hu.
    destruct Hu as [[->|Hu]|[Hu|[Hu|Hu]]]; [done| | | |];
      try (apply Hok; rewrite !elem_of_app; by auto).
    apply list_elem_of_fmap in Hu as (c & -> & Hc').
    apply list_elem_of_lookup in Hc' as [j Hj].
    destruct (decide (j = k)) as [->|Hne].
    + rewrite list_lookup_insert_eq in Hj by (by eapply lookup_lt_Some).
      by injection Hj as <-.
    + rewrite list_lookup_insert_ne in Hj by done.
      apply Hok. rewrite !elem_of_app. right. right. right.
      apply list_elem_of_fmap. exists c. split; [done|].
      by eapply list_elem_of_lookup_2.
  - unfold submit_count. destruct (submits s !! k) as [[t|t]|] eqn:E; try done.
    unfold threads_balanced. cbn [_task_queue _stats work_items finishing
      _dispatcher_thread dispatch_errors submits ThreadPool.total_tasks
      ThreadPool.completed_tasks ThreadPool.failed_tasks
      ThreadPool.active_tasks].
    rewrite (uncounted_count _ _ _ E) in Hsum. split; [lia|].
    intros u Hu. apply Hok. rewrite !elem_of_app in *.
    destruct Hu as [Hu|[Hu|[Hu|Hu]]]; auto.
    right. right. right. apply list_elem_of_fmap in Hu as (c & -> & Hc').
    apply list_elem_of_fmap. exists c. split; [done|].
    by eapply list_elem_of_delete_inv.
  - unfold dispatch. destruct (_dispatcher_thread s) as [| |t|t|] eqn:D.
    + destruct (_shutdown s); unfold threads_balanced, at_;
        cbn [_task_queue _stats work_items finishing _dispatcher_thread
             dispatch_errors submits counted got held_task] in *; done.
    + destruct (ThreadPool.get (_task_queue s)) as [[t q']|] eqn:G.
      * pose proof (get_length _ _ _ Hq G) as Hl.
        apply get_spec in G as (_ & Hp & _); [|done].
        unfold threads_balanced.
        cbn [_task_queue _stats work_items finishing _dispatcher_thread
             dispatch_errors submits counted got held_task] in *.
        split; [lia|]. intros u Hu. apply Hok. rewrite Hp.
        rewrite !elem_of_app in *. rewrite elem_of_cons.
        destruct Hu as [Hu|[Hu|[Hu|Hu]]]; auto.
        apply list_elem_of_singleton in Hu. auto.
      * unfold threads_balanced, at_.
        cbn [_task_queue _stats work_items finishing _dispatcher_thread
             dispatch_errors submits counted got held_task] in *. done.
    + unfold threads_balanced.
      cbn [_task_queue _stats work_items finishing _dispatcher_thread
           dispatch_errors submits counted got held_task
           ThreadPool.total_tasks ThreadPool.completed_tasks
           ThreadPool.failed_tasks ThreadPool.active_tasks] in *.
      split; [lia|done].
    + destruct (executor_shutdown s); unfold threads_balanced;
        cbn [_task_queue _stats work_items finishing _dispatcher_thread
             dispatch_errors submits counted got held_task] in *.
      * split; [lia|]. intros u Hu. apply Hok. rewrite !elem_of_app in *.
        destruct Hu as [Hu|[Hu|[Hu|Hu]]]; auto. by apply elem_of_nil in Hu.
      * split; [lia|]. intros u Hu. apply Hok. rewrite !elem_of_app in *.
        destruct Hu as [Hu|[Hu|[[Hu|Hu]|Hu]]]; auto.
        by apply elem_of_nil in Hu.
    + unfold threads_balanced. rewrite D. done.
  - unfold execute_try. destruct (work_items s !! k) as [t|] eqn:E; [|done].
    pose proof (lookup_lt_Some _ _ _ E) as Hk.
    assert (payload_ok t) as Ht.
    { apply Hok. rewrite !elem_of_app. right. right. left.
      by eapply list_elem_of_lookup_2. }
    unfold threads_balanced.
    cbn [_task_queue _stats work_items finishing _dispatcher_thread
         dispatch_errors submits]. split.
    + destruct (ThreadPool.func t) as [|e] eqn:F;
        [|rewrite (Ht e F)];
        cbn [ThreadPool.total_tasks ThreadPool.completed_tasks
             ThreadPool.failed_tasks ThreadPool.active_tasks]; lia.
    + intros u Hu. apply Hok. rewrite !elem_of_app in *.
      destruct Hu as [Hu|[Hu|[Hu|Hu]]]; auto.
      right. right. left. by eapply list_elem_of_delete_inv.
  - unfold execute_finally.
    destruct (finishing s) as [|n] eqn:F; [unfold threads_balanced; by rewrite F|].
    unfold threads_balanced.
    cbn [_task_queue _stats work_items finishing _dispatcher_thread
         dispatch_errors submits ThreadPool.total_tasks
         ThreadPool.completed_tasks ThreadPool.failed_tasks
         ThreadPool.active_tasks].
    split; [lia|done].
  - unfold shutdown_check. by destruct (_shutdown s).
  - unfold shutdown_set. by destruct (passed s).
  - unfold shutdown_executor. by destruct (flagged s).
Qed.

Lemma run_threads_balanced (ops : list op) : forall s,
  threads_inv s -> forallb well_behaved ops = true -> threads_balanced s ->
  threads_balanced (run ops s).
Proof.
  induction ops as [|o ops IH]; intros s Hi Ho Hb; [done|].
  simpl in Ho. apply andb_true_iff in Ho as [Ho Hos].
  simpl. apply IH; [by apply step_threads_inv|done|by apply step_threads_balanced].
Qed.

Lemma step_closed_inv (s0 s : state) (o : op) :
  closed_inv s0 s -> closed_inv s0 (step s o).
Proof.
  intros (H1 & H2 & Hq & Hw & Hb & Hl & Hp).
  destruct o as [f p i now|k|k| |k| | | |]; simpl.
  - unfold submit_check. by rewrite H1.
  - unfold submit_put. destruct (submits s !! k) as [[t|t]|] eqn:E; try done.
    unfold closed_inv. cbn [_shutdown executor_shutdown _task_queue work_items
      _dispatcher_thread dispatch_errors].
    rewrite put_length by done.
    split; [done|]. split; [done|]. split; [by apply put_spec|].
    split; [done|]. split; [done|]. split; lia.
  - unfold submit_count. destruct (submits s !! k) as [[t|t]|] eqn:E; done.
  - unfold dispatch. destruct (_dispatcher_thread s) as [| |t|t|] eqn:D.
    + rewrite H1. unfold closed_inv, at_.
      cbn [_shutdown executor_shutdown _task_queue work_items
           _dispatcher_thread dispatch_errors in_get held_task] in *.
      split; [done|]. split; [done|]. split; [done|]. split; [done|].
      split; [lia|]. split; simpl in *; lia.
    + destruct (ThreadPool.get (_task_queue s)) as [[t q']|] eqn:G.
      * pose proof (get_length _ _ _ Hq G) as Hlen.
        apply get_spec in G as (Hq' & _ & _); [|done].
        unfold closed_inv.
        cbn [_shutdown executor_shutdown _task_queue work_items
             _dispatcher_thread dispatch_errors in_get held_task] in *.
        split; [done|]. split; [done|]. split; [done|]. split; [done|].
        split; [lia|]. split; simpl in *; lia.
      * unfold closed_inv, at_.
        cbn [_shutdown executor_shutdown _task_queue work_items
             _dispatcher_thread dispatch_errors in_get held_task] in *.
        split; [done|]. split; [done|]. split; [done|]. split; [done|].
        split; [lia|]. split; simpl in *; lia.
    + unfold closed_inv.
      cbn [_shutdown executor_shutdown _task_queue work_items
           _dispatcher_thread dispatch_errors in_get held_task] in *.
      split; [done|]. split; [done|]. split; [done|]. split; [done|].
      split; [lia|]. split; simpl in *; lia.
    + rewrite H2. unfold closed_inv.
      cbn [_shutdown executor_shutdown _task_queue work_items
           _dispatcher_thread dispatch_errors in_get held_task] in *.
      split; [done|]. split; [done|]. split; [done|]. split; [done|].
      split; [lia|]. split; simpl in *; lia.
    + unfold closed_inv. rewrite D. done.
  - unfold execute_try. destruct (work_items s !! k) as [t|] eqn:E; [|done].
    unfold closed_inv. cbn [_shutdown executor_shutdown _task_queue work_items
      _dispatcher_thread dispatch_errors].
    split; [done|]. split; [done|]. split; [done|].
    split; [|done]. etransitivity; [apply submseteq_delete|done].
  - unfold execute_finally. destruct (finishing s) as [|n]; done.
  - unfold shutdown_check. by rewrite H1.
  - unfold shutdown_set. destruct (passed s); done.
  - unfold shutdown_executor. destruct (flagged s); done.
Qed.

Lemma run_closed_inv (ops : list op) : forall s0 s,
  closed_inv s0 s -> closed_inv s0 (run ops s).
Proof.
  induction ops as [|o ops IH]; intros s0 s H; [done|].
  simpl. apply IH. by apply step_closed_inv.
Qed.
End ThreadsProofs.

(** X17. ThreadPool statistics with the threads interleaved one lock section at
    a time (pool neither resized nor purged): in every state, active_tasks
    is the number of work items handed to the executor and not yet counted
    by _execute_task, plus the workers before their finally, plus a task the
    dispatcher has counted and not yet handed over, plus the hand-overs that
    failed; and completed + failed + active + queue size + (a task taken
    from the queue and not yet counted active) <= total_tasks + (tasks
    queued by a submit that has not yet counted them) + (workers before
    their finally), with equality when every submitted function returns or
    raises an Exception. So completed + failed + active + queue size <=
    total_tasks holds whenever no thread is between two of its sections, and
    not in every state: a task can be completed before its submit has
    counted it (completed_tasks 1, total_tasks 0). *)
Theorem task_counters_account_for_tasks_in_flight
    (ops : list ThreadPoolThreads.op) :
  let s := ThreadPoolThreads.run ops ThreadPoolThreads.init in
  let st := ThreadPoolThreads._stats s in
  ThreadPool.active_tasks st
  = Z.of_nat (length (ThreadPoolThreads.work_items s)
              + ThreadPoolThreads.finishing s
              + counted (ThreadPoolThreads._dispatcher_thread s)
              + ThreadPoolThreads.dispatch_errors s)
  /\ (0 <= ThreadPool.completed_tasks st)%Z
  /\ (0 <= ThreadPool.failed_tasks st)%Z
  /\ (ThreadPool.completed_tasks st + ThreadPool.failed_tasks st
      + ThreadPool.active_tasks st
      + Z.of_nat (length (ThreadPoolThreads._task_queue s))
      + Z.of_nat (got (ThreadPoolThreads._dispatcher_thread s))
      <= ThreadPool.total_tasks st
         + Z.of_nat (uncounted (ThreadPoolThreads.submits s))
         + Z.of_nat (ThreadPoolThreads.finishing s))%Z
  /\ (forallb well_behaved ops = true ->
      (ThreadPool.completed_tasks st + ThreadPool.failed_tasks st
       + ThreadPool.active_tasks st
       + Z.of_nat (length (ThreadPoolThreads._task_queue s))
       + Z.of_nat (got (ThreadPoolThreads._dispatcher_thread s))
       = ThreadPool.total_tasks st
         + Z.of_nat (uncounted (ThreadPoolThreads.submits s))
         + Z.of_nat (ThreadPoolThreads.finishing s))%Z)
  /\ (quiet s ->
      (ThreadPool.completed_tasks st + ThreadPool.failed_tasks st
       + ThreadPool.active_tasks st
       + Z.of_nat (length (ThreadPoolThreads._task_queue s))
       <= ThreadPool.total_tasks st)%Z)
  /\ (let s1 := ThreadPoolThreads.run completed_before_counted
                  ThreadPoolThreads.init in
      ThreadPool.completed_tasks (ThreadPoolThreads._stats s1) = 1%Z
      /\ ThreadPool.total_tasks (ThreadPoolThreads._stats s1) = 0%Z).
Proof.
  intros s st.
  pose proof (run_threads_inv ops _ init_threads_inv) as (Hq & Ha & Hc & Hf & Hsum).
  fold s in Hq, Ha, Hc, Hf, Hsum. fold st in Ha, Hc, Hf, Hsum.
  split; [done|]. split; [done|]. split; [done|]. split; [done|].
  split; [|split; [|split; reflexivity]].
  - intros Ho.
    assert (threads_balanced ThreadPoolThreads.init) as Hb0.
    { split; [done|]. intros t Ht. by apply elem_of_nil in Ht. }
    by pose proof (run_threads_balanced ops _ init_threads_inv Ho Hb0) as [H _].
  - intros (Q1 & Q2 & Q3). rewrite Q1, Q2, Q3 in Hsum. lia.
Qed.

(** The task of [completed_before_counted], then the worker's [finally] and
    the count of the submission: every thread is between calls. *)
Lemma task_counters_account_for_tasks_in_flight_witness :
  let ops := completed_before_counted
             ++ [ThreadPoolThreads.ExecuteFinally; ThreadPoolThreads.SubmitCount 0] in
  let s := ThreadPoolThreads.run ops ThreadPoolThreads.init in
  forallb well_behaved ops = true
  /\ quiet s
  /\ (ThreadPool.completed_tasks (ThreadPoolThreads._stats s)
      + ThreadPool.failed_tasks (ThreadPoolThreads._stats s)
      + ThreadPool.active_tasks (ThreadPoolThreads._stats s)
      + Z.of_nat (length (ThreadPoolThreads._task_queue s))
      <= ThreadPool.total_tasks (ThreadPoolThreads._stats s))%Z.
Proof.
  split; [reflexivity|]. split; [repeat split|].
  apply (task_counters_account_for_tasks_in_flight
           (completed_before_counted
            ++ [ThreadPoolThreads.ExecuteFinally; ThreadPoolThreads.SubmitCount 0])).
  repeat split.
Defined.

(** X18. ThreadPool.shutdown with the threads interleaved one lock section at a
    time: once shutdown has set the flag and shut the executor down, both
    stay set, no task is handed to the executor any more (the work items
    only shrink), a dispatcher at the head of its loop ends, and submit
    raises RuntimeError. At most one task still leaves the queue, taken by a
    dispatcher round that was already inside get; every task that was queued
    or held by the dispatcher is afterwards still queued, still held, or
    lost in a failed hand-over (logged, never run, active_tasks left
    incremented). Example: submit directly followed by shutdown ends with an
    empty queue, active_tasks 1, completed_tasks 0 and one dispatch error. *)
Theorem shutdown_loses_or_strands_queued_tasks
    (before after : list ThreadPoolThreads.op) :
  let s := ThreadPoolThreads.run before ThreadPoolThreads.init in
  let s' := ThreadPoolThreads.run after s in
  ThreadPoolThreads._shutdown s = true ->
  ThreadPoolThreads.executor_shutdown s = true ->
  ThreadPoolThreads._shutdown s' = true
  /\ ThreadPoolThreads.executor_shutdown s' = true
  /\ ThreadPoolThreads.work_items s' ⊆+ ThreadPoolThreads.work_items s
  /\ (length (ThreadPoolThreads._task_queue s)
      <= length (ThreadPoolThreads._task_queue s')
         + in_get (ThreadPoolThreads._dispatcher_thread s))%nat
  /\ (length (ThreadPoolThreads._task_queue s)
      + length (held_task (ThreadPoolThreads._dispatcher_thread s))
      + ThreadPoolThreads.dispatch_errors s
      <= length (ThreadPoolThreads._task_queue s')
         + length (held_task (ThreadPoolThreads._dispatcher_thread s'))
         + ThreadPoolThreads.dispatch_errors s')%nat
  /\ (forall func priority task_id now,
        ThreadPoolThreads.submit_check func priority task_id now s'
        = (Raise RuntimeError, s'))
  /\ (ThreadPoolThreads._dispatcher_thread s' = ThreadPoolThreads.AtWhile ->
      ThreadPoolThreads._dispatcher_thread (ThreadPoolThreads.dispatch s')
      = ThreadPoolThreads.Ended).
Proof.
  intros s s' H1 H2.
  assert (closed_inv s s) as H0.
  { split; [done|]. split; [done|].
    split; [apply (run_threads_inv before _ init_threads_inv)|].
    split; [done|]. split; [done|]. split; lia. }
  pose proof (run_closed_inv after s s H0) as (G1 & G2 & _ & Gw & Gb & Gl & Gp).
  fold s' in G1, G2, Gw, Gb, Gl, Gp.
  split; [done|]. split; [done|]. split; [done|]. split; [lia|].
  split; [done|]. split.
  - intros. unfold ThreadPoolThreads.submit_check. by rewrite G1.
  - intros D. unfold ThreadPoolThreads.dispatch. by rewrite D, G1.
Qed.

(** A task is submitted, [shutdown] follows at once, and the dispatcher,
    which was waiting in [get], takes the task and loses it. *)
Lemma shutdown_loses_or_strands_queued_tasks_witness :
  let s := ThreadPoolThreads.run submit_then_shutdown ThreadPoolThreads.init in
  let s' := ThreadPoolThreads.run dispatcher_runs_on s in
  length (ThreadPoolThreads._task_queue s) = 1%nat
  /\ ThreadPoolThreads._task_queue s' = []
  /\ ThreadPoolThreads.work_items s' = []
  /\ ThreadPoolThreads.dispatch_errors s' = 1%nat
  /\ ThreadPool.active_tasks (ThreadPoolThreads._stats s') = 1%Z
  /\ ThreadPool.completed_tasks (ThreadPoolThreads._stats s') = 0%Z
  /\ ThreadPoolThreads._dispatcher_thread s' = ThreadPoolThreads.Ended
  /\ (length (ThreadPoolThreads._task_queue s)
      <= length (ThreadPoolThreads._task_queue s')
         + in_get (ThreadPoolThreads._dispatcher_thread s))%nat.
Proof.
  intros s s'. do 7 (split; [reflexivity|]).
  apply (shutdown_loses_or_strands_queued_tasks submit_then_shutdown
           dispatcher_runs_on); reflexivity.
Defined.
